(** * jyuusetu-check: the response parser, the region cropper and the merge step

    A shallow embedding of the algorithmic core of the repository:
    - [src/utils.py]: [crop_evidence_region];
    - [app.py]: [_normalize_box_2d], and of the display loop the choice of
      the image a finding is shown with;
    - [src/ai_extractor.py]: [_rescue_incomplete_json_array],
      [_parse_issues_json], [_run_form_check] and
      [verify_disclosure_against_evidence].

    Conventions of the embedding.
    - A Python [str] is a list of Unicode code points ([list N]).
    - A Python [float] is the rational number it stands for, with [nan] and
      the two infinities kept apart. The decoder reads a float literal as the
      nearest binary64 number. The cropper is given twice: [Utils] computes
      with exact rationals, [UtilsFloat] rounds every operation to binary64
      as the interpreter does.
    - A Python exception is a value of [exn]; a function that can raise
      returns [result].
    - [json.loads] is given twice: [Json] follows the grammar, and so do the
      functions of [AiExtractor] and [App] that call it; [Runtime] adds the
      two limits of the interpreter, on the digits of an integer literal and
      on the depth of nesting, and gives the same functions with them.
    - The two calls of the external model are inputs: each is given by the
      response it returned. *)

From Stdlib Require Import ZArith NArith QArith Qround Lia Lqa List Bool Permutation.
From Stdlib Require Decimal DecimalN DecimalFacts DecimalPos.
From Stdlib Require String Ascii.
Import ListNotations.

Set Implicit Arguments.

(* ================================================================== *)
(** * Part I. The embedding                                            *)
(* ================================================================== *)

(** ** Python numbers *)

Module PyNum.

(** [max(a, b)] keeps its first argument unless the second is greater. *)
Definition py_max (a b : Q) : Q :=
  match (b ?= a)%Q with Gt => b | _ => a end.

(** [min(a, b)] keeps its first argument unless the second is smaller. *)
Definition py_min (a b : Q) : Q :=
  match (b ?= a)%Q with Lt => b | _ => a end.

(** [int(x)] of a float: truncation toward zero. *)
Definition py_int (x : Q) : Z := Z.quot (Qnum x) (Z.pos (Qden x)).


(** *** binary64

    A finite [float] is a number [m * 2 ** e] with [|m| < 2 ** 53] and
    [-1074 <= e <= 971]. *)

(** [(n / d) / 2 ** e] as a fraction *)
Definition scale2 (n d e : Z) : Z * Z :=
  if (0 <=? e)%Z then (n, (d * 2 ^ e)%Z) else ((n * 2 ^ (- e))%Z, d).

(** [a / b] to the nearest integer, a tie to the even one; [0 <= a] and
    [0 < b]. *)
Definition div_nearest_even (a b : Z) : Z :=
  let q := (a / b)%Z in
  let r := (a mod b)%Z in
  match (2 * r ?= b)%Z with
  | Lt => q
  | Gt => (q + 1)%Z
  | Eq => if Z.even q then q else (q + 1)%Z
  end.

(** The binary64 number nearest to [q], a tie to the even mantissa: what a
    float operation or a float literal of exact value [q] gives. [None] when
    the nearest one is beyond the largest finite float: the operation
    overflows. *)
Definition round_to_double (q : Q) : option Q :=
  let n := Z.abs (Qnum q) in
  let d := Z.pos (Qden q) in
  if (n =? 0)%Z then Some 0
  else
    let k0 := (Z.log2 n - Z.log2 d)%Z in
    (* [2 ** k <= n / d < 2 ** (k + 1)] *)
    let k := (let (a, b) := scale2 n d k0 in if a <? b then k0 - 1 else k0)%Z in
    let e := Z.max (k - 52) (-1074) in
    let m := (let (a, b) := scale2 n d e in div_nearest_even a b) in
    if ((971 <? e) || ((e =? 971) && (2 ^ 53 <=? m)))%Z then None
    else
      let s := if (Qnum q <? 0)%Z then (- m)%Z else m in
      Some (if (0 <=? e)%Z then inject_Z (s * 2 ^ e)
            else Qred (Qmake s (Z.to_pos (2 ^ (- e))))).

End PyNum.

(** ** [src/utils.py] *)

Module Utils.
Import PyNum.
Local Open Scope Q_scope.

(** A PIL image, as far as the cropper reads it: [pil_image.size]. *)
Record image : Type := Image { img_w : Z; img_h : Z }.

(** A box in the order the source unpacks it: [ymin, xmin, ymax, xmax]. *)
Record box : Type := Box { b_ymin : Q; b_xmin : Q; b_ymax : Q; b_xmax : Q }.

(** The pixel rectangle handed to [pil_image.crop]:
    [(xmin_px, ymin_px, xmax_px, ymax_px)]. *)
Record rect : Type := Rect { r_left : Z; r_upper : Z; r_right : Z; r_lower : Z }.

(** What the function returns: the image it was given, or a crop of it. *)
Inductive crop_result : Type :=
| Original : crop_result
| Cropped : rect -> crop_result.

(** Lines 34-42: the padding, in normalized coordinates. *)
Definition expand_box (padding_ratio_y padding_ratio_x : Q) (b : box) : box :=
  let box_h := b_ymax b - b_ymin b in
  let box_w := b_xmax b - b_xmin b in
  let pad_y := box_h * padding_ratio_y in
  let pad_x := box_w * padding_ratio_x in
  Box (b_ymin b - pad_y) (b_xmin b - pad_x) (b_ymax b + pad_y) (b_xmax b + pad_x).

(** Lines 45-48: the clamp to the 0-1000 scale. *)
Definition clamp_normalized (b : box) : box :=
  let ymin_n := py_max 0 (py_min (b_ymin b) 1000) in
  let xmin_n := py_max 0 (py_min (b_xmin b) 1000) in
  let ymax_n := py_max (ymin_n + 1) (py_min (b_ymax b) 1000) in
  let xmax_n := py_max (xmin_n + 1) (py_min (b_xmax b) 1000) in
  Box ymin_n xmin_n ymax_n xmax_n.

(** Lines 51-54: one coordinate, [int((n / 1000.0) * dim)]. *)
Definition to_px (n : Q) (dim : Z) : Z := py_int ((n / 1000) * inject_Z dim).

Definition to_pixels (img : image) (b : box) : rect :=
  Rect (to_px (b_xmin b) (img_w img)) (to_px (b_ymin b) (img_h img))
       (to_px (b_xmax b) (img_w img)) (to_px (b_ymax b) (img_h img)).

(** Lines 57-60: the clamp to the image. *)
Definition clamp_pixels (img : image) (r : rect) : rect :=
  let w := img_w img in
  let h := img_h img in
  let xmin_px := Z.max 0 (Z.min (r_left r) (w - 1)) in
  let ymin_px := Z.max 0 (Z.min (r_upper r) (h - 1)) in
  let xmax_px := Z.max (xmin_px + 1) (Z.min (r_right r) w) in
  let ymax_px := Z.max (ymin_px + 1) (Z.min (r_lower r) h) in
  Rect xmin_px ymin_px xmax_px ymax_px.

(** The rectangle the function crops for a box of four numbers. *)
Definition crop_rect (img : image) (pry prx : Q) (b : box) : rect :=
  clamp_pixels img (to_pixels img (clamp_normalized (expand_box pry prx b))).

(** [crop_evidence_region(pil_image, box_2d, padding_ratio_y, padding_ratio_x)]:
    a box that is empty or not of length 4 gives the image back. *)
Definition crop_evidence_region_with
    (pil_image : image) (box_2d : list Q) (padding_ratio_y padding_ratio_x : Q)
  : crop_result :=
  match box_2d with
  | [ymin_n; xmin_n; ymax_n; xmax_n] =>
      Cropped (crop_rect pil_image padding_ratio_y padding_ratio_x
                 (Box ymin_n xmin_n ymax_n xmax_n))
  | _ => Original
  end.

(** The call with the default ratios, [0.5] and [0.3]. *)
Definition crop_evidence_region (pil_image : image) (box_2d : list Q) : crop_result :=
  crop_evidence_region_with pil_image box_2d (1 # 2) (3 # 10).



End Utils.


(** ** Python strings *)

Module PyStr.

(** A [str]: its code points, in order. *)
Definition text : Type := list N.

Module Lit.
Import String.
(** The code points of an ASCII literal. *)
Definition lit (s : String.string) : text :=
  List.map Ascii.N_of_ascii (String.list_ascii_of_string s).
Definition FENCE : text := Eval cbv in lit "```".
Definition FENCE_JSON : text := Eval cbv in lit "```json".
Definition FENCE_PYTHON : text := Eval cbv in lit "```python".
Definition NULL : text := Eval cbv in lit "null".
Definition TRUE : text := Eval cbv in lit "true".
Definition FALSE : text := Eval cbv in lit "false".
Definition NAN : text := Eval cbv in lit "NaN".
Definition INFINITY : text := Eval cbv in lit "Infinity".
Definition NEG_INFINITY : text := Eval cbv in lit "-Infinity".
Definition BRACE_COMMA : text := Eval cbv in lit "},".
Definition IMAGE_INDEX : text := Eval cbv in lit "image_index".
Definition CATEGORY : text := Eval cbv in lit "category".
Definition STATUS : text := Eval cbv in lit "status".
Definition ITEM : text := Eval cbv in lit "item".
Definition EVIDENCE : text := Eval cbv in lit "evidence".
Definition TARGET : text := Eval cbv in lit "target".
Definition MESSAGE : text := Eval cbv in lit "message".
Definition BOX_2D : text := Eval cbv in lit "box_2d".
Definition WARNING : text := Eval cbv in lit "warning".
End Lit.
Export Lit.

Definition NEWLINE : N := 10.
Definition QUOTE : N := 34.
Definition PLUS : N := 43.
Definition COMMA : N := 44.
Definition MINUS : N := 45.
Definition DOT : N := 46.
Definition COLON : N := 58.
Definition LBRACKET : N := 91.
Definition BACKSLASH : N := 92.
Definition RBRACKET : N := 93.
Definition LBRACE : N := 123.
Definition RBRACE : N := 125.

Local Open Scope N_scope.

(** [str.isspace] of one character, which is also [\s] of a [str] pattern:
    the Unicode whitespace characters. *)
Definition is_space (c : N) : bool :=
  ((9 <=? c) && (c <=? 13)) || ((28 <=? c) && (c <=? 32)) ||
  (c =? 133) || (c =? 160) || (c =? 5760) ||
  ((8192 <=? c) && (c <=? 8202)) ||
  (c =? 8232) || (c =? 8233) || (c =? 8239) || (c =? 8287) || (c =? 12288).

(** [not s], of a string or a list *)
Definition is_empty (A : Type) (s : list A) : bool :=
  match s with [] => true | _ :: _ => false end.

Fixpoint text_eqb (a b : text) : bool :=
  match a, b with
  | [], [] => true
  | x :: a', y :: b' => (x =? y) && text_eqb a' b'
  | _, _ => false
  end.

Fixpoint lstrip (s : text) : text :=
  match s with
  | [] => []
  | c :: r => if is_space c then lstrip r else s
  end.

Definition rstrip (s : text) : text := rev (lstrip (rev s)).

Definition strip (s : text) : text := rstrip (lstrip s).

(** [s.startswith(p)] *)
Fixpoint startswith (s p : text) {struct p} : bool :=
  match p, s with
  | [], _ => true
  | a :: p', b :: s' => (a =? b) && startswith s' p'
  | _ :: _, [] => false
  end.

(** [s.endswith(p)] *)
Definition endswith (s p : text) : bool := startswith (rev s) (rev p).

(** [p in s] *)
Fixpoint contains (s p : text) : bool :=
  startswith s p || match s with [] => false | _ :: r => contains r p end.

(** [s.find(p)], [None] for -1 *)
Fixpoint find (s p : text) : option nat :=
  if startswith s p then Some 0%nat
  else match s with [] => None | _ :: r => option_map S (find r p) end.

(** [s.rfind(p)], [None] for -1 *)
Fixpoint rfind (s p : text) : option nat :=
  match s with
  | [] => if startswith [] p then Some 0%nat else None
  | _ :: r =>
      match rfind r p with
      | Some i => Some (S i)
      | None => if startswith s p then Some 0%nat else None
      end
  end.

(** [s.replace(old, new)] for a non-empty [old]: the occurrences found from
    the left, none overlapping another; [skip] counts the characters of the
    occurrence just replaced that are still to pass. *)
Fixpoint replace_from (old new : text) (skip : nat) (s : text) : text :=
  match s with
  | [] => []
  | c :: r =>
      match skip with
      | S k => replace_from old new k r
      | O =>
          if startswith s old
          then new ++ replace_from old new (length old - 1) r
          else c :: replace_from old new 0 r
      end
  end.

Definition replace (s old new : text) : text := replace_from old new 0 s.

(** [s.split(sep)] for a separator of one character *)
Fixpoint split (s : text) (sep : N) : list text :=
  match s with
  | [] => [[]]
  | c :: r =>
      if c =? sep then [] :: split r sep
      else match split r sep with
           | l :: ls => (c :: l) :: ls
           | [] => [[c]]
           end
  end.

(** [sep.join(l)] *)
Fixpoint join (sep : text) (l : list text) : text :=
  match l with
  | [] => []
  | [x] => x
  | x :: r => x ++ sep ++ join sep r
  end.

End PyStr.

(** ** The regular expressions of [src/ai_extractor.py] *)

Module Re.
Import PyStr.
Local Open Scope N_scope.

(** [\s*c] at the head of [s], for a [c] that is no whitespace: the number of
    characters matched. The greedy [\s*] has one way to match: every
    character it could give back is whitespace, and [c] is none. *)
Fixpoint spaces_then (c : N) (s : text) : option nat :=
  match s with
  | [] => None
  | d :: r =>
      if d =? c then Some 1%nat
      else if is_space d then option_map S (spaces_then c r)
      else None
  end.

(** [$] without [re.MULTILINE]: the end of the string, or just before a
    newline that ends it. *)
Definition at_end (s : text) : bool :=
  match s with
  | [] => true
  | [c] => c =? NEWLINE
  | _ => false
  end.

(** The patterns, each as the length of its match at the head of [s]. *)

(** [,\s*]] *)
Definition m_comma_bracket (s : text) : option nat :=
  match s with
  | c :: r => if c =? COMMA then option_map S (spaces_then RBRACKET r) else None
  | [] => None
  end.

(** [,\s*]$] *)
Definition m_comma_bracket_end (s : text) : option nat :=
  match m_comma_bracket s with
  | Some n => if at_end (skipn n s) then Some n else None
  | None => None
  end.

(** [}\s*,] *)
Definition m_brace_comma (s : text) : option nat :=
  match s with
  | c :: r => if c =? RBRACE then option_map S (spaces_then COMMA r) else None
  | [] => None
  end.

(** [,\s*$]: the greedy [\s*] must reach the end of the string; giving
    characters back never reaches the place before a final newline, which is
    whitespace itself. *)
Definition m_comma_end (s : text) : option nat :=
  match s with
  | c :: r => if (c =? COMMA) && forallb is_space r then Some (length s) else None
  | [] => None
  end.

(** [re.sub(pattern, repl, s)]: the matches found from the left, none
    overlapping another, each replaced by [repl]. *)
Fixpoint sub_from (m : text -> option nat) (repl : text) (skip : nat) (s : text) : text :=
  match s with
  | [] => []
  | c :: r =>
      match skip with
      | S k => sub_from m repl k r
      | O =>
          match m s with
          | Some (S n) => repl ++ sub_from m repl n r
          | _ => c :: sub_from m repl 0 r
          end
      end
  end.

Definition sub (m : text -> option nat) (repl : text) (s : text) : text :=
  sub_from m repl 0 s.

(** [m.start()] of each match of [re.finditer(pattern, s)], from the left. *)
Fixpoint finditer_from (m : text -> option nat) (skip pos : nat) (s : text) : list nat :=
  match s with
  | [] => []
  | c :: r =>
      match skip with
      | S k => finditer_from m k (S pos) r
      | O =>
          match m s with
          | Some (S n) => pos :: finditer_from m n (S pos) r
          | _ => finditer_from m 0 (S pos) r
          end
      end
  end.

Definition finditer (m : text -> option nat) (s : text) : list nat :=
  finditer_from m 0 0 s.

(** [re.search(pattern, s) is not None] *)
Fixpoint search (m : text -> option nat) (s : text) : bool :=
  match s with
  | [] => false
  | _ :: r => match m s with Some _ => true | None => search m r end
  end.

(** [re.sub(r",\s*]", "]", s)] *)
Definition sub_comma_bracket (s : text) : text := sub m_comma_bracket [RBRACKET] s.

(** [re.sub(r",\s*]$", "]", s)] *)
Definition sub_comma_bracket_end (s : text) : text := sub m_comma_bracket_end [RBRACKET] s.

(** [re.sub(r",\s*$", "", s)] *)
Definition sub_comma_end (s : text) : text := sub m_comma_end [] s.

(** [re.sub(r"^.*?\[", "[", s, count=1, flags=re.DOTALL)]: what stands
    before the first bracket goes. *)
Definition sub_to_first_bracket (s : text) : text :=
  match find s [LBRACKET] with
  | Some i => skipn i s
  | None => s
  end.

(** [re.search(r"^\s*\[\s*\{", s)] *)
Definition search_array_of_object (s : text) : bool :=
  match spaces_then LBRACKET s with
  | Some n => match spaces_then LBRACE (skipn n s) with Some _ => true | None => false end
  | None => false
  end.

End Re.

(** ** Python values and the [json] module

    [json] is Python's standard library, not code of the repository; the
    decoder below follows its grammar: the JSON grammar with the four JSON
    whitespace characters, strict strings (no raw control character),
    integers of any size, and the constants [NaN], [Infinity] and
    [-Infinity]. A float literal is read as [float] reads it: the binary64
    number nearest to its decimal value. *)

Module Json.
Import PyStr.
Local Open Scope N_scope.

(** A [float]: [nan], an infinity, or the number it stands for. *)
Inductive pyfloat : Type :=
| FNan : pyfloat
| FInf (negative : bool) : pyfloat
| FFin (q : Q) : pyfloat.

(** The values [json.loads] builds; a [dict] keeps its keys in insertion
    order. *)
#[local] Unset Elimination Schemes.
Inductive pyval : Type :=
| PNone : pyval
| PBool (b : bool) : pyval
| PInt (z : Z) : pyval
| PFloat (f : pyfloat) : pyval
| PStr (s : text) : pyval
| PList (l : list pyval) : pyval
| PDict (d : list (text * pyval)) : pyval.
#[local] Set Elimination Schemes.

(** [d.get(k)], [None] when the key is absent *)
Fixpoint dict_get (d : list (text * pyval)) (k : text) : option pyval :=
  match d with
  | [] => None
  | (k', v) :: r => if text_eqb k' k then Some v else dict_get r k
  end.

(** [d[k] = v]: a key already there keeps its place. *)
Fixpoint dict_set (d : list (text * pyval)) (k : text) (v : pyval) : list (text * pyval) :=
  match d with
  | [] => [(k, v)]
  | (k', v') :: r =>
      if text_eqb k' k then (k', v) :: r else (k', v') :: dict_set r k v
  end.

(** [dict(pairs)] *)
Definition dict_of_pairs (pairs : list (text * pyval)) : list (text * pyval) :=
  fold_left (fun d kv => dict_set d (fst kv) (snd kv)) pairs [].

(** The outcome of a scan: a value and the text after it, a syntax error,
    or the recursion budget of the model used up. *)
Inductive parsed (A : Type) : Type :=
| Parsed (a : A) (rest : text) : parsed A
| Invalid : parsed A
| OutOfFuel : parsed A.
Arguments Invalid {A}.
Arguments OutOfFuel {A}.

Definition is_json_ws (c : N) : bool :=
  (c =? 32) || (c =? 9) || (c =? 10) || (c =? 13).

Fixpoint skip_ws (s : text) : text :=
  match s with
  | [] => []
  | c :: r => if is_json_ws c then skip_ws r else s
  end.

(** *** Strings *)

Definition hexval (c : N) : option N :=
  if (48 <=? c) && (c <=? 57) then Some (c - 48)
  else if (97 <=? c) && (c <=? 102) then Some (c - 87)
  else if (65 <=? c) && (c <=? 70) then Some (c - 55)
  else None.

(** The four hexadecimal digits of a [\uXXXX] escape. *)
Definition decode_u4 (s : text) : option N :=
  match s with
  | a :: b :: c :: d :: _ =>
      match hexval a, hexval b, hexval c, hexval d with
      | Some x, Some y, Some z, Some w => Some (((x * 16 + y) * 16 + z) * 16 + w)
      | _, _, _, _ => None
      end
  | _ => None
  end.

Definition is_high_surrogate (c : N) : bool := (55296 <=? c) && (c <=? 56319).
Definition is_low_surrogate (c : N) : bool := (56320 <=? c) && (c <=? 57343).
(** [0x10000 + (((hi - 0xd800) << 10) | (lo - 0xdc00))], the low part
    being below [2 ** 10] *)
Definition join_surrogates (hi lo : N) : N :=
  65536 + (hi - 55296) * 1024 + (lo - 56320).

(** The character after a backslash. *)
Definition simple_escape (e : N) : option N :=
  if e =? QUOTE then Some QUOTE
  else if e =? BACKSLASH then Some BACKSLASH
  else if e =? 47 then Some 47
  else if e =? 98 then Some 8
  else if e =? 102 then Some 12
  else if e =? 110 then Some 10
  else if e =? 114 then Some 13
  else if e =? 116 then Some 9
  else None.

(** An escape, read from the character after the backslash: the character
    it stands for and how many characters it takes. *)
Definition scan_escape (r : text) : option (N * nat) :=
  match r with
  | [] => None
  | e :: r1 =>
      if e =? 117 then
        match decode_u4 r1 with
        | None => None
        | Some uni =>
            if is_high_surrogate uni && startswith (skipn 4 r1) [BACKSLASH; 117] then
              match decode_u4 (skipn 6 r1) with
              | None => None
              | Some uni2 =>
                  if is_low_surrogate uni2
                  then Some (join_surrogates uni uni2, 11%nat)
                  else Some (uni, 5%nat)
              end
            else Some (uni, 5%nat)
        end
      else
        match simple_escape e with
        | Some ch => Some (ch, 1%nat)
        | None => None
        end
  end.

(** [scanstring], from the character after the opening quote: the string
    and the text after its closing quote. [skip] counts the characters of
    the escape just read that are still to pass. *)
Fixpoint scanstring_from (skip : nat) (s : text) : option (text * text) :=
  match s with
  | [] => None
  | c :: r =>
      match skip with
      | S k => scanstring_from k r
      | O =>
          if c =? QUOTE then Some ([], r)
          else if c =? BACKSLASH then
            match scan_escape r with
            | Some (ch, n) =>
                match scanstring_from n r with
                | Some (str, rest) => Some (ch :: str, rest)
                | None => None
                end
            | None => None
            end
          else if c <? 32 then None
          else
            match scanstring_from 0 r with
            | Some (str, rest) => Some (c :: str, rest)
            | None => None
            end
      end
  end.

Definition scanstring (s : text) : option (text * text) := scanstring_from 0 s.

(** *** Numbers *)

Definition is_digit (c : N) : bool := (48 <=? c) && (c <=? 57).

Definition digit_of (c : N) (d : Decimal.uint) : Decimal.uint :=
  match c - 48 with
  | 0 => Decimal.D0 d
  | 1 => Decimal.D1 d
  | 2 => Decimal.D2 d
  | 3 => Decimal.D3 d
  | 4 => Decimal.D4 d
  | 5 => Decimal.D5 d
  | 6 => Decimal.D6 d
  | 7 => Decimal.D7 d
  | 8 => Decimal.D8 d
  | _ => Decimal.D9 d
  end.

(** The longest run of digits at the head of [s], and the text after it. *)
Fixpoint read_digits (s : text) : Decimal.uint * text :=
  match s with
  | [] => (Decimal.Nil, [])
  | c :: r =>
      if is_digit c
      then let (d, rest) := read_digits r in (digit_of c d, rest)
      else (Decimal.Nil, s)
  end.

Definition signed (negative : bool) (n : N) : Z :=
  if negative then (- Z.of_N n)%Z else Z.of_N n.

(** The exact value of the literal [int.frac e exp]. *)
Definition dec_value (negative : bool) (int frac : Decimal.uint)
    (exp : option (bool * Decimal.uint)) : Q :=
  let mant := signed negative (N.of_uint (Decimal.app int frac)) in
  let e := (match exp with
            | Some (neg_e, ed) => signed neg_e (N.of_uint ed)
            | None => 0
            end - Z.of_nat (Decimal.nb_digits frac))%Z in
  Qred (if (0 <=? e)%Z
        then inject_Z (mant * 10 ^ e)
        else Qmake mant (Z.to_pos (10 ^ (- e)))).

(** [float(literal)]: the nearest binary64 number, an infinity from
    [2 ** 1024 - 2 ** 970] on. *)
Definition to_float (negative : bool) (q : Q) : pyfloat :=
  match PyNum.round_to_double q with
  | Some r => FFin r
  | None => FInf negative
  end.

(** A number at the head of [s]: an optional minus sign; the integer part,
    a lone 0 or a run of digits that does not start with 0; an optional
    fraction, a dot and at least one digit; an optional exponent, e or E, an
    optional sign and at least one digit. It is an [int] when it has neither
    fraction nor exponent. *)
Definition scan_number (s : text) : option (pyval * text) :=
  let (negative, s1) :=
    match s with
    | c :: r => if c =? MINUS then (true, r) else (false, s)
    | [] => (false, s)
    end in
  match s1 with
  | [] => None
  | c :: r =>
      if is_digit c then
        let (int, s2) := if c =? 48 then (Decimal.D0 Decimal.Nil, r) else read_digits s1 in
        let (frac, s3) :=
          match s2 with
          | p :: ((q :: _) as r2) =>
              if (p =? DOT) && is_digit q
              then let (fd, rest) := read_digits r2 in (Some fd, rest)
              else (None, s2)
          | _ => (None, s2)
          end in
        let (exp, s4) :=
          match s3 with
          | e :: r3 =>
              if (e =? 101) || (e =? 69) then
                let (neg_e, r4) :=
                  match r3 with
                  | sg :: r' =>
                      if sg =? MINUS then (true, r')
                      else if sg =? PLUS then (false, r')
                      else (false, r3)
                  | [] => (false, r3)
                  end in
                match read_digits r4 with
                | (Decimal.Nil, _) => (None, s3)
                | (ed, rest) => (Some (neg_e, ed), rest)
                end
              else (None, s3)
          | [] => (None, s3)
          end in
        match frac, exp with
        | None, None => Some (PInt (signed negative (N.of_uint int)), s4)
        | _, _ =>
            Some (PFloat (to_float negative
                            (dec_value negative int
                               (match frac with Some fd => fd | None => Decimal.Nil end)
                               exp)), s4)
        end
      else None
  end.

(** *** Values *)

Definition lift_parsed {A B : Type} (f : A -> B) (p : parsed A) : parsed B :=
  match p with
  | Parsed a rest => Parsed (f a) rest
  | Invalid => Invalid
  | OutOfFuel => OutOfFuel
  end.

(** [parse_value]: one value at the head of [s]. [parse_elements]: the
    elements of an array, from the first one to the closing bracket.
    [parse_members]: the members of an object, from the character after the
    opening quote of the first key to the closing brace. *)
Fixpoint parse_value (fuel : nat) (s : text) {struct fuel} : parsed pyval :=
  match fuel with
  | O => OutOfFuel
  | S f =>
      match s with
      | [] => Invalid
      | c :: r =>
          if c =? QUOTE then
            match scanstring r with
            | Some (str, rest) => Parsed (PStr str) rest
            | None => Invalid
            end
          else if c =? LBRACE then
            match skip_ws r with
            | d :: r1 =>
                if d =? RBRACE then Parsed (PDict []) r1
                else if d =? QUOTE
                then lift_parsed (fun ps => PDict (dict_of_pairs ps)) (parse_members f r1)
                else Invalid
            | [] => Invalid
            end
          else if c =? LBRACKET then
            match skip_ws r with
            | d :: r1 =>
                if d =? RBRACKET then Parsed (PList []) r1
                else lift_parsed PList (parse_elements f (d :: r1))
            | [] => Invalid
            end
          else if startswith s NULL then Parsed PNone (skipn 4 s)
          else if startswith s TRUE then Parsed (PBool true) (skipn 4 s)
          else if startswith s FALSE then Parsed (PBool false) (skipn 5 s)
          else
            match scan_number s with
            | Some (v, rest) => Parsed v rest
            | None =>
                if startswith s NAN then Parsed (PFloat FNan) (skipn 3 s)
                else if startswith s INFINITY then Parsed (PFloat (FInf false)) (skipn 8 s)
                else if startswith s NEG_INFINITY then Parsed (PFloat (FInf true)) (skipn 9 s)
                else Invalid
            end
      end
  end

with parse_elements (fuel : nat) (s : text) {struct fuel} : parsed (list pyval) :=
  match fuel with
  | O => OutOfFuel
  | S f =>
      match parse_value f s with
      | Parsed v r =>
          match skip_ws r with
          | d :: r1 =>
              if d =? RBRACKET then Parsed [v] r1
              else if d =? COMMA
              then lift_parsed (cons v) (parse_elements f (skip_ws r1))
              else Invalid
          | [] => Invalid
          end
      | Invalid => Invalid
      | OutOfFuel => OutOfFuel
      end
  end

with parse_members (fuel : nat) (s : text) {struct fuel} : parsed (list (text * pyval)) :=
  match fuel with
  | O => OutOfFuel
  | S f =>
      match scanstring s with
      | None => Invalid
      | Some (key, r) =>
          match skip_ws r with
          | c :: r1 =>
              if c =? COLON then
                match parse_value f (skip_ws r1) with
                | Parsed v r2 =>
                    match skip_ws r2 with
                    | d :: r3 =>
                        if d =? RBRACE then Parsed [(key, v)] r3
                        else if d =? COMMA then
                          match skip_ws r3 with
                          | q :: r4 =>
                              if q =? QUOTE
                              then lift_parsed (cons (key, v)) (parse_members f r4)
                              else Invalid
                          | [] => Invalid
                          end
                        else Invalid
                    | [] => Invalid
                    end
                | Invalid => Invalid
                | OutOfFuel => OutOfFuel
                end
              else Invalid
          | [] => Invalid
          end
      end
  end.

(** The recursion budget that is always enough: see [loads_fuel_enough]. *)
Definition fuel_for (s : text) : nat := (2 * length s + 1)%nat.

(** [json.loads(s)]: [None] stands for [json.JSONDecodeError]. *)
Definition loads (s : text) : option pyval :=
  match parse_value (fuel_for s) (skip_ws s) with
  | Parsed v rest =>
      match skip_ws rest with
      | [] => Some v
      | _ :: _ => None
      end
  | Invalid => None
  | OutOfFuel => None
  end.

Definition is_list (v : option pyval) : bool :=
  match v with
  | Some (PList _) => true
  | _ => false
  end.

End Json.

(** ** Exceptions *)

Module Exn.
Import PyStr.

Inductive exn : Type :=
| ValueError : exn
| TypeError : exn
| AttributeError : exn
| OverflowError : exn
| RecursionError : exn
| JSONDecodeError : exn
| SafetyBlockError : exn
| JSONParseError (raw_response : text) : exn.

(** What a call gives: the value it returns or the exception it raises. *)
Inductive result (A : Type) : Type :=
| Ok (a : A) : result A
| Raise (e : exn) : result A.
Arguments Raise {A}.

Definition bind {A B : Type} (r : result A) (k : A -> result B) : result B :=
  match r with
  | Ok a => k a
  | Raise e => Raise e
  end.

(** A loop or comprehension over a list whose body can raise. *)
Fixpoint map_m {A B : Type} (f : A -> result B) (l : list A) : result (list B) :=
  match l with
  | [] => Ok []
  | x :: r => bind (f x) (fun y => bind (map_m f r) (fun ys => Ok (y :: ys)))
  end.

Fixpoint filter_m {A : Type} (f : A -> result bool) (l : list A) : result (list A) :=
  match l with
  | [] => Ok []
  | x :: r =>
      bind (f x) (fun keep =>
      bind (filter_m f r) (fun ys => Ok (if keep then x :: ys else ys)))
  end.

End Exn.

(** ** [src/ai_extractor.py] *)

Module AiExtractor.
Import PyStr Json Exn.
Local Open Scope N_scope.

(** Lines 49-57: the candidates, from the last match of [}\s*,] back; the
    first that [json.loads] reads as a list is returned. *)
Fixpoint first_candidate (text : PyStr.text) (starts : list nat) : option PyStr.text :=
  match starts with
  | [] => None
  | m_start :: rest =>
      let candidate := firstn (m_start + 1) text ++ [RBRACKET] in
      let candidate := Re.sub_comma_bracket candidate in
      if is_list (loads candidate) then Some candidate
      else first_candidate text rest
  end.

Definition _rescue_incomplete_json_array (text : PyStr.text) : option PyStr.text :=
  if is_empty text || negb (contains text [LBRACKET]) then None
  else
    let start := match find text [LBRACKET] with Some i => i | None => 0%nat end in
    let text := rstrip (skipn start text) in
    let text := Re.sub_comma_bracket_end text in
    if endswith text [RBRACKET] then Some text
    else
      match first_candidate text (rev (Re.finditer Re.m_brace_comma text)) with
      | Some candidate => Some candidate
      | None =>
          if Re.search_array_of_object text then
            let single := Re.sub_comma_end text ++ [RBRACKET] in
            if is_list (loads single) then Some single else None
          else None
      end.

(** A line that is nothing but a fence marker. *)
Definition is_fence_line (stripped : text) : bool :=
  text_eqb stripped FENCE || text_eqb stripped FENCE_JSON
  || text_eqb stripped FENCE_PYTHON.

(** Lines 621-624, and 828-835 again: the markdown fences go. The argument
    is already stripped. *)
Definition remove_fences (cleaned_text : text) : text :=
  let cleaned_text := strip (replace (replace cleaned_text FENCE_JSON []) FENCE []) in
  let lines := split cleaned_text NEWLINE in
  let cleaned_lines := filter (fun line => negb (is_fence_line (strip line))) lines in
  strip (join [NEWLINE] cleaned_lines).

(** Lines 625-627, and 838-840 again. *)
Definition from_first_bracket (cleaned_text : text) : text :=
  let cleaned_text :=
    if contains cleaned_text [LBRACKET]
    then Re.sub_to_first_bracket cleaned_text
    else cleaned_text in
  rstrip cleaned_text.

(** [text_before_rescue and not text_before_rescue.endswith("]")] *)
Definition needs_rescue (text_before_rescue : text) : bool :=
  negb (is_empty text_before_rescue) && negb (endswith text_before_rescue [RBRACKET]).

(** Lines 628-633, and 843-848 again: the text handed to [json.loads]. *)
Definition repaired_text (text_before_rescue : text) : text :=
  let cleaned_text :=
    if needs_rescue text_before_rescue then
      match _rescue_incomplete_json_array text_before_rescue with
      | Some repaired => repaired
      | None => text_before_rescue ++ [RBRACKET]
      end
    else text_before_rescue in
  Re.sub_comma_bracket cleaned_text.

Definition _parse_issues_json (response_text : text) : result (list pyval) :=
  let cleaned_text := remove_fences (strip response_text) in
  let text_before_rescue := from_first_bracket cleaned_text in
  let cleaned_text := repaired_text text_before_rescue in
  match loads cleaned_text with
  | Some (PList issues) => Ok issues
  | Some _ => Ok []
  | None =>
      let retry :=
        if needs_rescue text_before_rescue then
          match _rescue_incomplete_json_array text_before_rescue with
          | Some repaired =>
              if is_empty repaired then None
              else match loads repaired with
                   | Some (PList issues) => Some issues
                   | _ => None
                   end
          | None => None
          end
        else None in
      match retry with
      | Some issues => Ok issues
      | None => Raise (JSONParseError response_text)
      end
  end.

(** *** The two calls of the model *)

(** [finish_reason] of a candidate. *)
Inductive finish_reason : Type :=
| FINISH_REASON_UNSPECIFIED | STOP | MAX_TOKENS | SAFETY | RECITATION | OTHER.

(** What [generate_content] returned: the candidates, each with its
    [finish_reason] if it has one, and [response.text]. *)
Record response : Type := Response {
  candidates : list (option finish_reason);
  resp_text : text
}.

(** [reason_ok]: the name of the finish reason holds "STOP". *)
Definition reason_ok (r : option finish_reason) : bool :=
  match r with
  | Some STOP => true
  | _ => false
  end.

(** Lines 685-697, on the response of the form-check call. *)
Definition _run_form_check (response : AiExtractor.response) : result (list pyval) :=
  match candidates response with
  | [] => Raise SafetyBlockError
  | c0 :: _ =>
      if negb (reason_ok c0) then Raise SafetyBlockError
      else
        let response_text := strip (resp_text response) in
        if is_empty response_text then Ok []
        else _parse_issues_json response_text
  end.

Definition GATING_1 : text := [28155; 20184; 36039; 26009; 19981; 36275].
Definition GATING_2 : text := [36039; 26009; 19981; 36275].
Definition FORM_CHECK : text := [12501; 12457; 12540; 12512; 12481; 12455; 12483; 12463].
Definition RUN_ERROR : text := [23455; 34892; 12456; 12521; 12540].
Definition FORM_FAILED : text :=
  [12501; 12457; 12540; 12512; 35352; 36617; 12481; 12455; 12483; 12463; 12398;
   23455; 34892; 12395; 22833; 25943; 12375; 12414; 12375; 12383; 12290; 29031;
   21512; 32080; 26524; 12398; 12415; 34920; 31034; 12375; 12390; 12356; 12414;
   12377; 12290].

(** Lines 754-763: the finding that stands for a failed form check. *)
Definition form_failed_issue : pyval :=
  PDict [(CATEGORY, PStr FORM_CHECK); (STATUS, PStr WARNING); (ITEM, PStr RUN_ERROR);
         (EVIDENCE, PStr []); (TARGET, PStr []); (MESSAGE, PStr FORM_FAILED);
         (BOX_2D, PNone); (IMAGE_INDEX, PNone)].

(** [issue.get(key)]: only a [dict] has the method. *)
Definition py_get (issue : pyval) (key : text) : result pyval :=
  match issue with
  | PDict d => Ok (match dict_get d key with Some v => v | None => PNone end)
  | _ => Raise AttributeError
  end.

(** Lines 749-751, for one issue of the form check: an index that is an
    [int] (a [bool] is one) or a [float] becomes [int(idx) + ref_count]. *)
Definition shift_image_index (ref_count : Z) (issue : pyval) : result pyval :=
  match issue with
  | PDict d =>
      let set (i : Z) : result pyval :=
        Ok (PDict (dict_set d IMAGE_INDEX (PInt (i + ref_count)))) in
      match dict_get d IMAGE_INDEX with
      | Some (PInt i) => set i
      | Some (PBool b) => set (if b then 1 else 0)%Z
      | Some (PFloat (FFin q)) => set (PyNum.py_int q)
      | Some (PFloat FNan) => Raise ValueError
      | Some (PFloat (FInf _)) => Raise OverflowError
      | _ => Ok issue
      end
  | _ => Raise AttributeError
  end.

(** Lines 743-763: the form-check stage. *)
Definition form_stage (ref_count : Z) (form_response : response) : result (list pyval) :=
  match _run_form_check form_response with
  | Ok form_issues => map_m (shift_image_index ref_count) form_issues
  | Raise SafetyBlockError => Ok [form_failed_issue]
  | Raise (JSONParseError _) => Ok [form_failed_issue]
  | Raise e => Raise e
  end.

(** Lines 872-889: the last fallback, a cut at the last ["},"]. *)
Definition rfind_fallback (cleaned_text response_text : text) : result (list pyval) :=
  match rfind cleaned_text BRACE_COMMA with
  | Some last_brace_comma =>
      let truncated := firstn (last_brace_comma + 1) cleaned_text ++ [RBRACKET] in
      let truncated := Re.sub_comma_bracket truncated in
      match loads truncated with
      | Some (PList issues) => Ok issues
      | Some _ => Ok []
      | None => Raise (JSONParseError response_text)
      end
  | None => Raise (JSONParseError response_text)
  end.

(** Lines 826-889: the issues of the cross-reference response; [None] where
    the source returns [form_issues] at once. *)
Definition cross_issues (response_text : text) : result (option (list pyval)) :=
  let cleaned_text := remove_fences response_text in
  let text_before_rescue := from_first_bracket cleaned_text in
  let cleaned_text := repaired_text text_before_rescue in
  match loads cleaned_text with
  | Some (PList issues) => Ok (Some issues)
  | Some _ => Ok None
  | None =>
      let retry : option (list pyval) :=
        if needs_rescue text_before_rescue then
          match _rescue_incomplete_json_array text_before_rescue with
          | Some repaired =>
              if is_empty repaired then None
              else match loads repaired with
                   | Some (PList issues) => Some issues
                   | Some _ => Some []
                   | None => None
                   end
          | None => None
          end
        else None in
      match retry with
      | Some issues => Ok (Some issues)
      | None => bind (rfind_fallback cleaned_text response_text) (fun issues => Ok (Some issues))
      end
  end.

(** [i.get("category") in ("添付資料不足", "資料不足")] *)
Definition is_gating (i : pyval) : result bool :=
  bind (py_get i CATEGORY) (fun c =>
  Ok (match c with
      | PStr s => text_eqb s GATING_1 || text_eqb s GATING_2
      | _ => false
      end)).

(** A finding as [json.loads] gives it: a [dict]. *)
Definition is_dict (v : pyval) : bool :=
  match v with
  | PDict _ => true
  | _ => false
  end.

(** The category test as a predicate on findings: the category is one of
    the two gating names. *)
Definition gating (i : pyval) : bool :=
  match i with
  | PDict d =>
      match dict_get d CATEGORY with
      | Some (PStr s) => text_eqb s GATING_1 || text_eqb s GATING_2
      | _ => false
      end
  | _ => false
  end.

(** Lines 892-894. *)
Definition merge_issues (issues form_issues : list pyval) : result (list pyval) :=
  bind (filter_m is_gating issues) (fun attachment_items =>
  bind (filter_m (fun i => bind (is_gating i) (fun g => Ok (negb g))) issues) (fun other_items =>
  Ok (attachment_items ++ form_issues ++ other_items))).

(** Lines 806-894: the cross-reference stage and the merge. *)
Definition cross_stage (form_issues : list pyval) (cross_response : response)
  : result (list pyval) :=
  match candidates cross_response with
  | [] => Raise SafetyBlockError
  | c0 :: _ =>
      if negb (reason_ok c0) then Raise SafetyBlockError
      else
        let response_text := strip (resp_text cross_response) in
        if is_empty response_text then Ok form_issues
        else
          bind (cross_issues response_text) (fun issues =>
          match issues with
          | None => Ok form_issues
          | Some issues => merge_issues issues form_issues
          end)
  end.

(** [verify_disclosure_against_evidence], with the responses of its two
    calls of the model. *)
Definition verify_disclosure_against_evidence
    (api_key : text) (reference_images target_images : list Utils.image)
    (form_response cross_response : response) : result (list pyval) :=
  if is_empty (strip api_key) then Raise ValueError
  else if is_empty reference_images then Raise ValueError
  else if is_empty target_images then Raise ValueError
  else
    bind (form_stage (Z.of_nat (length reference_images)) form_response) (fun form_issues =>
    cross_stage form_issues cross_response).

End AiExtractor.

(** ** [app.py] *)

Module App.
Import PyStr Json Exn.

(** [float(n)] of an [int] raises [OverflowError] from this magnitude on:
    the integers that round to [2 ** 1024] or beyond. *)
Definition FLOAT_INT_LIMIT : Z := (2 ^ 1024 - 2 ^ 970)%Z.

Section Normalize.

(** [float(s)] of a string, a builtin the model leaves open: the float it
    reads, or [None] where it raises [ValueError]. *)
Variable float_of_str : text -> option pyfloat.

(** [float(x)] *)
Definition py_float (x : pyval) : result pyfloat :=
  match x with
  | PFloat f => Ok f
  | PInt z =>
      if (Z.abs z <? FLOAT_INT_LIMIT)%Z then Ok (FFin (inject_Z z))
      else Raise OverflowError
  | PBool b => Ok (FFin (if b then 1 else 0))
  | PStr s =>
      match float_of_str s with
      | Some f => Ok f
      | None => Raise ValueError
      end
  | PNone => Raise TypeError
  | PList _ => Raise TypeError
  | PDict _ => Raise TypeError
  end.

Definition _normalize_box_2d (box_2d : pyval) : result (option (list pyfloat)) :=
  match box_2d with
  | PNone => Ok None
  | _ =>
      let decoded : option pyval :=
        match box_2d with
        | PStr s => loads (strip s)
        | _ => Some box_2d
        end in
      match decoded with
      | None => Ok None
      | Some (PList l) =>
          if Nat.eqb (length l) 4 then
            match map_m py_float l with
            | Ok floats => Ok (Some floats)
            | Raise TypeError => Ok None
            | Raise ValueError => Ok None
            | Raise e => Raise e
            end
          else Ok None
      | Some _ => Ok None
      end
  end.

End Normalize.

End App.

(** ** [app.py]: which image a finding is shown with

    Lines 203-248 of the display loop, for one finding: the reads of the
    finding, the index as an [int], the guard on the index and the lookup in
    [all_images]. What Streamlit draws is outside the model. *)

Module AppView.
Import PyStr Json Exn.

(** What the loop does for the image column of one finding. *)
Inductive view : Type :=
| NoImage : view
| SourceImage (source_img : Utils.image) (box_2d : option (list pyfloat)) : view.

(** A step of the loop: it goes on with a value, raises one of the
    exceptions of [exn], or raises [IndexError]. *)
Inductive outcome (A : Type) : Type :=
| Returns (a : A) : outcome A
| Raises (e : exn) : outcome A
| RaisesIndexError : outcome A.
Arguments Raises {A}.
Arguments RaisesIndexError {A}.

Definition of_result {A : Type} (r : result A) : outcome A :=
  match r with
  | Ok a => Returns a
  | Raise e => Raises e
  end.

Definition and_then {A B : Type} (o : outcome A) (k : A -> outcome B) : outcome B :=
  match o with
  | Returns a => k a
  | Raises e => Raises e
  | RaisesIndexError => RaisesIndexError
  end.

(** [l[i]] for a list: a negative index counts from the end. *)
Definition py_getitem {A : Type} (l : list A) (i : Z) : outcome A :=
  let n := Z.of_nat (length l) in
  let j := if (i <? 0)%Z then (i + n)%Z else i in
  if ((0 <=? j) && (j <? n))%Z then
    match nth_error l (Z.to_nat j) with
    | Some a => Returns a
    | None => RaisesIndexError
    end
  else RaisesIndexError.

(** Lines 214-216: [if isinstance(image_index, (int, float)): image_index =
    int(image_index)]. *)
Definition int_of_index (image_index : pyval) : result pyval :=
  match image_index with
  | PInt i => Ok (PInt i)
  | PBool b => Ok (PInt (if b then 1 else 0))
  | PFloat (FFin q) => Ok (PInt (PyNum.py_int q))
  | PFloat FNan => Raise ValueError
  | PFloat (FInf _) => Raise OverflowError
  | other => Ok other
  end.

(** Line 238: [image_index is None or not (0 <= image_index < len(all_images))];
    an [int] does not compare with a [str], a [list] or a [dict], and every
    comparison with [nan] is false. *)
Definition index_missing (image_index : pyval) (n : nat) : result bool :=
  match image_index with
  | PNone => Ok true
  | PInt i => Ok (negb ((0 <=? i) && (i <? Z.of_nat n))%Z)
  | PBool b => Ok (negb ((if b then 1 else 0) <? Z.of_nat n)%Z)
  | PFloat (FFin q) =>
      Ok (negb (Qle_bool 0 q && negb (Qle_bool (inject_Z (Z.of_nat n)) q)))
  | PFloat _ => Ok true
  | PStr _ => Raise TypeError
  | PList _ => Raise TypeError
  | PDict _ => Raise TypeError
  end.

(** *** The two counters and the icon *)

Definition ERROR : text := [101; 114; 114; 111; 114]%N.
Definition SUGGESTION : text := [115; 117; 103; 103; 101; 115; 116; 105; 111; 110]%N.

(** [issue.get("status") in names] *)
Definition status_in (names : list text) (issue : pyval) : result bool :=
  bind (AiExtractor.py_get issue STATUS) (fun status =>
  Ok (match status with
      | PStr s => existsb (text_eqb s) names
      | _ => false
      end)).

(** [sum(1 for issue in issues if cond(issue))] *)
Fixpoint count_if (cond : pyval -> result bool) (issues : list pyval) : result nat :=
  match issues with
  | [] => Ok 0%nat
  | issue :: rest =>
      bind (cond issue) (fun c =>
      bind (count_if cond rest) (fun n => Ok (if c then S n else n)))
  end.

(** Lines 195-196. *)
Definition error_count (issues : list pyval) : result nat :=
  count_if (status_in [ERROR]) issues.

Definition warn_count (issues : list pyval) : result nat :=
  count_if (status_in [WARNING; SUGGESTION]) issues.

Inductive icon : Type := Red | Blue | Orange.

(** Lines 207 and 218-226: [status = issue.get("status", "warning")], then
    the icon by the status. *)
Definition issue_icon (issue : pyval) : result icon :=
  match issue with
  | PDict d =>
      let status := match dict_get d STATUS with Some v => v | None => PStr WARNING end in
      Ok (match status with
          | PStr s =>
              if text_eqb s ERROR then Red
              else if text_eqb s SUGGESTION then Blue
              else Orange
          | _ => Orange
          end)
  | _ => Raise AttributeError
  end.

Definition is_red (i : icon) : bool := match i with Red => true | _ => false end.
Definition is_blue (i : icon) : bool := match i with Blue => true | _ => false end.

Section View.

Variable float_of_str : text -> option pyfloat.

(** The image column of one finding. *)
Definition issue_view (issue : pyval) (all_images : list Utils.image) : outcome view :=
  and_then (of_result (AiExtractor.py_get issue CATEGORY)) (fun _ =>
  and_then (of_result (AiExtractor.py_get issue BOX_2D)) (fun box_2d_raw =>
  and_then (of_result (App._normalize_box_2d float_of_str box_2d_raw)) (fun box_2d =>
  and_then (of_result (AiExtractor.py_get issue IMAGE_INDEX)) (fun image_index =>
  and_then (of_result (int_of_index image_index)) (fun image_index =>
  and_then (of_result (index_missing image_index (length all_images))) (fun missing =>
  if missing then Returns NoImage
  else
    match image_index with
    | PInt i =>
        and_then (py_getitem all_images i) (fun source_img =>
        Returns (SourceImage source_img box_2d))
    | PBool b =>
        and_then (py_getitem all_images (if b then 1 else 0)) (fun source_img =>
        Returns (SourceImage source_img box_2d))
    | _ => Raises TypeError
    end)))))).

End View.

End AppView.

(** ** The decoder and its callers under the limits of the interpreter

    [json.loads] of CPython leaves in two more ways than with a
    [json.JSONDecodeError]:
    - an integer literal of more than 4300 digits (the default of
      [sys.get_int_max_str_digits()], which the repository does not change)
      makes [int] raise a plain [ValueError], at the moment the scanner has
      read the literal;
    - an array or an object opened deeper than the recursion limit of the
      interpreter leaves room for raises [RecursionError], at the moment the
      scanner meets its opening character.

    The modules above follow the grammar alone; this one adds the two limits
    and writes the callers of [json.loads] once more, each [except] clause
    catching what the source names: [json.JSONDecodeError] is a subclass of
    [ValueError], [RecursionError] is neither. How deep a value may nest
    depends on the call stack: it is a parameter of every call. *)

Module Runtime.
Import PyStr Json Exn AiExtractor.
Local Open Scope N_scope.

Definition INT_MAX_STR_DIGITS : nat := 4300.

(** The outcome of a scan: a value and the text after it, a syntax error,
    an integer literal past the digit limit, a nesting past the depth limit,
    or the recursion budget of the model used up. *)
Inductive scanned (A : Type) : Type :=
| Read (a : A) (rest : text) : scanned A
| BadSyntax : scanned A
| TooManyDigits : scanned A
| TooDeep : scanned A
| NoFuel : scanned A.
Arguments BadSyntax {A}.
Arguments TooManyDigits {A}.
Arguments TooDeep {A}.
Arguments NoFuel {A}.

Definition lift_scanned {A B : Type} (f : A -> B) (p : scanned A) : scanned B :=
  match p with
  | Read a rest => Read (f a) rest
  | BadSyntax => BadSyntax
  | TooManyDigits => TooManyDigits
  | TooDeep => TooDeep
  | NoFuel => NoFuel
  end.

(** The digits of the integer literal at the head of [s] that ends where
    [rest] starts: the sign is not one. *)
Definition literal_digits (s rest : text) : nat :=
  let consumed := (length s - length rest)%nat in
  match s with
  | c :: _ => if c =? MINUS then (consumed - 1)%nat else consumed
  | [] => consumed
  end.

(** A number at the head of [s]: [int] refuses a literal of more than
    [INT_MAX_STR_DIGITS] digits, [float] takes any. *)
Definition scan_number (s : text) : option (scanned pyval) :=
  match Json.scan_number s with
  | Some (PInt z, rest) =>
      if (INT_MAX_STR_DIGITS <? literal_digits s rest)%nat
      then Some TooManyDigits
      else Some (Read (PInt z) rest)
  | Some (v, rest) => Some (Read v rest)
  | None => None
  end.

(** [parse_value], [parse_elements] and [parse_members] of [Json], with
    [depth] arrays or objects still allowed around the value. *)
Fixpoint parse_value (fuel depth : nat) (s : text) {struct fuel} : scanned pyval :=
  match fuel with
  | O => NoFuel
  | S f =>
      match s with
      | [] => BadSyntax
      | c :: r =>
          if c =? QUOTE then
            match scanstring r with
            | Some (str, rest) => Read (PStr str) rest
            | None => BadSyntax
            end
          else if c =? LBRACE then
            match depth with
            | O => TooDeep
            | S inner =>
                match skip_ws r with
                | d :: r1 =>
                    if d =? RBRACE then Read (PDict []) r1
                    else if d =? QUOTE
                    then lift_scanned (fun ps => PDict (dict_of_pairs ps))
                           (parse_members f inner r1)
                    else BadSyntax
                | [] => BadSyntax
                end
            end
          else if c =? LBRACKET then
            match depth with
            | O => TooDeep
            | S inner =>
                match skip_ws r with
                | d :: r1 =>
                    if d =? RBRACKET then Read (PList []) r1
                    else lift_scanned PList (parse_elements f inner (d :: r1))
                | [] => BadSyntax
                end
            end
          else if startswith s NULL then Read PNone (skipn 4 s)
          else if startswith s TRUE then Read (PBool true) (skipn 4 s)
          else if startswith s FALSE then Read (PBool false) (skipn 5 s)
          else
            match scan_number s with
            | Some outcome => outcome
            | None =>
                if startswith s NAN then Read (PFloat FNan) (skipn 3 s)
                else if startswith s INFINITY then Read (PFloat (FInf false)) (skipn 8 s)
                else if startswith s NEG_INFINITY then Read (PFloat (FInf true)) (skipn 9 s)
                else BadSyntax
            end
      end
  end

with parse_elements (fuel depth : nat) (s : text) {struct fuel} : scanned (list pyval) :=
  match fuel with
  | O => NoFuel
  | S f =>
      match parse_value f depth s with
      | Read v r =>
          match skip_ws r with
          | d :: r1 =>
              if d =? RBRACKET then Read [v] r1
              else if d =? COMMA
              then lift_scanned (cons v) (parse_elements f depth (skip_ws r1))
              else BadSyntax
          | [] => BadSyntax
          end
      | BadSyntax => BadSyntax
      | TooManyDigits => TooManyDigits
      | TooDeep => TooDeep
      | NoFuel => NoFuel
      end
  end

with parse_members (fuel depth : nat) (s : text) {struct fuel}
  : scanned (list (text * pyval)) :=
  match fuel with
  | O => NoFuel
  | S f =>
      match scanstring s with
      | None => BadSyntax
      | Some (key, r) =>
          match skip_ws r with
          | c :: r1 =>
              if c =? COLON then
                match parse_value f depth (skip_ws r1) with
                | Read v r2 =>
                    match skip_ws r2 with
                    | d :: r3 =>
                        if d =? RBRACE then Read [(key, v)] r3
                        else if d =? COMMA then
                          match skip_ws r3 with
                          | q :: r4 =>
                              if q =? QUOTE
                              then lift_scanned (cons (key, v)) (parse_members f depth r4)
                              else BadSyntax
                          | [] => BadSyntax
                          end
                        else BadSyntax
                    | [] => BadSyntax
                    end
                | BadSyntax => BadSyntax
                | TooManyDigits => TooManyDigits
                | TooDeep => TooDeep
                | NoFuel => NoFuel
                end
              else BadSyntax
          | [] => BadSyntax
          end
      end
  end.

(** [json.loads(s)], with [depth] arrays or objects allowed around a value:
    it returns the value, or raises [json.JSONDecodeError], [ValueError]
    (the digit limit) or [RecursionError] (the depth limit), whichever the
    scan meets first. *)
Definition loads (depth : nat) (s : text) : result pyval :=
  match parse_value (fuel_for s) depth (skip_ws s) with
  | Read v rest =>
      match skip_ws rest with
      | [] => Ok v
      | _ :: _ => Raise JSONDecodeError
      end
  | BadSyntax => Raise JSONDecodeError
  | TooManyDigits => Raise ValueError
  | TooDeep => Raise RecursionError
  | NoFuel => Raise JSONDecodeError
  end.

(** The depth [json.loads] has left where a function calls it itself, and
    where [_rescue_incomplete_json_array], called from that function, calls
    it. *)
Record limits : Type := Limits { own_depth : nat; rescue_depth : nat }.

(** Lines 49-57: [except (json.JSONDecodeError, ValueError): continue]. *)
Fixpoint first_candidate (depth : nat) (text : PyStr.text) (starts : list nat)
  : result (option PyStr.text) :=
  match starts with
  | [] => Ok None
  | m_start :: rest =>
      let candidate := firstn (m_start + 1) text ++ [RBRACKET] in
      let candidate := Re.sub_comma_bracket candidate in
      match loads depth candidate with
      | Ok (PList _) => Ok (Some candidate)
      | Ok _ => first_candidate depth text rest
      | Raise JSONDecodeError => first_candidate depth text rest
      | Raise ValueError => first_candidate depth text rest
      | Raise e => Raise e
      end
  end.

Definition _rescue_incomplete_json_array (depth : nat) (text : PyStr.text)
  : result (option PyStr.text) :=
  if is_empty text || negb (contains text [LBRACKET]) then Ok None
  else
    let start := match find text [LBRACKET] with Some i => i | None => 0%nat end in
    let text := rstrip (skipn start text) in
    let text := Re.sub_comma_bracket_end text in
    if endswith text [RBRACKET] then Ok (Some text)
    else
      bind (first_candidate depth text (rev (Re.finditer Re.m_brace_comma text)))
        (fun found =>
      match found with
      | Some candidate => Ok (Some candidate)
      | None =>
          if Re.search_array_of_object text then
            let single := Re.sub_comma_end text ++ [RBRACKET] in
            match loads depth single with
            | Ok (PList _) => Ok (Some single)
            | Ok _ => Ok None
            | Raise JSONDecodeError => Ok None
            | Raise ValueError => Ok None
            | Raise e => Raise e
            end
          else Ok None
      end).

(** Lines 628-633, and 843-848 again: the text handed to [json.loads]. *)
Definition repaired_text (depth : nat) (text_before_rescue : text) : result text :=
  bind (if needs_rescue text_before_rescue then
          bind (_rescue_incomplete_json_array depth text_before_rescue) (fun repaired =>
          Ok (match repaired with
              | Some repaired => repaired
              | None => text_before_rescue ++ [RBRACKET]
              end))
        else Ok text_before_rescue) (fun cleaned_text =>
  Ok (Re.sub_comma_bracket cleaned_text)).

(** Lines 636-650: the first [json.loads] stands under
    [except json.JSONDecodeError], the second under
    [except (json.JSONDecodeError, ValueError)]. *)
Definition _parse_issues_json (lim : limits) (response_text : text)
  : result (list pyval) :=
  let cleaned_text := remove_fences (strip response_text) in
  let text_before_rescue := from_first_bracket cleaned_text in
  bind (repaired_text (rescue_depth lim) text_before_rescue) (fun cleaned_text =>
  match loads (own_depth lim) cleaned_text with
  | Ok (PList issues) => Ok issues
  | Ok _ => Ok []
  | Raise JSONDecodeError =>
      let failed : result (list pyval) := Raise (JSONParseError response_text) in
      if needs_rescue text_before_rescue then
        bind (_rescue_incomplete_json_array (rescue_depth lim) text_before_rescue)
          (fun repaired =>
        match repaired with
        | Some repaired =>
            if is_empty repaired then failed
            else
              match loads (own_depth lim) repaired with
              | Ok (PList issues) => Ok issues
              | Ok _ => failed
              | Raise JSONDecodeError => failed
              | Raise ValueError => failed
              | Raise e => Raise e
              end
        | None => failed
        end)
      else failed
  | Raise e => Raise e
  end).

(** Lines 685-697, on the response of the form-check call. *)
Definition _run_form_check (lim : limits) (response : AiExtractor.response)
  : result (list pyval) :=
  match candidates response with
  | [] => Raise SafetyBlockError
  | c0 :: _ =>
      if negb (reason_ok c0) then Raise SafetyBlockError
      else
        let response_text := strip (resp_text response) in
        if is_empty response_text then Ok []
        else _parse_issues_json lim response_text
  end.

(** Lines 743-763: the form-check stage, under
    [except (SafetyBlockError, JSONParseError)]. *)
Definition form_stage (lim : limits) (ref_count : Z) (form_response : response)
  : result (list pyval) :=
  match _run_form_check lim form_response with
  | Ok form_issues => map_m (shift_image_index ref_count) form_issues
  | Raise SafetyBlockError => Ok [form_failed_issue]
  | Raise (JSONParseError _) => Ok [form_failed_issue]
  | Raise e => Raise e
  end.

(** Lines 872-889: the last fallback, under
    [except (json.JSONDecodeError, ValueError)]. *)
Definition rfind_fallback (depth : nat) (cleaned_text response_text : text)
  : result (list pyval) :=
  match rfind cleaned_text BRACE_COMMA with
  | Some last_brace_comma =>
      let truncated := firstn (last_brace_comma + 1) cleaned_text ++ [RBRACKET] in
      let truncated := Re.sub_comma_bracket truncated in
      match loads depth truncated with
      | Ok (PList issues) => Ok issues
      | Ok _ => Ok []
      | Raise JSONDecodeError => Raise (JSONParseError response_text)
      | Raise ValueError => Raise (JSONParseError response_text)
      | Raise e => Raise e
      end
  | None => Raise (JSONParseError response_text)
  end.

(** Lines 826-889: the issues of the cross-reference response; [None] where
    the source returns [form_issues] at once. *)
Definition cross_issues (lim : limits) (response_text : text)
  : result (option (list pyval)) :=
  let cleaned_text := remove_fences response_text in
  let text_before_rescue := from_first_bracket cleaned_text in
  bind (repaired_text (rescue_depth lim) text_before_rescue) (fun cleaned_text =>
  match loads (own_depth lim) cleaned_text with
  | Ok (PList issues) => Ok (Some issues)
  | Ok _ => Ok None
  | Raise JSONDecodeError =>
      let fallback : result (option (list pyval)) :=
        bind (rfind_fallback (own_depth lim) cleaned_text response_text)
          (fun issues => Ok (Some issues)) in
      if needs_rescue text_before_rescue then
        bind (_rescue_incomplete_json_array (rescue_depth lim) text_before_rescue)
          (fun repaired =>
        match repaired with
        | Some repaired =>
            if is_empty repaired then fallback
            else
              match loads (own_depth lim) repaired with
              | Ok (PList issues) => Ok (Some issues)
              | Ok _ => Ok (Some [])
              | Raise JSONDecodeError => fallback
              | Raise ValueError => fallback
              | Raise e => Raise e
              end
        | None => fallback
        end)
      else fallback
  | Raise e => Raise e
  end).

(** Lines 806-894: the cross-reference stage and the merge. *)
Definition cross_stage (lim : limits) (form_issues : list pyval)
    (cross_response : response) : result (list pyval) :=
  match candidates cross_response with
  | [] => Raise SafetyBlockError
  | c0 :: _ =>
      if negb (reason_ok c0) then Raise SafetyBlockError
      else
        let response_text := strip (resp_text cross_response) in
        if is_empty response_text then Ok form_issues
        else
          bind (cross_issues lim response_text) (fun issues =>
          match issues with
          | None => Ok form_issues
          | Some issues => merge_issues issues form_issues
          end)
  end.

(** [verify_disclosure_against_evidence], with the responses of its two
    calls of the model and the depth limits in [_run_form_check] and in the
    function itself. *)
Definition verify_disclosure_against_evidence
    (form_limits cross_limits : limits)
    (api_key : text) (reference_images target_images : list Utils.image)
    (form_response cross_response : response) : result (list pyval) :=
  if is_empty (strip api_key) then Raise ValueError
  else if is_empty reference_images then Raise ValueError
  else if is_empty target_images then Raise ValueError
  else
    bind (form_stage form_limits (Z.of_nat (length reference_images)) form_response)
      (fun form_issues =>
    cross_stage cross_limits form_issues cross_response).

(** *** [app.py] *)

Section Normalize.

(** [float(s)] of a string, a builtin the model leaves open: the float it
    reads, or [None] where it raises [ValueError]. *)
Variable float_of_str : text -> option pyfloat.

(** [float(x)]: an [int] becomes the nearest float, and raises
    [OverflowError] where that is beyond the largest one. *)
Definition py_float (x : pyval) : result pyfloat :=
  match x with
  | PFloat f => Ok f
  | PInt z =>
      match PyNum.round_to_double (inject_Z z) with
      | Some r => Ok (FFin r)
      | None => Raise OverflowError
      end
  | PBool b => Ok (FFin (if b then 1 else 0))
  | PStr s =>
      match float_of_str s with
      | Some f => Ok f
      | None => Raise ValueError
      end
  | PNone => Raise TypeError
  | PList _ => Raise TypeError
  | PDict _ => Raise TypeError
  end.

(** Lines 24-38: [json.loads] stands under
    [except (json.JSONDecodeError, TypeError)], the conversion under
    [except (TypeError, ValueError)]. *)
Definition _normalize_box_2d (depth : nat) (box_2d : pyval)
  : result (option (list pyfloat)) :=
  match box_2d with
  | PNone => Ok None
  | _ =>
      let decoded : result pyval :=
        match box_2d with
        | PStr s => loads depth (strip s)
        | _ => Ok box_2d
        end in
      match decoded with
      | Raise JSONDecodeError => Ok None
      | Raise TypeError => Ok None
      | Raise e => Raise e
      | Ok (PList l) =>
          if Nat.eqb (length l) 4 then
            match map_m py_float l with
            | Ok floats => Ok (Some floats)
            | Raise TypeError => Ok None
            | Raise ValueError => Ok None
            | Raise e => Raise e
            end
          else Ok None
      | Ok _ => Ok None
      end
  end.

End Normalize.

End Runtime.

(** ** Float arithmetic, and the cropper once more

    An operation on floats gives the binary64 number nearest to its exact
    result. [Utils] above computes the cropper with exact rationals; here
    every operation of lines 34-54 rounds as the interpreter does. The two
    zeros are one number here: no operation of the cropper tells them
    apart. *)

Module Float.
Import Json Exn.
Local Open Scope Q_scope.

(** The float of an operation whose exact result is [q]: the nearest
    binary64 number, or the infinity on the side of [q]. *)
Definition of_Q (q : Q) : pyfloat :=
  match PyNum.round_to_double q with
  | Some r => FFin r
  | None => FInf (Qnum q <? 0)%Z
  end.

(** [-a] *)
Definition neg (a : pyfloat) : pyfloat :=
  match a with
  | FNan => FNan
  | FInf negative => FInf (negb negative)
  | FFin x => FFin (- x)
  end.

(** [a + b] *)
Definition add (a b : pyfloat) : pyfloat :=
  match a, b with
  | FNan, _ => FNan
  | _, FNan => FNan
  | FInf s, FInf t => if Bool.eqb s t then FInf s else FNan
  | FInf s, FFin _ => FInf s
  | FFin _, FInf t => FInf t
  | FFin x, FFin y => of_Q (x + y)
  end.

(** [a - b] *)
Definition sub (a b : pyfloat) : pyfloat := add a (neg b).

(** [a * b] *)
Definition mul (a b : pyfloat) : pyfloat :=
  match a, b with
  | FNan, _ => FNan
  | _, FNan => FNan
  | FInf s, FInf t => FInf (xorb s t)
  | FInf s, FFin y =>
      if Qeq_bool y 0 then FNan else FInf (xorb s (Qnum y <? 0)%Z)
  | FFin x, FInf t =>
      if Qeq_bool x 0 then FNan else FInf (xorb (Qnum x <? 0)%Z t)
  | FFin x, FFin y => of_Q (x * y)
  end.

(** [a / b] for a float [b] that is finite and not zero. *)
Definition div_by (a : pyfloat) (b : Q) : pyfloat :=
  match a with
  | FNan => FNan
  | FInf s => FInf (xorb s (Qnum b <? 0)%Z)
  | FFin x => of_Q (x / b)
  end.

(** [a < b]: false as soon as one of the two is [nan]. *)
Definition lt (a b : pyfloat) : bool :=
  match a, b with
  | FNan, _ => false
  | _, FNan => false
  | FInf s, FInf t => s && negb t
  | FInf s, FFin _ => s
  | FFin _, FInf t => negb t
  | FFin x, FFin y => match x ?= y with Lt => true | _ => false end
  end.

(** [max(a, b)] keeps its first argument unless the second is greater. *)
Definition py_max (a b : pyfloat) : pyfloat := if lt a b then b else a.

(** [min(a, b)] keeps its first argument unless the second is smaller. *)
Definition py_min (a b : pyfloat) : pyfloat := if lt b a then b else a.

(** An [int] as the float an operation with a float takes it for; it raises
    [OverflowError] when the [int] is too large for a float. *)
Definition of_int (z : Z) : result pyfloat :=
  match PyNum.round_to_double (inject_Z z) with
  | Some r => Ok (FFin r)
  | None => Raise OverflowError
  end.

(** [int(a)]: truncation toward zero; [ValueError] for [nan],
    [OverflowError] for an infinity. *)
Definition to_int (a : pyfloat) : result Z :=
  match a with
  | FNan => Raise ValueError
  | FInf _ => Raise OverflowError
  | FFin x => Ok (PyNum.py_int x)
  end.


End Float.

(** [src/utils.py] with the arithmetic of floats. The box is a list of
    floats, as [_normalize_box_2d] makes it; the size of the image is two
    [int]s. *)

Module UtilsFloat.
Import Json Exn.

(** A box in the order the source unpacks it: [ymin, xmin, ymax, xmax]. *)
Record box : Type :=
  Box { b_ymin : pyfloat; b_xmin : pyfloat; b_ymax : pyfloat; b_xmax : pyfloat }.

(** Lines 34-42: the padding, in normalized coordinates. *)
Definition expand_box (padding_ratio_y padding_ratio_x : pyfloat) (b : box) : box :=
  let box_h := Float.sub (b_ymax b) (b_ymin b) in
  let box_w := Float.sub (b_xmax b) (b_xmin b) in
  let pad_y := Float.mul box_h padding_ratio_y in
  let pad_x := Float.mul box_w padding_ratio_x in
  Box (Float.sub (b_ymin b) pad_y) (Float.sub (b_xmin b) pad_x)
      (Float.add (b_ymax b) pad_y) (Float.add (b_xmax b) pad_x).

(** Lines 45-48: the clamp to the 0-1000 scale. *)
Definition clamp_normalized (b : box) : box :=
  let ymin_n := Float.py_max (FFin 0) (Float.py_min (b_ymin b) (FFin 1000)) in
  let xmin_n := Float.py_max (FFin 0) (Float.py_min (b_xmin b) (FFin 1000)) in
  let ymax_n := Float.py_max (Float.add ymin_n (FFin 1))
                  (Float.py_min (b_ymax b) (FFin 1000)) in
  let xmax_n := Float.py_max (Float.add xmin_n (FFin 1))
                  (Float.py_min (b_xmax b) (FFin 1000)) in
  Box ymin_n xmin_n ymax_n xmax_n.

(** Lines 51-54, the float of one coordinate: [(n / 1000.0) * dim]. *)
Definition scaled (n : pyfloat) (dim : Z) : result pyfloat :=
  bind (Float.of_int dim) (fun d => Ok (Float.mul (Float.div_by n 1000) d)).

(** Lines 51-54: one coordinate, [int((n / 1000.0) * dim)]. *)
Definition to_px (n : pyfloat) (dim : Z) : result Z :=
  bind (scaled n dim) Float.to_int.

(** Lines 51-54, in the order of the source. *)
Definition to_pixels (img : Utils.image) (b : box) : result Utils.rect :=
  bind (to_px (b_ymin b) (Utils.img_h img)) (fun ymin_px =>
  bind (to_px (b_xmin b) (Utils.img_w img)) (fun xmin_px =>
  bind (to_px (b_ymax b) (Utils.img_h img)) (fun ymax_px =>
  bind (to_px (b_xmax b) (Utils.img_w img)) (fun xmax_px =>
  Ok (Utils.Rect xmin_px ymin_px xmax_px ymax_px))))).

(** [crop_evidence_region(pil_image, box_2d, padding_ratio_y, padding_ratio_x)]:
    a box that is empty or not of length 4 gives the image back. *)
Definition crop_evidence_region_with
    (pil_image : Utils.image) (box_2d : list pyfloat)
    (padding_ratio_y padding_ratio_x : pyfloat) : result Utils.crop_result :=
  match box_2d with
  | [ymin_n; xmin_n; ymax_n; xmax_n] =>
      bind (to_pixels pil_image
              (clamp_normalized
                 (expand_box padding_ratio_y padding_ratio_x
                    (Box ymin_n xmin_n ymax_n xmax_n)))) (fun r =>
      Ok (Utils.Cropped (Utils.clamp_pixels pil_image r)))
  | _ => Ok Utils.Original
  end.

(** The call with the default ratios, the floats [0.5] and [0.3]. *)
Definition crop_evidence_region (pil_image : Utils.image) (box_2d : list pyfloat)
  : result Utils.crop_result :=
  crop_evidence_region_with pil_image box_2d (FFin (1 # 2)) (Float.of_Q (3 # 10)).


End UtilsFloat.

(** ** The serialization the specification speaks of

    What [json.dumps] writes with its default settings: the separators
    [", "] and [": "], every character outside the printable ASCII range
    escaped. Numbers are integers here: how a float is written is outside
    the model. *)

Module Wire.
Import PyStr Json.
Local Open Scope N_scope.

(** The values the serializer writes. *)
#[local] Unset Elimination Schemes.
Inductive jv : Type :=
| JNull : jv
| JBool (b : bool) : jv
| JInt (z : Z) : jv
| JStr (s : text) : jv
| JArr (l : list jv) : jv
| JObj (d : list (text * jv)) : jv.
#[local] Set Elimination Schemes.

(** The Python value a serializable value is. *)
Fixpoint to_py (j : jv) : pyval :=
  match j with
  | JNull => PNone
  | JBool b => PBool b
  | JInt z => PInt z
  | JStr s => PStr s
  | JArr l => PList (map to_py l)
  | JObj d => PDict (map (fun kv => match kv with (k, v) => (k, to_py v) end) d)
  end.

Definition hexdigit (d : N) : N := if d <? 10 then 48 + d else 87 + d.

(** [\uXXXX], for a code unit below [0x10000] *)
Definition u_escape (n : N) : text :=
  [BACKSLASH; 117; hexdigit (n / 4096); hexdigit ((n / 256) mod 16);
   hexdigit ((n / 16) mod 16); hexdigit (n mod 16)].

(** One character of a string, as [json.dumps] writes it. *)
Definition escape_char (c : N) : text :=
  if c =? QUOTE then [BACKSLASH; QUOTE]
  else if c =? BACKSLASH then [BACKSLASH; BACKSLASH]
  else if c =? 10 then [BACKSLASH; 110]
  else if c =? 13 then [BACKSLASH; 114]
  else if c =? 9 then [BACKSLASH; 116]
  else if c =? 8 then [BACKSLASH; 98]
  else if c =? 12 then [BACKSLASH; 102]
  else if (32 <=? c) && (c <=? 126) then [c]
  else if c <? 65536 then u_escape c
  else u_escape (55296 + (c - 65536) / 1024) ++ u_escape (56320 + (c - 65536) mod 1024).

Definition quote (s : text) : text :=
  QUOTE :: flat_map escape_char s ++ [QUOTE].

Fixpoint uint_text (d : Decimal.uint) : text :=
  match d with
  | Decimal.Nil => []
  | Decimal.D0 r => 48 :: uint_text r
  | Decimal.D1 r => 49 :: uint_text r
  | Decimal.D2 r => 50 :: uint_text r
  | Decimal.D3 r => 51 :: uint_text r
  | Decimal.D4 r => 52 :: uint_text r
  | Decimal.D5 r => 53 :: uint_text r
  | Decimal.D6 r => 54 :: uint_text r
  | Decimal.D7 r => 55 :: uint_text r
  | Decimal.D8 r => 56 :: uint_text r
  | Decimal.D9 r => 57 :: uint_text r
  end.

Definition int_text (z : Z) : text :=
  if (z <? 0)%Z then MINUS :: uint_text (N.to_uint (Z.abs_N z))
  else uint_text (N.to_uint (Z.abs_N z)).

Definition ITEM_SEP : text := [COMMA; 32].
Definition KEY_SEP : text := [COLON; 32].

Fixpoint dumps (j : jv) : text :=
  match j with
  | JNull => NULL
  | JBool true => TRUE
  | JBool false => FALSE
  | JInt z => int_text z
  | JStr s => quote s
  | JArr l => LBRACKET :: join ITEM_SEP (map dumps l) ++ [RBRACKET]
  | JObj d =>
      LBRACE ::
      join ITEM_SEP
        (map (fun kv => match kv with (k, v) => quote k ++ KEY_SEP ++ dumps v end) d)
      ++ [RBRACE]
  end.

(** A finding with the documented fields; the box has integer coordinates. *)
Record finding : Type := Finding {
  f_category : text;
  f_status : text;
  f_item : text;
  f_evidence : text;
  f_target : text;
  f_message : text;
  f_box_2d : option (Z * Z * Z * Z);
  f_image_index : option Z
}.

Definition finding_json (f : finding) : jv :=
  JObj [(CATEGORY, JStr (f_category f)); (STATUS, JStr (f_status f));
        (ITEM, JStr (f_item f)); (EVIDENCE, JStr (f_evidence f));
        (TARGET, JStr (f_target f)); (MESSAGE, JStr (f_message f));
        (BOX_2D, match f_box_2d f with
                 | Some (ymin, xmin, ymax, xmax) =>
                     JArr [JInt ymin; JInt xmin; JInt ymax; JInt xmax]
                 | None => JNull
                 end);
        (IMAGE_INDEX, match f_image_index f with
                      | Some i => JInt i
                      | None => JNull
                      end)].

(** The finding as the parser returns it: a [dict]. *)
Definition finding_py (f : finding) : pyval := to_py (finding_json f).

(** [json.dumps(findings)] *)
Definition serialize (findings : list finding) : text :=
  dumps (JArr (map finding_json findings)).

(** The serialization cut right after the comma that follows the [k]-th
    object. *)
Definition truncate_after (k : nat) (findings : list finding) : text :=
  LBRACKET :: join ITEM_SEP (map dumps (map finding_json (firstn k findings))) ++ [COMMA].

(** A character of valid Unicode text: no surrogate, below [0x110000]. *)
Definition scalar_value (c : N) : bool :=
  (c <? 55296) || ((57344 <=? c) && (c <? 1114112)).

Definition valid_text (s : text) : bool := forallb scalar_value s.

(** A value whose strings are valid text and whose objects have no key
    twice. *)
Fixpoint distinct (keys : list text) : bool :=
  match keys with
  | [] => true
  | k :: r => negb (existsb (text_eqb k) r) && distinct r
  end.

Fixpoint wf (j : jv) : bool :=
  match j with
  | JStr s => valid_text s
  | JArr l => forallb wf l
  | JObj d =>
      forallb (fun kv => match kv with (k, v) => valid_text k && wf v end) d
      && distinct (map fst d)
  | _ => true
  end.

(** The recursion budget the decoder needs for what [dumps] wrote. *)
Fixpoint jsize (j : jv) : nat :=
  match j with
  | JArr l => S (fold_right (fun x acc => S (jsize x) + acc)%nat 0%nat l)
  | JObj d =>
      S (fold_right (fun kv acc => match kv with (_, v) => S (jsize v) + acc end)%nat 0%nat d)
  | _ => 1%nat
  end.

Definition valid_finding (f : finding) : bool :=
  valid_text (f_category f) && valid_text (f_status f) && valid_text (f_item f)
  && valid_text (f_evidence f) && valid_text (f_target f) && valid_text (f_message f).

End Wire.

(** ** Predicates of the proofs *)

Module Inv.
Import PyStr Re Json Exn AiExtractor Wire.
Local Open Scope N_scope.

(** A response the two stages refuse: no candidate, or a first candidate
    that did not stop normally. *)
Definition refused (r : response) : bool :=
  match candidates r with
  | [] => true
  | c0 :: _ => negb (reason_ok c0)
  end.

(** The list a box is given as: the list itself, or the list that
    [json.loads] reads from the string. *)
Definition decodes (box_2d : pyval) (l : list pyval) : Prop :=
  box_2d = PList l \/ exists s, box_2d = PStr s /\ loads (strip s) = Some (PList l).

(** Two findings that differ at most in their [image_index]; one whose
    index is null or absent is the same finding. *)
Definition same_but_index (a b : pyval) : Prop :=
  (forall k, k <> IMAGE_INDEX -> py_get b k = py_get a k) /\
  (py_get a IMAGE_INDEX = Ok PNone -> b = a).

(** A pattern matches inside the text it is given. *)
Definition bounded (m : text -> option nat) : Prop :=
  forall s n, m s = Some n -> (n <= length s)%nat.

(** The characters a number is written with. *)
Definition numchar (c : N) : bool :=
  is_digit c || (c =? MINUS) || (c =? PLUS) || (c =? DOT) || (c =? 101) || (c =? 69).

(** [r] is what is left of [s] after characters of a number. *)
Definition num_rest (s r : text) : Prop :=
  exists a, s = a ++ r /\ forallb numchar a = true.

(** [r] is [s] without a non-empty head; if the head ends with a closing
    bracket, it holds an opening one. *)
Definition consumed_value (s r : text) : Prop :=
  exists a c, s = a ++ c :: r /\ (c = RBRACKET -> In LBRACKET a).

Definition consumed_some (s r : text) : Prop :=
  exists a c, s = a ++ c :: r.

Definition consumed_brace (s r : text) : Prop :=
  exists a, s = a ++ RBRACE :: r.

(** What may follow a value: the end of the text, or a character that no
    number is written with. *)
Definition delim (r : text) : bool :=
  match r with
  | [] => true
  | c :: _ => negb (numchar c)
  end.

(** How a written value starts. *)
Definition value_start (c : N) : Prop :=
  c = QUOTE \/ c = LBRACE \/ c = LBRACKET \/ c = 110 \/ c = 116 \/ c = 102
  \/ c = MINUS \/ is_digit c = true.

(** What the induction gives for a value inside another. *)
Definition reads_back (j : jv) : Prop :=
  wf j = true -> forall f r, (jsize j <= f)%nat -> delim r = true ->
  parse_value f (dumps j ++ r) = Parsed (to_py j) r.

Definition elements_size (l : list jv) : nat :=
  fold_right (fun x acc => S (jsize x) + acc)%nat 0%nat l.

Definition members_size (d : list (text * jv)) : nat :=
  fold_right (fun kv acc => match kv with (_, v) => S (jsize v) + acc end)%nat 0%nat d.

Definition member_text (kv : text * jv) : text :=
  match kv with (k, v) => quote k ++ KEY_SEP ++ dumps v end.

Definition member_py (kv : text * jv) : text * pyval :=
  match kv with (k, v) => (k, to_py v) end.

(** A written element or member after the first: the separator, then it. *)
Definition after_sep (y : text) : text := ITEM_SEP ++ y.


(** The finding is a [dict] whose status is the string [name]. *)
Definition has_status (name : text) (issue : pyval) : bool :=
  match issue with
  | PDict d =>
      match dict_get d STATUS with
      | Some (PStr s) => text_eqb s name
      | _ => false
      end
  | _ => false
  end.

(** The status is one the second counter counts. *)
Definition warns (issue : pyval) : bool :=
  has_status WARNING issue || has_status AppView.SUGGESTION issue.

(** The status is one neither counter counts: it is missing, not a string,
    or a string other than the three. *)
Definition uncounted (issue : pyval) : bool :=
  negb (has_status AppView.ERROR issue) && negb (warns issue).

(** The icon by the status: red for an error, blue for a suggestion, orange
    for everything else. *)
Definition shown_icon (issue : pyval) : AppView.icon :=
  if has_status AppView.ERROR issue then AppView.Red
  else if has_status AppView.SUGGESTION issue then AppView.Blue
  else AppView.Orange.

(** The list a box is given as, when [json.loads] has [depth] levels of
    nesting left: the list itself, or the list read from the string. *)
Definition decodes_under (depth : nat) (box_2d : pyval) (l : list pyval) : Prop :=
  box_2d = PList l \/
  exists s, box_2d = PStr s /\ Runtime.loads depth (strip s) = Ok (PList l).

(** The scan under the limits of the interpreter went as the scan of the
    grammar does, unless a limit stopped it. *)
Definition limits_aside {A : Type} (p : Runtime.scanned A) (q : parsed A) : Prop :=
  match p with
  | Runtime.Read a r => q = Parsed a r
  | Runtime.BadSyntax => q = Invalid
  | Runtime.NoFuel => q = OutOfFuel
  | Runtime.TooManyDigits => True
  | Runtime.TooDeep => True
  end.

End Inv.

(* ================================================================== *)
(** * Part II. Properties                                              *)
(* ================================================================== *)

Unset Implicit Arguments.

(** ** The region cropper *)

Section CropFacts.
Import PyNum Utils.
Local Open Scope Q_scope.






(** The clamp of lines 57-60 alone puts any rectangle inside the image and
    leaves it at least one pixel wide and high. *)
Lemma clamp_pixels_inside (img : image) (r : rect) :
  (1 <= img_w img)%Z -> (1 <= img_h img)%Z ->
  let c := clamp_pixels img r in
  (0 <= r_left c /\ r_left c + 1 <= r_right c /\ r_right c <= img_w img /\
   0 <= r_upper c /\ r_upper c + 1 <= r_lower c /\ r_lower c <= img_h img)%Z.
Proof.
  intros Hw Hh. unfold clamp_pixels; cbn [r_left r_right r_upper r_lower]. lia.
Qed.













End CropFacts.

(** ** Strings and regular expressions *)

Section TextFacts.
Import PyStr.
Local Open Scope N_scope.

Lemma text_eqb_eq (a b : text) : text_eqb a b = true <-> a = b.
Proof.
  revert b. induction a as [| x a IH]; intros [| y b]; simpl; split; intros H;
    try reflexivity; try discriminate.
  - apply andb_true_iff in H as [H1 H2]. apply N.eqb_eq in H1. apply IH in H2.
    subst. reflexivity.
  - injection H as -> ->. rewrite N.eqb_refl. simpl. apply IH. reflexivity.
Qed.

Lemma text_eqb_refl (a : text) : text_eqb a a = true.
Proof. apply text_eqb_eq. reflexivity. Qed.

Lemma startswith_app (p s : text) : startswith (p ++ s) p = true.
Proof. induction p as [| a p IH]; simpl; [reflexivity |]. rewrite N.eqb_refl. exact IH. Qed.

Lemma startswith_iff (s p : text) :
  startswith s p = true <-> exists r, s = p ++ r.
Proof.
  revert s. induction p as [| a p IH]; intros s; simpl.
  - split; [intros _; exists s; reflexivity | reflexivity].
  - destruct s as [| b s]; [split; [discriminate | intros [r H]; discriminate] |].
    rewrite andb_true_iff, N.eqb_eq, IH. split.
    + intros [-> [r ->]]. exists r. reflexivity.
    + intros [r H]. injection H as -> ->. split; [reflexivity | exists r; reflexivity].
Qed.

(** A prefix of a text starts with whatever the text starts with, if it is long enough. *)
Lemma startswith_prefix (a b p : text) :
  startswith a p = true -> startswith (a ++ b) p = true.
Proof.
  rewrite !startswith_iff. intros [r ->]. exists (r ++ b). rewrite app_assoc. reflexivity.
Qed.

Lemma contains_iff (s p : text) :
  contains s p = true <-> exists a b, s = a ++ p ++ b.
Proof.
  induction s as [| c s IH]; simpl.
  - rewrite orb_false_r, startswith_iff. split.
    + intros [r H]. exists [], r. exact H.
    + intros [a [b H]]. destruct a; [exists b; exact H | discriminate].
  - rewrite orb_true_iff, startswith_iff, IH. split.
    + intros [[r H] | [a [b H]]].
      * exists [], r. exact H.
      * exists (c :: a), b. rewrite H. reflexivity.
    + intros [[| x a] [b H]].
      * left. exists b. exact H.
      * right. injection H as -> ->. exists a, b. reflexivity.
Qed.

Lemma contains_false_app_l (a b p : text) :
  contains (a ++ b) p = false -> contains a p = false.
Proof.
  intros H. destruct (contains a p) eqn:E; [| reflexivity].
  apply contains_iff in E as [x [y ->]].
  assert (contains ((x ++ p ++ y) ++ b) p = true) as H'.
  { apply contains_iff. exists x, (y ++ b). rewrite <- !app_assoc. reflexivity. }
  congruence.
Qed.

Lemma contains_false_app_r (a b p : text) :
  contains (a ++ b) p = false -> contains b p = false.
Proof.
  intros H. destruct (contains b p) eqn:E; [| reflexivity].
  apply contains_iff in E as [x [y ->]].
  assert (contains (a ++ x ++ p ++ y) p = true) as H'.
  { apply contains_iff. exists (a ++ x), y. rewrite <- !app_assoc. reflexivity. }
  congruence.
Qed.

Lemma contains_longer (s p q : text) :
  contains s p = false -> contains s (p ++ q) = false.
Proof.
  intros H. destruct (contains s (p ++ q)) eqn:E; [| reflexivity].
  apply contains_iff in E as [a [b ->]].
  assert (contains (a ++ (p ++ q) ++ b) p = true) as H'.
  { apply contains_iff. exists a, (q ++ b). rewrite <- !app_assoc. reflexivity. }
  congruence.
Qed.

(** *** [strip] *)

Lemma lstrip_nonspace (c : N) (s : text) : is_space c = false -> lstrip (c :: s) = c :: s.
Proof. intros H. simpl. rewrite H. reflexivity. Qed.

Lemma rstrip_nonspace (s : text) (c : N) : is_space c = false -> rstrip (s ++ [c]) = s ++ [c].
Proof.
  intros H. unfold rstrip. rewrite rev_app_distr. simpl. rewrite H.
  simpl. rewrite rev_involutive. reflexivity.
Qed.

(** The stripped text is a segment of the text. *)
Lemma lstrip_suffix (s : text) : exists w, s = w ++ lstrip s.
Proof.
  induction s as [| c s [w IH]]; simpl.
  - exists []. reflexivity.
  - destruct (is_space c).
    + exists (c :: w). simpl. rewrite <- IH. reflexivity.
    + exists []. reflexivity.
Qed.

Lemma rstrip_prefix (s : text) : exists w, s = rstrip s ++ w.
Proof.
  unfold rstrip. destruct (lstrip_suffix (rev s)) as [w H].
  exists (rev w). rewrite <- rev_app_distr, <- H, rev_involutive. reflexivity.
Qed.

Lemma strip_segment (s : text) : exists a b, s = a ++ strip s ++ b.
Proof.
  unfold strip. destruct (lstrip_suffix s) as [a Ha].
  destruct (rstrip_prefix (lstrip s)) as [b Hb].
  exists a, b. rewrite <- Hb. exact Ha.
Qed.

Lemma contains_segment (a s b p : text) :
  contains (a ++ s ++ b) p = false -> contains s p = false.
Proof.
  intros H. apply contains_false_app_r in H. apply contains_false_app_l in H. exact H.
Qed.

Lemma strip_contains (s p : text) : contains s p = false -> contains (strip s) p = false.
Proof.
  intros H. destruct (strip_segment s) as [a [b E]]. rewrite E in H.
  eapply contains_segment, H.
Qed.

(** A text that starts and ends with a character that is no whitespace is
    its own [strip]. *)
Lemma strip_tight (c d : N) (s : text) :
  is_space c = false -> is_space d = false ->
  strip (c :: s ++ [d]) = c :: s ++ [d].
Proof.
  intros Hc Hd. unfold strip. rewrite lstrip_nonspace by exact Hc.
  change (c :: s ++ [d]) with ((c :: s) ++ [d]). apply rstrip_nonspace, Hd.
Qed.

Lemma rstrip_tight (s : text) (d : N) :
  is_space d = false -> rstrip (s ++ [d]) = s ++ [d].
Proof. apply rstrip_nonspace. Qed.

(** *** [replace] *)

Lemma replace_absent (s old new : text) :
  contains s old = false -> replace s old new = s.
Proof.
  unfold replace. induction s as [| c s IH]; intros H; simpl; [reflexivity |].
  simpl in H. apply orb_false_iff in H as [H1 H2].
  rewrite H1. f_equal. apply IH, H2.
Qed.

(** *** [split] and [join] *)

Lemma split_nonempty (s : text) (sep : N) : split s sep <> [].
Proof.
  induction s as [| c s IH]; simpl; [discriminate |].
  destruct (c =? sep); [discriminate |].
  destruct (split s sep); [contradiction | discriminate].
Qed.

Lemma join_split (s : text) (sep : N) : join [sep] (split s sep) = s.
Proof.
  induction s as [| c s IH]; simpl; [reflexivity |].
  destruct (N.eqb_spec c sep) as [-> | Hne].
  - pose proof (split_nonempty s sep) as Hs.
    destruct (split s sep) as [| l ls] eqn:E; [contradiction |].
    change (join [sep] ([] :: l :: ls)) with ([] ++ [sep] ++ join [sep] (l :: ls)).
    rewrite IH. reflexivity.
  - pose proof (split_nonempty s sep) as Hs.
    destruct (split s sep) as [| l ls] eqn:E; [contradiction |].
    destruct ls as [| l' ls].
    + simpl in *. rewrite IH. reflexivity.
    + change (join [sep] ((c :: l) :: l' :: ls))
        with (c :: (l ++ [sep] ++ join [sep] (l' :: ls))).
      change (join [sep] (l :: l' :: ls)) with (l ++ [sep] ++ join [sep] (l' :: ls)) in IH.
      rewrite IH. reflexivity.
Qed.

(** Every line of a text is a segment of it. *)
Lemma split_segment (s : text) (sep : N) (line : text) :
  In line (split s sep) -> exists a b, s = a ++ line ++ b.
Proof.
  revert line. induction s as [| c s IH]; intros line; simpl.
  - intros [<- | []]. exists [], []. reflexivity.
  - destruct (N.eqb_spec c sep) as [-> | Hne].
    + intros [<- | H].
      * exists [], (sep :: s). reflexivity.
      * destruct (IH _ H) as [a [b ->]]. exists (sep :: a), b. reflexivity.
    + pose proof (split_nonempty s sep) as Hs.
      destruct (split s sep) as [| l ls] eqn:E; [contradiction |].
      intros [<- | H].
      * destruct (IH l (or_introl eq_refl)) as [a [b Hab]].
        (* the first line starts the text *)
        assert (Hfirst : exists b', s = l ++ b').
        { clear -E. revert l ls E. induction s as [| x s IHs]; intros l ls E; simpl in E.
          - injection E as <- <-. exists []. reflexivity.
          - destruct (x =? sep).
            + injection E as <- <-. exists (x :: s). reflexivity.
            + destruct (split s sep) as [| l0 ls0] eqn:E0.
              * injection E as <- <-. exists s. reflexivity.
              * injection E as <- <-. destruct (IHs _ _ eq_refl) as [b' ->].
                exists b'. reflexivity. }
        destruct Hfirst as [b' ->]. exists [], b'. reflexivity.
      * destruct (IH line (or_intror H)) as [a [b ->]]. exists (c :: a), b. reflexivity.
Qed.

End TextFacts.

Section ReFacts.
Import PyStr Re Inv.
Local Open Scope N_scope.

(** What [spaces_then c] matched: whitespace, then [c]. *)
Lemma spaces_then_shape (c : N) (s : text) (n : nat) :
  spaces_then c s = Some n ->
  exists w, s = w ++ c :: skipn n s /\ n = S (length w) /\ forallb is_space w = true.
Proof.
  revert n. induction s as [| d s IH]; intros n H; simpl in H; [discriminate |].
  destruct (N.eqb_spec d c) as [-> | Hne].
  - injection H as <-. exists []. repeat split.
  - destruct (is_space d) eqn:Hsp; [| discriminate].
    destruct (spaces_then c s) as [k |] eqn:E; [| discriminate].
    injection H as <-. destruct (IH k eq_refl) as [w [Hs [Hk Hw]]].
    exists (d :: w). simpl. rewrite Hsp, Hw. repeat split.
    + rewrite <- Hs. reflexivity.
    + rewrite Hk. reflexivity.
Qed.

Lemma spaces_then_bound (c : N) (s : text) (n : nat) :
  spaces_then c s = Some n -> (1 <= n <= length s)%nat.
Proof.
  intros H. destruct (spaces_then_shape _ _ _ H) as [w [Hs [Hn _]]].
  assert (length s = length (w ++ c :: skipn n s)) as L by (rewrite <- Hs; reflexivity).
  rewrite length_app in L. simpl in L. lia.
Qed.

(** The match does not depend on what follows it. *)
Lemma spaces_then_local (c : N) (a b b' : text) (n : nat) :
  spaces_then c (a ++ b) = Some n -> (n <= length a)%nat ->
  spaces_then c (a ++ b') = Some n.
Proof.
  revert n. induction a as [| d a IH]; intros n H Hn; simpl in *.
  - apply spaces_then_bound in H. lia.
  - destruct (d =? c); [exact H |].
    destruct (is_space d); [| discriminate].
    destruct (spaces_then c (a ++ b)) as [k |] eqn:E; [| discriminate].
    injection H as <-. rewrite (IH k eq_refl) by lia. reflexivity.
Qed.

(** The last character of a match of [spaces_then c] is [c]. *)
Lemma spaces_then_last (c : N) (s : text) (n : nat) :
  spaces_then c s = Some n -> nth_error s (n - 1) = Some c.
Proof.
  revert n. induction s as [| d s IH]; intros n H; simpl in H; [discriminate |].
  destruct (N.eqb_spec d c) as [-> | Hne].
  - injection H as <-. reflexivity.
  - destruct (is_space d); [| discriminate].
    destruct (spaces_then c s) as [k |] eqn:E; [| discriminate].
    injection H as <-. pose proof (spaces_then_bound _ _ _ E) as Hk.
    specialize (IH k eq_refl).
    replace (S k - 1)%nat with (S (k - 1)) by lia. exact IH.
Qed.

(** *** [re.sub] and [re.finditer] *)

Lemma m_comma_bracket_bounded : bounded m_comma_bracket.
Proof.
  intros [| c r] n H; simpl in H; [discriminate |].
  destruct (c =? COMMA); [| discriminate].
  destruct (spaces_then RBRACKET r) as [k |] eqn:E; [| discriminate].
  injection H as <-. apply spaces_then_bound in E. simpl. lia.
Qed.

Lemma m_brace_comma_bounded : bounded m_brace_comma.
Proof.
  intros [| c r] n H; simpl in H; [discriminate |].
  destruct (c =? RBRACE); [| discriminate].
  destruct (spaces_then COMMA r) as [k |] eqn:E; [| discriminate].
  injection H as <-. apply spaces_then_bound in E. simpl. lia.
Qed.

Lemma sub_absent (m : text -> option nat) (repl s : text) :
  search m s = false -> sub m repl s = s.
Proof.
  unfold sub. induction s as [| c s IH]; intros H; simpl; [reflexivity |].
  simpl in H. destruct (m (c :: s)); [discriminate |].
  f_equal. apply IH, H.
Qed.

(** Every character of the result is one of the text or of the replacement. *)
Lemma sub_from_chars (m : text -> option nat) (repl : text) (skip : nat) (s : text) (x : N) :
  In x (sub_from m repl skip s) -> In x s \/ In x repl.
Proof.
  revert skip. induction s as [| c s IH]; intros skip H; simpl in H; [contradiction |].
  destruct skip as [| k].
  - destruct (m (c :: s)) as [[| n] |].
    + destruct H as [<- | H]; [left; left; reflexivity |].
      destruct (IH _ H); [left; right |]; auto.
    + apply in_app_or in H as [H | H]; [right; exact H |].
      destruct (IH _ H); [left; right |]; auto.
    + destruct H as [<- | H]; [left; left; reflexivity |].
      destruct (IH _ H); [left; right |]; auto.
  - destruct (IH _ H); [left; right |]; auto.
Qed.

Lemma sub_chars (m : text -> option nat) (repl s : text) (x : N) :
  In x (sub m repl s) -> In x s \/ In x repl.
Proof. apply sub_from_chars. Qed.

Lemma replace_from_chars (old new : text) (skip : nat) (s : text) (x : N) :
  In x (replace_from old new skip s) -> In x s \/ In x new.
Proof.
  revert skip. induction s as [| c s IH]; intros skip H; simpl in H; [contradiction |].
  destruct skip as [| k].
  - destruct (startswith (c :: s) old).
    + apply in_app_or in H as [H | H]; [right; exact H |].
      destruct (IH _ H); [left; right |]; auto.
    + destruct H as [<- | H]; [left; left; reflexivity |].
      destruct (IH _ H); [left; right |]; auto.
  - destruct (IH _ H); [left; right |]; auto.
Qed.

(** A replacement by [ "]" ] leaves a text that ends with a bracket ending
    with one. *)
Lemma sub_from_keeps_last (m : text -> option nat) (s : text) (skip : nat) :
  bounded m -> (skip <= length s)%nat ->
  (exists u, s = u ++ [RBRACKET]) ->
  (skip = length s -> sub_from m [RBRACKET] skip s = []) /\
  ((skip < length s)%nat -> exists u, sub_from m [RBRACKET] skip s = u ++ [RBRACKET]).
Proof.
  intros Hb. revert skip. induction s as [| c s IH]; intros skip Hs Hend.
  - split; [reflexivity | simpl; lia].
  - assert (Hs' : s = [] /\ c = RBRACKET \/ exists u, s = u ++ [RBRACKET]).
    { destruct Hend as [u Hu]. destruct u as [| x u]; simpl in Hu.
      - injection Hu as -> ->. left. split; reflexivity.
      - injection Hu as -> ->. right. exists u. reflexivity. }
    simpl. destruct skip as [| k].
    + split; [discriminate |]. intros _.
      destruct (m (c :: s)) as [[| n] |] eqn:E.
      * destruct Hs' as [[-> ->] | Hu].
        -- exists []. reflexivity.
        -- destruct (IH 0%nat ltac:(lia) Hu) as [_ H2].
           destruct s as [| y s']; [destruct Hu as [u Hu]; destruct u; discriminate |].
           destruct (H2 ltac:(simpl; lia)) as [u ->]. exists (c :: u). reflexivity.
      * apply Hb in E. simpl in E.
        destruct Hs' as [[-> ->] | Hu].
        -- assert (n = 0)%nat by (simpl in E; lia). subst. exists []. reflexivity.
        -- destruct (IH n ltac:(lia) Hu) as [H1 H2].
           destruct (Nat.eq_dec n (length s)) as [-> | Hne].
           ++ rewrite H1 by reflexivity. exists []. reflexivity.
           ++ destruct (H2 ltac:(lia)) as [u ->]. exists (RBRACKET :: u). reflexivity.
      * destruct Hs' as [[-> ->] | Hu].
        -- exists []. reflexivity.
        -- destruct (IH 0%nat ltac:(lia) Hu) as [_ H2].
           destruct s as [| y s']; [destruct Hu as [u Hu]; destruct u; discriminate |].
           destruct (H2 ltac:(simpl; lia)) as [u ->]. exists (c :: u). reflexivity.
    + simpl in Hs. destruct Hs' as [[-> ->] | Hu].
      * simpl in Hs. assert (k = 0)%nat by lia. subst. split; [reflexivity | simpl; lia].
      * destruct (IH k ltac:(lia) Hu) as [H1 H2]. split.
        -- intros Hk. apply H1. simpl in Hk. lia.
        -- intros Hk. apply H2. simpl in Hk. lia.
Qed.

Lemma sub_comma_bracket_keeps_last (u : text) :
  exists v, sub_comma_bracket (u ++ [RBRACKET]) = v ++ [RBRACKET].
Proof.
  unfold sub_comma_bracket, sub.
  destruct (sub_from_keeps_last m_comma_bracket (u ++ [RBRACKET]) 0
              m_comma_bracket_bounded) as [_ H].
  - lia.
  - exists u. reflexivity.
  - apply H. rewrite length_app. simpl. lia.
Qed.

(** A match of [,\s*]$] reaches the last character of the text, a bracket
    or the final newline. *)
Lemma m_comma_bracket_end_last (s : text) (n : nat) :
  m_comma_bracket_end s = Some n ->
  exists u c, s = u ++ [c] /\ (c = RBRACKET \/ c = NEWLINE).
Proof.
  unfold m_comma_bracket_end, m_comma_bracket.
  destruct s as [| c r]; [discriminate |].
  destruct (c =? COMMA); [| discriminate].
  destruct (spaces_then RBRACKET r) as [k |] eqn:E; [| discriminate].
  simpl. destruct (spaces_then_shape _ _ _ E) as [w [Hr [Hk Hw]]].
  destruct (at_end (skipn k r)) eqn:A; [| discriminate]. intros _.
  unfold at_end in A. destruct (skipn k r) as [| x [| y t]] eqn:Sk; [| | discriminate].
  - exists (c :: w), RBRACKET. split; [| left; reflexivity].
    rewrite Hr. reflexivity.
  - apply N.eqb_eq in A. subst x.
    exists (c :: w ++ [RBRACKET]), NEWLINE. split; [| right; reflexivity].
    rewrite Hr. simpl. rewrite <- app_assoc. reflexivity.
Qed.

Lemma last_char_unique (u v : text) (c d : N) : u ++ [c] = v ++ [d] -> c = d.
Proof. intros H. apply app_inj_tail in H. tauto. Qed.

(** A text that ends with a comma has no match of [,\s*]$]. *)
Lemma search_comma_bracket_end_comma (u : text) :
  search m_comma_bracket_end (u ++ [COMMA]) = false.
Proof.
  induction u as [| c u IH]; simpl.
  - reflexivity.
  - destruct (m_comma_bracket_end (c :: u ++ [COMMA])) as [n |] eqn:E; [| exact IH].
    apply m_comma_bracket_end_last in E as [v [d [Hv Hd]]].
    change (c :: u ++ [COMMA]) with ((c :: u) ++ [COMMA]) in Hv.
    apply last_char_unique in Hv. subst d. destruct Hd; discriminate.
Qed.

(** A match of [\s*,] cannot run over a closing brace. *)
Lemma spaces_then_comma_before_brace (a b : text) (n : nat) :
  spaces_then COMMA (a ++ RBRACE :: b) = Some n -> (n <= length a)%nat.
Proof.
  revert n. induction a as [| d a IH]; intros n H; simpl in H.
  - discriminate.
  - destruct (d =? COMMA).
    + injection H as <-. simpl. lia.
    + destruct (is_space d); [| discriminate].
      destruct (spaces_then COMMA (a ++ RBRACE :: b)) as [k |] eqn:E; [| discriminate].
      injection H as <-. specialize (IH k eq_refl). simpl. lia.
Qed.

(** The last match of [}\s*,] in a text that ends with ["},"] is that one. *)
Lemma finditer_from_last (x : text) (skip pos : nat) :
  (skip <= length x)%nat ->
  exists l, finditer_from m_brace_comma skip pos (x ++ [RBRACE; COMMA])
            = l ++ [(pos + length x)%nat].
Proof.
  revert skip pos. induction x as [| c x IH]; intros skip pos Hs.
  - simpl in Hs. assert (skip = 0)%nat by lia. subst.
    exists []. simpl. rewrite Nat.add_0_r. reflexivity.
  - replace (pos + length (c :: x))%nat with (S pos + length x)%nat by (simpl; lia).
    cbn [app finditer_from]. destruct skip as [| k].
    + destruct (m_brace_comma (c :: x ++ [RBRACE; COMMA])) as [[| n] |] eqn:E.
      * destruct (IH 0%nat (S pos) ltac:(lia)) as [l ->].
        exists l. reflexivity.
      * assert (Hn : (n <= length x)%nat).
        { simpl in E. destruct (c =? RBRACE); [| discriminate].
          destruct (spaces_then COMMA (x ++ [RBRACE; COMMA])) as [k |] eqn:E2;
            [| discriminate].
          injection E as <-. eapply spaces_then_comma_before_brace, E2. }
        destruct (IH n (S pos) Hn) as [l ->].
        exists (pos :: l). reflexivity.
      * destruct (IH 0%nat (S pos) ltac:(lia)) as [l ->].
        exists l. reflexivity.
    + simpl in Hs. destruct (IH k (S pos) ltac:(lia)) as [l ->].
      exists l. reflexivity.
Qed.

Lemma finditer_last (x : text) :
  exists l, rev (finditer m_brace_comma (x ++ [RBRACE; COMMA])) = length x :: l.
Proof.
  unfold finditer. destruct (finditer_from_last x 0 0 ltac:(lia)) as [l ->].
  exists (rev l). rewrite rev_app_distr. reflexivity.
Qed.

End ReFacts.

(** ** The decoder: what a scan consumes *)

Section JsonShape.
Import PyStr Json Inv.
Local Open Scope N_scope.

Lemma skip_ws_suffix (s : text) :
  exists w, s = w ++ skip_ws s /\ forallb is_json_ws w = true.
Proof.
  induction s as [| c s [w [IH Hw]]]; simpl.
  - exists []. split; reflexivity.
  - destruct (is_json_ws c) eqn:E.
    + exists (c :: w). simpl. rewrite E, Hw, <- IH. split; reflexivity.
    + exists []. split; reflexivity.
Qed.

Lemma skip_ws_idem (s : text) : skip_ws (skip_ws s) = skip_ws s.
Proof.
  induction s as [| c s IH]; simpl; [reflexivity |].
  destruct (is_json_ws c) eqn:E; [exact IH |]. simpl. rewrite E. reflexivity.
Qed.

(** The text after the head of a whitespace-free start is no whitespace. *)
Lemma skip_ws_head (s : text) (c : N) (r : text) :
  skip_ws s = c :: r -> is_json_ws c = false.
Proof.
  induction s as [| d s IH]; simpl; [discriminate |].
  destruct (is_json_ws d) eqn:E; [exact IH |].
  intros H. injection H as <- <-. exact E.
Qed.

(** A string scan ends right after a quote. *)
Lemma scanstring_from_shape (skip : nat) (s : text) (str r : text) :
  scanstring_from skip s = Some (str, r) -> exists a, s = a ++ QUOTE :: r.
Proof.
  revert skip str. induction s as [| c s IH]; intros skip str H; simpl in H;
    [discriminate |].
  destruct skip as [| k].
  - destruct (N.eqb_spec c QUOTE) as [-> | Hq].
    + injection H as <- <-. exists []. reflexivity.
    + destruct (c =? BACKSLASH).
      * destruct (scan_escape s) as [[ch n] |]; [| discriminate].
        destruct (scanstring_from n s) as [[str' rest] |] eqn:E; [| discriminate].
        injection H as <- <-. destruct (IH _ _ E) as [a ->].
        exists (c :: a). reflexivity.
      * destruct (c <? 32); [discriminate |].
        destruct (scanstring_from 0 s) as [[str' rest] |] eqn:E; [| discriminate].
        injection H as <- <-. destruct (IH _ _ E) as [a ->].
        exists (c :: a). reflexivity.
  - destruct (IH _ _ H) as [a ->]. exists (c :: a). reflexivity.
Qed.

Lemma scanstring_shape (s str r : text) :
  scanstring s = Some (str, r) -> exists a, s = a ++ QUOTE :: r.
Proof. apply scanstring_from_shape. Qed.

Lemma num_rest_refl (s : text) : num_rest s s.
Proof. exists []. split; reflexivity. Qed.

Lemma num_rest_trans (s r t : text) : num_rest s r -> num_rest r t -> num_rest s t.
Proof.
  intros [a [-> Ha]] [b [-> Hb]]. exists (a ++ b). split.
  - rewrite app_assoc. reflexivity.
  - rewrite forallb_app, Ha, Hb. reflexivity.
Qed.

Lemma num_rest_cons (c : N) (s r : text) :
  numchar c = true -> num_rest s r -> num_rest (c :: s) r.
Proof.
  intros Hc [a [-> Ha]]. exists (c :: a). split; [reflexivity |].
  simpl. rewrite Hc, Ha. reflexivity.
Qed.

Lemma is_digit_numchar (c : N) : is_digit c = true -> numchar c = true.
Proof. intros H. unfold numchar. rewrite H. reflexivity. Qed.

Lemma read_digits_rest (s : text) (d : Decimal.uint) (r : text) :
  read_digits s = (d, r) -> num_rest s r.
Proof.
  revert d r. induction s as [| c s IH]; intros d r H; simpl in H.
  - injection H as <- <-. apply num_rest_refl.
  - destruct (is_digit c) eqn:E.
    + destruct (read_digits s) as [d' rest] eqn:E'. injection H as <- <-.
      apply num_rest_cons; [apply is_digit_numchar, E | eapply IH; reflexivity].
    + injection H as <- <-. apply num_rest_refl.
Qed.

(** A number scan consumes at least one character, all of them characters
    of a number. *)
Lemma scan_number_rest (s : text) (v : pyval) (r : text) :
  scan_number s = Some (v, r) ->
  exists a, s = a ++ r /\ a <> [] /\ forallb numchar a = true.
Proof.
  unfold scan_number. intros H.
  (* the sign *)
  set (p := match s with
            | [] => (false, s)
            | c :: r0 => if c =? MINUS then (true, r0) else (false, s)
            end) in H.
  assert (Hp : num_rest s (snd p)).
  { subst p. destruct s as [| c r0]; [apply num_rest_refl |].
    destruct (N.eqb_spec c MINUS) as [-> | Hne]; simpl.
    - apply num_rest_cons; [reflexivity | apply num_rest_refl].
    - apply num_rest_refl. }
  destruct p as [negative s1]. simpl in Hp.
  destruct s1 as [| c r1]; [discriminate |].
  destruct (is_digit c) eqn:Hc; [| discriminate].
  (* the integer part *)
  set (q := if c =? 48 then (Decimal.D0 Decimal.Nil, r1) else read_digits (c :: r1)) in H.
  assert (Hq : num_rest r1 (snd q)).
  { subst q. destruct (c =? 48); simpl; [apply num_rest_refl |].
    rewrite Hc. destruct (read_digits r1) as [d rest] eqn:E. simpl.
    eapply read_digits_rest, E. }
  destruct q as [int s2]. simpl in Hq.
  (* the fraction *)
  set (fr := match s2 with
             | p0 :: (q0 :: _) as r2 =>
                 if (p0 =? DOT) && is_digit q0
                 then let (fd, rest) := read_digits r2 in (Some fd, rest)
                 else (None, s2)
             | _ => (None, s2)
             end) in H.
  assert (Hfr : num_rest s2 (snd fr)).
  { subst fr. destruct s2 as [| p0 [| q0 t]]; try apply num_rest_refl.
    destruct (N.eqb_spec p0 DOT) as [-> | Hne]; simpl; [| apply num_rest_refl].
    destruct (is_digit q0) eqn:Eq0; [| apply num_rest_refl].
    destruct (read_digits t) as [fd rest] eqn:E. simpl.
    apply num_rest_cons; [reflexivity |].
    apply num_rest_cons; [apply is_digit_numchar, Eq0 |].
    eapply read_digits_rest, E. }
  destruct fr as [frac s3]. simpl in Hfr.
  (* the exponent *)
  set (ex := match s3 with
             | [] => (None, s3)
             | e :: r3 =>
                 if (e =? 101) || (e =? 69)
                 then
                   let (neg_e, r4) :=
                     match r3 with
                     | [] => (false, r3)
                     | sg :: r' =>
                         if sg =? MINUS then (true, r')
                         else if sg =? PLUS then (false, r') else (false, r3)
                     end in
                   match read_digits r4 with
                   | (Decimal.Nil, _) => (None, s3)
                   | (ed, rest) => (Some (neg_e, ed), rest)
                   end
                 else (None, s3)
             end) in H.
  assert (Hex : num_rest s3 (snd ex)).
  { subst ex. destruct s3 as [| e r3]; [apply num_rest_refl |].
    destruct ((e =? 101) || (e =? 69)) eqn:Ee; [| apply num_rest_refl].
    assert (He : numchar e = true).
    { unfold numchar. apply orb_true_iff in Ee as [-> | ->];
        rewrite ?orb_true_r; reflexivity. }
    set (sg := match r3 with
               | [] => (false, r3)
               | sg :: r' =>
                   if sg =? MINUS then (true, r')
                   else if sg =? PLUS then (false, r') else (false, r3)
               end).
    assert (Hsg : num_rest r3 (snd sg)).
    { subst sg. destruct r3 as [| x r']; [apply num_rest_refl |].
      destruct (N.eqb_spec x MINUS) as [-> | Hm]; simpl.
      - apply num_rest_cons; [reflexivity | apply num_rest_refl].
      - destruct (N.eqb_spec x PLUS) as [-> | Hpl]; simpl.
        + apply num_rest_cons; [reflexivity | apply num_rest_refl].
        + apply num_rest_refl. }
    destruct sg as [neg_e r4]. simpl in Hsg.
    destruct (read_digits r4) as [ed rest] eqn:E.
    pose proof (read_digits_rest _ _ _ E) as Hd.
    assert (Hall : num_rest (e :: r3) rest).
    { apply num_rest_cons; [exact He |]. eapply num_rest_trans; eassumption. }
    destruct ed; simpl; try exact Hall. apply num_rest_refl. }
  destruct ex as [exp s4]. simpl in Hex.
  assert (Hr : r = s4).
  { destruct frac, exp; injection H as _ <-; reflexivity. }
  subst r.
  assert (Htail : num_rest r1 s4).
  { eapply num_rest_trans; [exact Hq |]. eapply num_rest_trans; eassumption. }
  destruct Hp as [a [-> Ha]]. destruct Htail as [b [-> Hb]].
  exists (a ++ c :: b). split; [| split].
  - rewrite <- app_assoc. reflexivity.
  - destruct a; discriminate.
  - rewrite forallb_app. simpl. rewrite Ha, Hb, (is_digit_numchar _ Hc). reflexivity.
Qed.

(** The unfoldings of the three scanners. *)
Lemma parse_value_S (f : nat) (s : text) :
  parse_value (S f) s =
  match s with
  | [] => Invalid
  | c :: r =>
      if c =? QUOTE then
        match scanstring r with
        | Some (str, rest) => Parsed (PStr str) rest
        | None => Invalid
        end
      else if c =? LBRACE then
        match skip_ws r with
        | d :: r1 =>
            if d =? RBRACE then Parsed (PDict []) r1
            else if d =? QUOTE
            then lift_parsed (fun ps => PDict (dict_of_pairs ps)) (parse_members f r1)
            else Invalid
        | [] => Invalid
        end
      else if c =? LBRACKET then
        match skip_ws r with
        | d :: r1 =>
            if d =? RBRACKET then Parsed (PList []) r1
            else lift_parsed PList (parse_elements f (d :: r1))
        | [] => Invalid
        end
      else if startswith s NULL then Parsed PNone (skipn 4 s)
      else if startswith s TRUE then Parsed (PBool true) (skipn 4 s)
      else if startswith s FALSE then Parsed (PBool false) (skipn 5 s)
      else
        match scan_number s with
        | Some (v, rest) => Parsed v rest
        | None =>
            if startswith s NAN then Parsed (PFloat FNan) (skipn 3 s)
            else if startswith s INFINITY then Parsed (PFloat (FInf false)) (skipn 8 s)
            else if startswith s NEG_INFINITY then Parsed (PFloat (FInf true)) (skipn 9 s)
            else Invalid
        end
  end.
Proof. reflexivity. Qed.

Lemma parse_elements_S (f : nat) (s : text) :
  parse_elements (S f) s =
  match parse_value f s with
  | Parsed v r =>
      match skip_ws r with
      | d :: r1 =>
          if d =? RBRACKET then Parsed [v] r1
          else if d =? COMMA
          then lift_parsed (cons v) (parse_elements f (skip_ws r1))
          else Invalid
      | [] => Invalid
      end
  | Invalid => Invalid
  | OutOfFuel => OutOfFuel
  end.
Proof. reflexivity. Qed.

Lemma parse_members_S (f : nat) (s : text) :
  parse_members (S f) s =
  match scanstring s with
  | None => Invalid
  | Some (key, r) =>
      match skip_ws r with
      | c :: r1 =>
          if c =? COLON then
            match parse_value f (skip_ws r1) with
            | Parsed v r2 =>
                match skip_ws r2 with
                | d :: r3 =>
                    if d =? RBRACE then Parsed [(key, v)] r3
                    else if d =? COMMA then
                      match skip_ws r3 with
                      | q :: r4 =>
                          if q =? QUOTE
                          then lift_parsed (cons (key, v)) (parse_members f r4)
                          else Invalid
                      | [] => Invalid
                      end
                    else Invalid
                | [] => Invalid
                end
            | Invalid => Invalid
            | OutOfFuel => OutOfFuel
            end
          else Invalid
      | [] => Invalid
      end
  end.
Proof. reflexivity. Qed.

Lemma lift_parsed_inv {A B : Type} (g : A -> B) (p : parsed A) (b : B) (r : text) :
  lift_parsed g p = Parsed b r -> exists a, p = Parsed a r /\ b = g a.
Proof.
  destruct p as [a r' | |]; simpl; intros H; try discriminate.
  injection H as <- <-. exists a. split; reflexivity.
Qed.

Lemma consumed_literal (s lit0 : text) (n : nat) (c : N) (a : text) :
  lit0 = a ++ [c] -> n = length lit0 -> c <> RBRACKET ->
  startswith s lit0 = true -> consumed_value s (skipn n s).
Proof.
  intros -> -> Hc H. apply startswith_iff in H as [r ->].
  rewrite skipn_app, skipn_all, Nat.sub_diag. simpl.
  exists a, c. split; [rewrite <- app_assoc; reflexivity | intros E; contradiction].
Qed.

Lemma forallb_last (A : Type) (p : A -> bool) (a : list A) :
  a <> [] -> forallb p a = true -> exists b c, a = b ++ [c] /\ p c = true.
Proof.
  intros Hne H. destruct (exists_last Hne) as [b [c ->]].
  rewrite forallb_app in H. apply andb_true_iff in H as [_ H]. simpl in H.
  rewrite andb_true_r in H. exists b, c. split; [reflexivity | exact H].
Qed.

Lemma parse_shape (f : nat) :
  (forall s v r, parse_value f s = Parsed v r -> consumed_value s r) /\
  (forall s vs r, parse_elements f s = Parsed vs r -> consumed_some s r) /\
  (forall s ps r, parse_members f s = Parsed ps r -> consumed_brace s r).
Proof.
  induction f as [| f [IHv [IHe IHm]]]; [repeat split; intros; discriminate |].
  split; [| split].
  - intros s v r. rewrite parse_value_S. destruct s as [| c s0]; [discriminate |].
    destruct (N.eqb_spec c QUOTE) as [-> | Hq].
    { destruct (scanstring s0) as [[str rest] |] eqn:E; [| discriminate].
      intros H. injection H as <- <-. destruct (scanstring_shape _ _ _ E) as [a ->].
      exists (QUOTE :: a), QUOTE. split; [reflexivity | discriminate]. }
    destruct (N.eqb_spec c LBRACE) as [-> | Hb].
    { destruct (skip_ws_suffix s0) as [w [Hw _]].
      destruct (skip_ws s0) as [| d r1] eqn:E; [discriminate |].
      destruct (N.eqb_spec d RBRACE) as [-> | Hd].
      - intros H. injection H as <- <-. exists (LBRACE :: w), RBRACE.
        split; [rewrite Hw; reflexivity | discriminate].
      - destruct (d =? QUOTE); [| discriminate]. intros H.
        apply lift_parsed_inv in H as [ps [H _]].
        destruct (IHm _ _ _ H) as [a ->].
        exists (LBRACE :: w ++ d :: a), RBRACE. split; [| discriminate].
        rewrite Hw. simpl. rewrite <- app_assoc. reflexivity. }
    destruct (N.eqb_spec c LBRACKET) as [-> | Hk].
    { destruct (skip_ws_suffix s0) as [w [Hw _]].
      destruct (skip_ws s0) as [| d r1] eqn:E; [discriminate |].
      destruct (N.eqb_spec d RBRACKET) as [-> | Hd].
      - intros H. injection H as <- <-. exists (LBRACKET :: w), RBRACKET.
        split; [rewrite Hw; reflexivity | intros _; left; reflexivity].
      - intros H. apply lift_parsed_inv in H as [vs [H _]].
        destruct (IHe _ _ _ H) as [a [x Ha]].
        exists (LBRACKET :: w ++ a), x. split; [| intros _; left; reflexivity].
        rewrite Hw, Ha. simpl. rewrite <- app_assoc. reflexivity. }
    destruct (startswith (c :: s0) NULL) eqn:E1.
    { intros H. injection H as <- <-.
      change (consumed_value (c :: s0) (skipn 4 (c :: s0))).
      eapply (consumed_literal _ NULL 4 108 [110; 117; 108]);
        (reflexivity || discriminate || exact E1). }
    destruct (startswith (c :: s0) TRUE) eqn:E2.
    { intros H. injection H as <- <-.
      change (consumed_value (c :: s0) (skipn 4 (c :: s0))).
      eapply (consumed_literal _ TRUE 4 101 [116; 114; 117]);
        (reflexivity || discriminate || exact E2). }
    destruct (startswith (c :: s0) FALSE) eqn:E3.
    { intros H. injection H as <- <-.
      change (consumed_value (c :: s0) (skipn 5 (c :: s0))).
      eapply (consumed_literal _ FALSE 5 101 [102; 97; 108; 115]);
        (reflexivity || discriminate || exact E3). }
    destruct (scan_number (c :: s0)) as [[v' rest] |] eqn:En.
    { intros H. injection H as <- <-.
      destruct (scan_number_rest _ _ _ En) as [a [Ha [Hne Hall]]].
      destruct (forallb_last _ _ _ Hne Hall) as [b [x [-> Hx]]].
      exists b, x. split; [rewrite Ha, <- app_assoc; reflexivity |].
      intros ->. discriminate. }
    destruct (startswith (c :: s0) NAN) eqn:E4.
    { intros H. injection H as <- <-.
      change (consumed_value (c :: s0) (skipn 3 (c :: s0))).
      eapply (consumed_literal _ NAN 3 78 [78; 97]);
        (reflexivity || discriminate || exact E4). }
    destruct (startswith (c :: s0) INFINITY) eqn:E5.
    { intros H. injection H as <- <-.
      change (consumed_value (c :: s0) (skipn 8 (c :: s0))).
      eapply (consumed_literal _ INFINITY 8 121 [73; 110; 102; 105; 110; 105; 116]);
        (reflexivity || discriminate || exact E5). }
    destruct (startswith (c :: s0) NEG_INFINITY) eqn:E6; [| discriminate].
    intros H. injection H as <- <-.
    change (consumed_value (c :: s0) (skipn 9 (c :: s0))).
    eapply (consumed_literal _ NEG_INFINITY 9 121 [45; 73; 110; 102; 105; 110; 105; 116]);
      (reflexivity || discriminate || exact E6).
  - intros s vs r. rewrite parse_elements_S.
    destruct (parse_value f s) as [v r0 | |] eqn:E; try discriminate.
    destruct (IHv _ _ _ E) as [a [c [Ha _]]].
    destruct (skip_ws_suffix r0) as [w [Hw _]].
    destruct (skip_ws r0) as [| d r1] eqn:E0; [discriminate |].
    destruct (d =? RBRACKET).
    + intros H. injection H as <- <-. exists (a ++ c :: w), d.
      rewrite Ha, Hw, <- app_assoc. reflexivity.
    + destruct (d =? COMMA); [| discriminate]. intros H.
      apply lift_parsed_inv in H as [vs' [H _]].
      destruct (IHe _ _ _ H) as [b [x Hb]].
      destruct (skip_ws_suffix r1) as [w1 [Hw1 _]].
      exists (a ++ c :: w ++ d :: w1 ++ b), x.
      rewrite Ha, Hw, Hw1, Hb. repeat (rewrite <- app_assoc; simpl). reflexivity.
  - intros s ps r. rewrite parse_members_S.
    destruct (scanstring s) as [[key r0] |] eqn:E; [| discriminate].
    destruct (scanstring_shape _ _ _ E) as [a Ha].
    destruct (skip_ws_suffix r0) as [w [Hw _]].
    destruct (skip_ws r0) as [| c r1] eqn:E0; [discriminate |].
    destruct (c =? COLON); [| discriminate].
    destruct (skip_ws_suffix r1) as [w1 [Hw1 _]].
    destruct (parse_value f (skip_ws r1)) as [v r2 | |] eqn:E1; try discriminate.
    destruct (IHv _ _ _ E1) as [b [x [Hb _]]].
    destruct (skip_ws_suffix r2) as [w2 [Hw2 _]].
    destruct (skip_ws r2) as [| d r3] eqn:E2; [discriminate |].
    destruct (N.eqb_spec d RBRACE) as [-> | Hd].
    + intros H. injection H as <- <-.
      exists (a ++ QUOTE :: w ++ c :: w1 ++ b ++ x :: w2).
      rewrite Ha, Hw, Hw1, Hb, Hw2. repeat (rewrite <- app_assoc; simpl). reflexivity.
    + destruct (d =? COMMA); [| discriminate].
      destruct (skip_ws_suffix r3) as [w3 [Hw3 _]].
      destruct (skip_ws r3) as [| q r4] eqn:E3; [discriminate |].
      destruct (q =? QUOTE); [| discriminate]. intros H.
      apply lift_parsed_inv in H as [ps' [H _]].
      destruct (IHm _ _ _ H) as [e ->].
      exists (a ++ QUOTE :: w ++ c :: w1 ++ b ++ x :: w2 ++ d :: w3 ++ q :: e).
      rewrite Ha, Hw, Hw1, Hb, Hw2, Hw3. repeat (rewrite <- app_assoc; simpl). reflexivity.
Qed.

Lemma skip_ws_nil_all (s : text) : skip_ws s = [] -> forallb is_json_ws s = true.
Proof.
  intros H. destruct (skip_ws_suffix s) as [w [Hw Hall]].
  rewrite H, app_nil_r in Hw. subst. exact Hall.
Qed.

(** A text that [json.loads] reads and that ends with a closing bracket
    holds an opening one. *)
Lemma loads_closing_needs_opening (u : text) (v : pyval) :
  loads (u ++ [RBRACKET]) = Some v -> In LBRACKET (u ++ [RBRACKET]).
Proof.
  unfold loads. set (t := u ++ [RBRACKET]).
  destruct (parse_value (fuel_for t) (skip_ws t)) as [v' rest | |] eqn:E;
    try discriminate.
  destruct (skip_ws rest) eqn:Er; [| discriminate]. intros _.
  destruct (parse_shape (fuel_for t)) as [Hv _].
  destruct (Hv _ _ _ E) as [a [c [Ha Hc]]].
  destruct (skip_ws_suffix t) as [w [Hw _]].
  pose proof (skip_ws_nil_all _ Er) as Hrest.
  rewrite Ha in Hw.
  destruct rest as [| x rest'] using rev_ind.
  - assert (c = RBRACKET).
    { unfold t in Hw. rewrite app_assoc in Hw. apply app_inj_tail in Hw. symmetry. tauto. }
    rewrite Hw. apply in_or_app. right. apply in_or_app. left. apply Hc. assumption.
  - clear IHrest'. rewrite forallb_app in Hrest. apply andb_true_iff in Hrest as [_ Hx].
    simpl in Hx. rewrite andb_true_r in Hx.
    assert (x = RBRACKET).
    { unfold t in Hw.
      replace (w ++ a ++ c :: rest' ++ [x]) with ((w ++ a ++ c :: rest') ++ [x]) in Hw
        by (repeat (rewrite <- app_assoc; simpl); reflexivity).
      apply app_inj_tail in Hw. symmetry. tauto. }
    subst x. discriminate.
Qed.

(** [json.loads] fails on a text with no opening bracket that is empty or
    ends with a closing one. *)
Lemma loads_without_opening (t : text) :
  ~ In LBRACKET t -> (t = [] \/ exists u, t = u ++ [RBRACKET]) -> loads t = None.
Proof.
  intros Hno [-> | [u ->]]; [reflexivity |].
  destruct (loads (u ++ [RBRACKET])) as [v |] eqn:E; [| reflexivity].
  exfalso. apply Hno. eapply loads_closing_needs_opening, E.
Qed.

(** *** The recursion budget is enough *)

Lemma consumed_value_shorter (s r : text) :
  consumed_value s r -> (length r < length s)%nat.
Proof. intros [a [c [-> _]]]. rewrite length_app. simpl. lia. Qed.

Lemma consumed_some_shorter (s r : text) :
  consumed_some s r -> (length r < length s)%nat.
Proof. intros [a [c ->]]. rewrite length_app. simpl. lia. Qed.

Lemma skip_ws_length (s : text) : (length (skip_ws s) <= length s)%nat.
Proof.
  destruct (skip_ws_suffix s) as [w [Hw _]].
  rewrite Hw at 2. rewrite length_app. lia.
Qed.

Lemma skip_ws_cons_length (s : text) (c : N) (r : text) :
  skip_ws s = c :: r -> (length r < length s)%nat.
Proof. intros H. pose proof (skip_ws_length s) as L. rewrite H in L. simpl in L. lia. Qed.

Lemma lift_parsed_fuel {A B : Type} (g : A -> B) (p : parsed A) :
  p <> OutOfFuel -> lift_parsed g p <> OutOfFuel.
Proof. destruct p; simpl; intros H; congruence. Qed.

Lemma parse_fuel (f : nat) :
  (forall s, (2 * length s + 1 <= f)%nat -> parse_value f s <> OutOfFuel) /\
  (forall s, (2 * length s + 2 <= f)%nat -> parse_elements f s <> OutOfFuel) /\
  (forall s, (2 * length s + 2 <= f)%nat -> parse_members f s <> OutOfFuel).
Proof.
  induction f as [| f [IHv [IHe IHm]]]; [repeat split; intros; lia |].
  destruct (parse_shape f) as [Sv [Se Sm]].
  split; [| split].
  - intros s Hs. rewrite parse_value_S. destruct s as [| c s0]; [discriminate |].
    simpl in Hs.
    destruct (c =? QUOTE).
    { destruct (scanstring s0) as [[str rest] |]; discriminate. }
    destruct (c =? LBRACE).
    { destruct (skip_ws s0) as [| d r1] eqn:E; [discriminate |].
      apply skip_ws_cons_length in E.
      destruct (d =? RBRACE); [discriminate |].
      destruct (d =? QUOTE); [| discriminate].
      apply lift_parsed_fuel, IHm. lia. }
    destruct (c =? LBRACKET).
    { destruct (skip_ws s0) as [| d r1] eqn:E; [discriminate |].
      apply skip_ws_cons_length in E.
      destruct (d =? RBRACKET); [discriminate |].
      apply lift_parsed_fuel, IHe. simpl. lia. }
    destruct (startswith (c :: s0) NULL); [discriminate |].
    destruct (startswith (c :: s0) TRUE); [discriminate |].
    destruct (startswith (c :: s0) FALSE); [discriminate |].
    destruct (scan_number (c :: s0)) as [[v' rest] |]; [discriminate |].
    destruct (startswith (c :: s0) NAN); [discriminate |].
    destruct (startswith (c :: s0) INFINITY); [discriminate |].
    destruct (startswith (c :: s0) NEG_INFINITY); discriminate.
  - intros s Hs. rewrite parse_elements_S.
    destruct (parse_value f s) as [v r0 | |] eqn:E; [| discriminate |].
    + apply Sv, consumed_value_shorter in E.
      destruct (skip_ws r0) as [| d r1] eqn:E0; [discriminate |].
      apply skip_ws_cons_length in E0.
      destruct (d =? RBRACKET); [discriminate |].
      destruct (d =? COMMA); [| discriminate].
      apply lift_parsed_fuel, IHe. pose proof (skip_ws_length r1). lia.
    + exfalso. revert E. apply IHv. lia.
  - intros s Hs. rewrite parse_members_S.
    destruct (scanstring s) as [[key r0] |] eqn:E; [| discriminate].
    apply scanstring_shape in E as [a Ha].
    assert (L0 : (length r0 < length s)%nat).
    { rewrite Ha, length_app. simpl. lia. }
    destruct (skip_ws r0) as [| c r1] eqn:E0; [discriminate |].
    apply skip_ws_cons_length in E0.
    destruct (c =? COLON); [| discriminate].
    pose proof (skip_ws_length r1) as L1.
    destruct (parse_value f (skip_ws r1)) as [v r2 | |] eqn:E1; [| discriminate |].
    + apply Sv, consumed_value_shorter in E1.
      destruct (skip_ws r2) as [| d r3] eqn:E2; [discriminate |].
      apply skip_ws_cons_length in E2.
      destruct (d =? RBRACE); [discriminate |].
      destruct (d =? COMMA); [| discriminate].
      destruct (skip_ws r3) as [| q r4] eqn:E3; [discriminate |].
      apply skip_ws_cons_length in E3.
      destruct (q =? QUOTE); [| discriminate].
      apply lift_parsed_fuel, IHm. lia.
    + exfalso. revert E1. apply IHv. lia.
Qed.

(** [json.loads] never runs out of its budget: where it gives [None], the
    text is no JSON. *)
Lemma loads_fuel_enough (s : text) :
  parse_value (fuel_for s) (skip_ws s) <> OutOfFuel.
Proof.
  apply parse_fuel. unfold fuel_for. pose proof (skip_ws_length s). lia.
Qed.

End JsonShape.

(** ** The response parser *)

Section ParserFacts.
Import PyStr Re Json Exn AiExtractor Inv.
Local Open Scope N_scope.

Lemma contains_char (s : text) (c : N) : contains s [c] = true <-> In c s.
Proof.
  rewrite contains_iff. split.
  - intros [a [b ->]]. apply in_or_app. right. left. reflexivity.
  - intros H. apply in_split in H as [a [b ->]]. exists a, b. reflexivity.
Qed.

Lemma contains_char_false (s : text) (c : N) : contains s [c] = false <-> ~ In c s.
Proof.
  rewrite <- contains_char. destruct (contains s [c]); split; intros H;
    congruence || (exfalso; apply H; reflexivity) || discriminate.
Qed.

Lemma endswith_char (s : text) (c : N) :
  endswith s [c] = true <-> exists u, s = u ++ [c].
Proof.
  unfold endswith. simpl. split.
  - destruct (rev s) as [| x r] eqn:E; [discriminate |].
    rewrite andb_true_r. intros H. apply N.eqb_eq in H. subst x.
    exists (rev r). rewrite <- (rev_involutive s), E. reflexivity.
  - intros [u ->]. rewrite rev_app_distr. simpl. rewrite N.eqb_refl. reflexivity.
Qed.

Lemma endswith_other (u : text) (c d : N) : c <> d -> endswith (u ++ [c]) [d] = false.
Proof.
  intros Hne. destruct (endswith (u ++ [c]) [d]) eqn:E; [| reflexivity].
  apply endswith_char in E as [v Hv]. apply app_inj_tail in Hv. tauto.
Qed.

(** *** Characters are only ever removed *)

Lemma strip_incl (s : text) : incl (strip s) s.
Proof.
  intros x H. destruct (strip_segment s) as [a [b E]]. rewrite E.
  apply in_or_app. right. apply in_or_app. left. exact H.
Qed.

Lemma rstrip_incl (s : text) : incl (rstrip s) s.
Proof.
  intros x H. destruct (rstrip_prefix s) as [w E]. rewrite E.
  apply in_or_app. left. exact H.
Qed.

Lemma replace_remove_incl (s old : text) : incl (replace s old []) s.
Proof.
  intros x H. unfold replace in H. apply replace_from_chars in H as [H | []]. exact H.
Qed.

Lemma join_chars (sep : text) (l : list text) (x : N) :
  In x (join sep l) -> In x sep \/ exists line, In line l /\ In x line.
Proof.
  induction l as [| y l IH]; simpl; [contradiction |].
  destruct l as [| z l].
  - intros H. right. exists y. split; [left; reflexivity | exact H].
  - intros H. apply in_app_or in H as [H | H].
    + right. exists y. split; [left; reflexivity | exact H].
    + apply in_app_or in H as [H | H]; [left; exact H |].
      destruct (IH H) as [H' | [line [Hl Hx]]]; [left; exact H' |].
      right. exists line. split; [right; exact Hl | exact Hx].
Qed.

Lemma split_incl (s : text) (sep : N) (line : text) :
  In line (split s sep) -> incl line s.
Proof.
  intros H x Hx. destruct (split_segment _ _ _ H) as [a [b ->]].
  apply in_or_app. right. apply in_or_app. left. exact Hx.
Qed.

Lemma remove_fences_bracket (s : text) :
  ~ In LBRACKET s -> ~ In LBRACKET (remove_fences s).
Proof.
  intros Hno H. unfold remove_fences in H.
  apply strip_incl in H. apply join_chars in H as [H | [line [Hl Hx]]].
  - destruct H as [H | []]. discriminate.
  - apply filter_In in Hl as [Hl _]. apply split_incl in Hl. apply Hl in Hx.
    apply strip_incl in Hx. apply replace_remove_incl in Hx.
    apply replace_remove_incl in Hx. contradiction.
Qed.

(** *** C8 *)

Lemma rescue_without_bracket (s : text) :
  ~ In LBRACKET s -> _rescue_incomplete_json_array s = None.
Proof.
  intros H. unfold _rescue_incomplete_json_array.
  apply contains_char_false in H. rewrite H. rewrite orb_true_r. reflexivity.
Qed.

Lemma repaired_text_without_bracket (s : text) :
  ~ In LBRACKET s -> loads (repaired_text s) = None.
Proof.
  intros Hno. unfold repaired_text.
  assert (Hsub : forall u, ~ In LBRACKET u -> ~ In LBRACKET (sub_comma_bracket u)).
  { intros u Hu H. apply sub_chars in H as [H | [H | []]]; [contradiction | discriminate]. }
  destruct (needs_rescue s) eqn:En.
  - rewrite rescue_without_bracket by exact Hno.
    destruct (sub_comma_bracket_keeps_last s) as [v Hv].
    apply loads_without_opening.
    + apply Hsub. intros H. apply in_app_or in H as [H | [H | []]];
        [contradiction | discriminate].
    + right. exists v. exact Hv.
  - unfold needs_rescue in En. apply andb_false_iff in En as [En | En].
    + destruct s; [reflexivity | discriminate].
    + apply negb_false_iff, endswith_char in En as [u ->].
      destruct (sub_comma_bracket_keeps_last u) as [v Hv].
      apply loads_without_opening; [apply Hsub, Hno | right; exists v; exact Hv].
Qed.

(** *** Texts the cleaning steps leave alone *)

Lemma filter_all {A : Type} (p : A -> bool) (l : list A) :
  (forall x, In x l -> p x = true) -> filter p l = l.
Proof.
  induction l as [| y l IH]; intros H; simpl; [reflexivity |].
  rewrite (H y (or_introl eq_refl)). f_equal. apply IH. intros x Hx. apply H. right. exact Hx.
Qed.

Lemma fence_line_contains (x : text) : is_fence_line x = true -> contains x FENCE = true.
Proof.
  unfold is_fence_line. rewrite !orb_true_iff, !text_eqb_eq.
  intros [[-> | ->] | ->]; reflexivity.
Qed.

Lemma no_fence_line (s line : text) :
  contains s FENCE = false -> In line (split s NEWLINE) ->
  is_fence_line (strip line) = false.
Proof.
  intros Hs Hl. destruct (is_fence_line (strip line)) eqn:E; [| reflexivity].
  apply fence_line_contains in E.
  destruct (split_segment _ _ _ Hl) as [a [b Hab]]. rewrite Hab in Hs.
  apply contains_segment in Hs. apply strip_contains in Hs. congruence.
Qed.

(** A text without a fence marker that starts and ends with a character
    that is no whitespace passes [remove_fences] unchanged. *)
Lemma remove_fences_id (c d : N) (u : text) :
  is_space c = false -> is_space d = false ->
  contains (c :: u ++ [d]) FENCE = false ->
  remove_fences (c :: u ++ [d]) = c :: u ++ [d].
Proof.
  intros Hc Hd Hf. unfold remove_fences. set (t := c :: u ++ [d]) in *.
  assert (Hfj : contains t FENCE_JSON = false).
  { change FENCE_JSON with (FENCE ++ [106; 115; 111; 110]). apply contains_longer, Hf. }
  rewrite (replace_absent _ _ _ Hfj), (replace_absent _ _ _ Hf).
  assert (Hst : strip t = t) by (apply strip_tight; assumption).
  rewrite Hst.
  rewrite filter_all.
  - rewrite join_split. exact Hst.
  - intros line Hl. rewrite (no_fence_line _ _ Hf Hl). reflexivity.
Qed.

Lemma from_first_bracket_id (u : text) (d : N) :
  is_space d = false ->
  from_first_bracket (LBRACKET :: u ++ [d]) = LBRACKET :: u ++ [d].
Proof.
  intros Hd. unfold from_first_bracket, sub_to_first_bracket.
  change (contains (LBRACKET :: u ++ [d]) [LBRACKET]) with true. cbv iota.
  change (find (LBRACKET :: u ++ [d]) [LBRACKET]) with (Some 0%nat). cbv iota.
  change (skipn 0 (LBRACKET :: u ++ [d])) with ((LBRACKET :: u) ++ [d]).
  apply rstrip_tight, Hd.
Qed.

(** *** The parser on a complete array and on a truncated one *)

(** A text that starts with the opening bracket and ends with the closing
    one, holds no fence marker and no comma before a closing bracket, and is
    JSON for a list, is read as that list. *)
Lemma parse_array_text (u : text) (l : list pyval) :
  contains (LBRACKET :: u ++ [RBRACKET]) FENCE = false ->
  search m_comma_bracket (LBRACKET :: u ++ [RBRACKET]) = false ->
  loads (LBRACKET :: u ++ [RBRACKET]) = Some (PList l) ->
  _parse_issues_json (LBRACKET :: u ++ [RBRACKET]) = Ok l.
Proof.
  intros Hf Hc Hl. unfold _parse_issues_json.
  rewrite strip_tight by reflexivity.
  rewrite remove_fences_id by (reflexivity || exact Hf).
  rewrite from_first_bracket_id by reflexivity.
  unfold repaired_text, needs_rescue.
  assert (He : endswith (LBRACKET :: u ++ [RBRACKET]) [RBRACKET] = true).
  { apply endswith_char. exists (LBRACKET :: u). reflexivity. }
  rewrite He. simpl negb. rewrite andb_false_r.
  unfold sub_comma_bracket. rewrite (sub_absent _ _ _ Hc). rewrite Hl. reflexivity.
Qed.

Lemma firstn_length_app {A : Type} (a b : list A) : firstn (length a) (a ++ b) = a.
Proof. rewrite firstn_app, Nat.sub_diag, firstn_all. simpl. apply app_nil_r. Qed.

(** The rescue of a text cut right after the comma that follows a closed
    object: the cut text with the comma replaced by the closing bracket. *)
Lemma rescue_truncated (x : text) (l : list pyval) :
  search m_comma_bracket (LBRACKET :: x ++ [RBRACE; RBRACKET]) = false ->
  loads (LBRACKET :: x ++ [RBRACE; RBRACKET]) = Some (PList l) ->
  _rescue_incomplete_json_array (LBRACKET :: x ++ [RBRACE; COMMA])
    = Some (LBRACKET :: x ++ [RBRACE; RBRACKET]).
Proof.
  intros Hc Hl. unfold _rescue_incomplete_json_array.
  set (t := LBRACKET :: x ++ [RBRACE; COMMA]).
  change (is_empty t) with false. change (contains t [LBRACKET]) with true.
  cbv iota. simpl orb. cbv iota.
  change (find t [LBRACKET]) with (Some 0%nat). cbv iota.
  change (skipn 0 t) with t.
  assert (Ht : t = (LBRACKET :: x ++ [RBRACE]) ++ [COMMA]).
  { unfold t. simpl. rewrite <- app_assoc. reflexivity. }
  assert (Hr : rstrip t = t) by (rewrite Ht; apply rstrip_tight; reflexivity).
  rewrite Hr.
  assert (Hs : sub_comma_bracket_end t = t).
  { unfold sub_comma_bracket_end. apply sub_absent. rewrite Ht.
    apply search_comma_bracket_end_comma. }
  rewrite Hs.
  assert (He : endswith t [RBRACKET] = false)
    by (rewrite Ht; apply endswith_other; discriminate).
  rewrite He.
  destruct (finditer_last (LBRACKET :: x)) as [ms Hms].
  change ((LBRACKET :: x) ++ [RBRACE; COMMA]) with t in Hms. rewrite Hms.
  cbn [first_candidate].
  assert (Hcand : firstn (length (LBRACKET :: x) + 1) t ++ [RBRACKET]
                  = LBRACKET :: x ++ [RBRACE; RBRACKET]).
  { replace (length (LBRACKET :: x) + 1)%nat with (length (LBRACKET :: x ++ [RBRACE]))
      by (simpl; rewrite length_app; simpl; lia).
    rewrite Ht, firstn_length_app. simpl. rewrite <- app_assoc. reflexivity. }
  rewrite Hcand.
  assert (Hsc : sub_comma_bracket (LBRACKET :: x ++ [RBRACE; RBRACKET])
                = LBRACKET :: x ++ [RBRACE; RBRACKET]) by (apply sub_absent, Hc).
  rewrite Hsc, Hl. reflexivity.
Qed.

(** The parser on such a cut text returns the list of the objects before
    the cut. *)
Lemma parse_truncated_text (x : text) (l : list pyval) :
  contains (LBRACKET :: x ++ [RBRACE; COMMA]) FENCE = false ->
  search m_comma_bracket (LBRACKET :: x ++ [RBRACE; RBRACKET]) = false ->
  loads (LBRACKET :: x ++ [RBRACE; RBRACKET]) = Some (PList l) ->
  _parse_issues_json (LBRACKET :: x ++ [RBRACE; COMMA]) = Ok l.
Proof.
  intros Hf Hc Hl. unfold _parse_issues_json.
  assert (Ht : LBRACKET :: x ++ [RBRACE; COMMA] = LBRACKET :: (x ++ [RBRACE]) ++ [COMMA]).
  { rewrite <- app_assoc. reflexivity. }
  rewrite Ht in *.
  rewrite strip_tight by reflexivity.
  rewrite remove_fences_id by (reflexivity || exact Hf).
  rewrite from_first_bracket_id by reflexivity.
  unfold repaired_text, needs_rescue.
  change (is_empty (LBRACKET :: (x ++ [RBRACE]) ++ [COMMA])) with false.
  assert (He : endswith (LBRACKET :: (x ++ [RBRACE]) ++ [COMMA]) [RBRACKET] = false).
  { change (LBRACKET :: (x ++ [RBRACE]) ++ [COMMA])
      with ((LBRACKET :: x ++ [RBRACE]) ++ [COMMA]).
    apply endswith_other. discriminate. }
  rewrite He. simpl andb. cbv iota.
  rewrite <- Ht. rewrite (rescue_truncated _ _ Hc Hl).
  unfold sub_comma_bracket. rewrite (sub_absent _ _ _ Hc). rewrite Hl. reflexivity.
Qed.

End ParserFacts.

(** ** The decoder reads back what the serializer wrote *)

Section RoundTrip.
Import PyStr Json Wire Inv.
Local Open Scope N_scope.

(** *** Strings *)

Lemma hexval_hexdigit (d : N) : d < 16 -> hexval (hexdigit d) = Some d.
Proof.
  intros H. unfold hexdigit, hexval.
  destruct (N.ltb_spec d 10) as [L | L].
  - replace ((48 <=? 48 + d) && (48 + d <=? 57)) with true.
    + f_equal. lia.
    + symmetry. apply andb_true_iff. split; apply N.leb_le; lia.
  - replace ((48 <=? 87 + d) && (87 + d <=? 57)) with false.
    + replace ((97 <=? 87 + d) && (87 + d <=? 102)) with true.
      * f_equal. lia.
      * symmetry. apply andb_true_iff. split; apply N.leb_le; lia.
    + symmetry. apply andb_false_iff. right. apply N.leb_gt. lia.
Qed.

Lemma decode_u_escape (n : N) (r : text) :
  n < 65536 ->
  decode_u4 (hexdigit (n / 4096) :: hexdigit ((n / 256) mod 16)
             :: hexdigit ((n / 16) mod 16) :: hexdigit (n mod 16) :: r) = Some n.
Proof.
  intros H. unfold decode_u4.
  rewrite !hexval_hexdigit.
  - f_equal.
    assert (A1 : n / 16 / 16 = n / 256) by (rewrite N.Div0.div_div; reflexivity).
    assert (A2 : n / 256 / 16 = n / 4096) by (rewrite N.Div0.div_div; reflexivity).
    pose proof (N.div_mod n 16 ltac:(lia)) as E0.
    pose proof (N.div_mod (n / 16) 16 ltac:(lia)) as E1.
    pose proof (N.div_mod (n / 256) 16 ltac:(lia)) as E2.
    rewrite A1 in E1. rewrite A2 in E2. lia.
  - apply N.mod_lt. lia.
  - apply N.mod_lt. lia.
  - apply N.mod_lt. lia.
  - apply N.Div0.div_lt_upper_bound. lia.
Qed.

Lemma scanstring_from_skip (a r : text) :
  scanstring_from (length a) (a ++ r) = scanstring_from 0 r.
Proof. induction a as [| c a IH]; simpl; [reflexivity | exact IH]. Qed.

Lemma scanstring_from_verbatim (c : N) (rest : text) :
  c <> QUOTE -> c <> BACKSLASH -> 32 <= c ->
  scanstring_from 0 (c :: rest) =
  match scanstring_from 0 rest with
  | Some (str, r) => Some (c :: str, r)
  | None => None
  end.
Proof.
  intros Hq Hb Hc. cbn [scanstring_from].
  apply N.eqb_neq in Hq, Hb. rewrite Hq, Hb.
  replace (c <? 32) with false by (symmetry; apply N.ltb_ge; exact Hc).
  reflexivity.
Qed.

Lemma scanstring_from_escape (rest : text) (ch : N) (n : nat) :
  scan_escape rest = Some (ch, n) ->
  scanstring_from 0 (BACKSLASH :: rest) =
  match scanstring_from n rest with
  | Some (str, r) => Some (ch :: str, r)
  | None => None
  end.
Proof. intros H. cbn [scanstring_from]. rewrite H. reflexivity. Qed.

Lemma scan_escape_simple (e ch : N) (rest : text) :
  e <> 117 -> simple_escape e = Some ch -> scan_escape (e :: rest) = Some (ch, 1%nat).
Proof.
  intros He H. unfold scan_escape. apply N.eqb_neq in He. rewrite He, H. reflexivity.
Qed.

Lemma scan_escape_u (n : N) (rest : text) :
  n < 65536 -> is_high_surrogate n = false ->
  scan_escape (tl (u_escape n) ++ rest) = Some (n, 5%nat).
Proof.
  intros Hn Hs. unfold u_escape. cbn [tl app scan_escape].
  rewrite N.eqb_refl, decode_u_escape by exact Hn. rewrite Hs. reflexivity.
Qed.

Lemma scan_escape_pair (hi lo : N) (rest : text) :
  is_high_surrogate hi = true -> is_low_surrogate lo = true ->
  scan_escape (tl (u_escape hi) ++ u_escape lo ++ rest)
    = Some (join_surrogates hi lo, 11%nat).
Proof.
  intros Hh Hl. unfold u_escape. cbn [tl app scan_escape].
  assert (Bh : hi < 65536).
  { unfold is_high_surrogate in Hh. apply andb_true_iff in Hh as [_ Hx].
    apply N.leb_le in Hx. lia. }
  assert (Bl : lo < 65536).
  { unfold is_low_surrogate in Hl. apply andb_true_iff in Hl as [_ Hx].
    apply N.leb_le in Hx. lia. }
  rewrite N.eqb_refl, decode_u_escape by assumption. rewrite Hh.
  cbn [skipn startswith]. rewrite !N.eqb_refl. cbn [andb].
  rewrite decode_u_escape by assumption. rewrite Hl. reflexivity.
Qed.

(** One character, as written, is read back as itself. *)
Lemma scan_escaped_char (c : N) (rest str r : text) :
  scalar_value c = true ->
  scanstring_from 0 rest = Some (str, r) ->
  scanstring_from 0 (escape_char c ++ rest) = Some (c :: str, r).
Proof.
  intros Hv Hrest. unfold escape_char.
  assert (Hsimple : forall e, e <> 117 -> simple_escape e = Some c ->
            scanstring_from 0 ([BACKSLASH; e] ++ rest) = Some (c :: str, r)).
  { intros e He Hs. cbn [app].
    rewrite (scanstring_from_escape _ _ _ (scan_escape_simple e c rest He Hs)).
    cbn [scanstring_from]. rewrite Hrest. reflexivity. }
  destruct (N.eqb_spec c QUOTE) as [-> | Hq]; [apply Hsimple; [discriminate | reflexivity] |].
  destruct (N.eqb_spec c BACKSLASH) as [-> | Hb];
    [apply Hsimple; [discriminate | reflexivity] |].
  destruct (N.eqb_spec c 10) as [-> | H10]; [apply Hsimple; [discriminate | reflexivity] |].
  destruct (N.eqb_spec c 13) as [-> | H13]; [apply Hsimple; [discriminate | reflexivity] |].
  destruct (N.eqb_spec c 9) as [-> | H9]; [apply Hsimple; [discriminate | reflexivity] |].
  destruct (N.eqb_spec c 8) as [-> | H8]; [apply Hsimple; [discriminate | reflexivity] |].
  destruct (N.eqb_spec c 12) as [-> | H12]; [apply Hsimple; [discriminate | reflexivity] |].
  destruct ((32 <=? c) && (c <=? 126)) eqn:Hp.
  - apply andb_true_iff in Hp as [Hp _]. apply N.leb_le in Hp.
    cbn [app]. rewrite scanstring_from_verbatim by assumption. rewrite Hrest. reflexivity.
  - unfold scalar_value in Hv.
    destruct (N.ltb_spec c 65536) as [Hlt | Hge].
    + assert (Hs : is_high_surrogate c = false).
      { unfold is_high_surrogate. apply orb_true_iff in Hv as [Hv | Hv].
        - apply N.ltb_lt in Hv. apply andb_false_iff. left. apply N.leb_gt. lia.
        - apply andb_true_iff in Hv as [Hv _]. apply N.leb_le in Hv.
          apply andb_false_iff. right. apply N.leb_gt. lia. }
      change (u_escape c ++ rest) with (BACKSLASH :: tl (u_escape c) ++ rest).
      rewrite (scanstring_from_escape _ _ _ (scan_escape_u c rest Hlt Hs)).
      unfold u_escape. cbn [tl app scanstring_from]. rewrite Hrest. reflexivity.
    + assert (Hc : c < 1114112).
      { apply orb_true_iff in Hv as [Hv | Hv].
        - apply N.ltb_lt in Hv. lia.
        - apply andb_true_iff in Hv as [_ Hv]. apply N.ltb_lt in Hv. exact Hv. }
      pose proof (N.div_mod (c - 65536) 1024 ltac:(lia)) as Edm.
      assert (Hq1 : (c - 65536) / 1024 < 1024)
        by (apply N.Div0.div_lt_upper_bound; lia).
      assert (Hm1 : (c - 65536) mod 1024 < 1024) by (apply N.mod_lt; lia).
      set (q := (c - 65536) / 1024) in *. set (m := (c - 65536) mod 1024) in *.
      set (hi := 55296 + q). set (lo := 56320 + m).
      assert (Hh : is_high_surrogate hi = true).
      { unfold is_high_surrogate, hi. apply andb_true_iff. split; apply N.leb_le; lia. }
      assert (Hl : is_low_surrogate lo = true).
      { unfold is_low_surrogate, lo. apply andb_true_iff. split; apply N.leb_le; lia. }
      assert (Hj : join_surrogates hi lo = c).
      { unfold join_surrogates, hi, lo. lia. }
      rewrite <- app_assoc.
      change (u_escape hi ++ u_escape lo ++ rest)
        with (BACKSLASH :: tl (u_escape hi) ++ u_escape lo ++ rest).
      rewrite (scanstring_from_escape _ _ _ (scan_escape_pair hi lo rest Hh Hl)).
      rewrite Hj.
      unfold u_escape. cbn [tl app scanstring_from]. rewrite Hrest. reflexivity.
Qed.

(** A string, as written, is read back as itself. *)
Lemma scanstring_quote (s r : text) :
  valid_text s = true ->
  scanstring (flat_map escape_char s ++ QUOTE :: r) = Some (s, r).
Proof.
  unfold scanstring. induction s as [| c s IH]; intros Hv.
  - simpl. reflexivity.
  - simpl in Hv. apply andb_true_iff in Hv as [Hc Hs].
    cbn [flat_map]. rewrite <- app_assoc.
    apply scan_escaped_char; [exact Hc | apply IH, Hs].
Qed.

(** *** Integers *)

Lemma read_digits_uint (d : Decimal.uint) (r : text) :
  delim r = true -> read_digits (uint_text d ++ r) = (d, r).
Proof.
  intros Hr. induction d; cbn [uint_text app read_digits];
    try (change (is_digit 48) with true; change (is_digit 49) with true;
         change (is_digit 50) with true; change (is_digit 51) with true;
         change (is_digit 52) with true; change (is_digit 53) with true;
         change (is_digit 54) with true; change (is_digit 55) with true;
         change (is_digit 56) with true; change (is_digit 57) with true;
         cbv iota; rewrite IHd; reflexivity).
  destruct r as [| c r]; [reflexivity |].
  simpl in Hr. apply negb_true_iff in Hr. unfold numchar in Hr.
  cbn [read_digits]. repeat (apply orb_false_iff in Hr as [Hr _]). rewrite Hr. reflexivity.
Qed.

Lemma pos_to_uint_head (p : positive) :
  exists c ds, uint_text (Pos.to_uint p) = c :: ds /\ is_digit c = true /\ c <> 48.
Proof.
  pose proof (DecimalN.Unsigned.to_of (N.to_uint (N.pos p))) as E.
  rewrite DecimalN.Unsigned.of_to in E. cbn [N.to_uint] in E.
  pose proof (DecimalPos.Unsigned.to_uint_nonzero p) as Hnz.
  pose proof (DecimalPos.Unsigned.to_uint_nonnil p) as Hnn.
  assert (Hh : Decimal.nzhead (Pos.to_uint p) <> Decimal.Nil).
  { intros H. apply DecimalFacts.unorm_0 in H. congruence. }
  rewrite (DecimalFacts.unorm_nzhead _ Hh) in E.
  pose proof (DecimalFacts.nzhead_nonzero (Pos.to_uint p)) as Hd0.
  rewrite <- E in Hd0.
  destruct (Pos.to_uint p) as [| u | u | u | u | u | u | u | u | u | u];
    try contradiction; try (exfalso; eapply Hd0; reflexivity);
    cbn [uint_text]; eexists _, _; (split; [reflexivity | split; [reflexivity | discriminate]]).
Qed.

Lemma delim_no_fraction (r : text) (A : Type) (x y : A) :
  delim r = true ->
  match r with
  | p :: (q :: _) => if (p =? DOT) && is_digit q then x else y
  | _ => y
  end = y.
Proof.
  intros Hr. destruct r as [| p [| q t]]; try reflexivity.
  simpl in Hr. apply negb_true_iff in Hr. unfold numchar in Hr.
  repeat (apply orb_false_iff in Hr as [Hr ?]). 
  replace (p =? DOT) with false by (symmetry; assumption). reflexivity.
Qed.

Lemma delim_no_exponent (r : text) :
  delim r = true ->
  match r with
  | [] => false
  | e :: _ => (e =? 101) || (e =? 69)
  end = false.
Proof.
  intros Hr. destruct r as [| e t]; [reflexivity |].
  simpl in Hr. apply negb_true_iff in Hr. unfold numchar in Hr.
  repeat (apply orb_false_iff in Hr as [Hr ?]).
  apply orb_false_iff. split; assumption.
Qed.

Lemma delim_head (x : N) (t : text) :
  delim (x :: t) = true ->
  is_digit x = false /\ (x =? MINUS) = false /\ (x =? DOT) = false /\
  (x =? 101) = false /\ (x =? 69) = false.
Proof.
  simpl. intros Hr. apply negb_true_iff in Hr. unfold numchar in Hr.
  repeat (apply orb_false_iff in Hr as [Hr ?]). repeat split; assumption.
Qed.

(** The scan of a number once its integer part [int] is read and [r] is
    what follows it. *)
Lemma scan_number_after_int (negative : bool) (int : Decimal.uint) (r : text) :
  delim r = true ->
  (let (frac, s3) :=
     match r with
     | p :: (q :: _) as r2 =>
         if (p =? DOT) && is_digit q
         then let (fd, rest) := read_digits r2 in (Some fd, rest)
         else (None, r)
     | _ => (None, r)
     end in
   let (exp, s4) :=
     match s3 with
     | e :: r3 =>
         if (e =? 101) || (e =? 69) then
           let (neg_e, r4) :=
             match r3 with
             | sg :: r' =>
                 if sg =? MINUS then (true, r')
                 else if sg =? PLUS then (false, r')
                 else (false, r3)
             | [] => (false, r3)
             end in
           match read_digits r4 with
           | (Decimal.Nil, _) => (None, s3)
           | (ed, rest) => (Some (neg_e, ed), rest)
           end
         else (None, s3)
     | [] => (None, s3)
     end in
   match frac, exp with
   | None, None => Some (PInt (signed negative (N.of_uint int)), s4)
   | _, _ =>
       Some (PFloat (to_float negative
                       (dec_value negative int
                          (match frac with Some fd => fd | None => Decimal.Nil end)
                          exp)), s4)
   end) = Some (PInt (signed negative (N.of_uint int)), r).
Proof.
  intros Hr. destruct r as [| x t]; [reflexivity |].
  destruct (delim_head _ _ Hr) as (_ & _ & Hdot & He1 & He2).
  destruct t as [| y t]; rewrite ?Hdot; cbn [andb]; rewrite He1, He2; reflexivity.
Qed.

Lemma scan_number_uint (negative : bool) (d : Decimal.uint) (c : N) (ds r : text) :
  uint_text d = c :: ds -> is_digit c = true ->
  (c = 48 -> d = Decimal.D0 Decimal.Nil) -> delim r = true ->
  scan_number ((if negative then [MINUS] else []) ++ uint_text d ++ r)
    = Some (PInt (signed negative (N.of_uint d)), r).
Proof.
  intros Hd Hc H0 Hr.
  assert (Hm : (c =? MINUS) = false).
  { unfold is_digit in Hc. apply andb_true_iff in Hc as [Hc _]. apply N.leb_le in Hc.
    apply N.eqb_neq. unfold MINUS. lia. }
  assert (Hint : (if c =? 48 then (Decimal.D0 Decimal.Nil, ds ++ r)
                  else read_digits (c :: ds ++ r)) = (d, r)).
  { destruct (N.eqb_spec c 48) as [E | E].
    - rewrite (H0 E) in Hd |- *. cbn [uint_text] in Hd. injection Hd as _ <-. reflexivity.
    - change (c :: ds ++ r) with ((c :: ds) ++ r). rewrite <- Hd.
      apply read_digits_uint, Hr. }
  unfold scan_number. destruct negative; cbn [app]; rewrite Hd; cbn [app].
  - change (MINUS =? MINUS) with true. cbv iota. rewrite Hc, Hint.
    apply scan_number_after_int, Hr.
  - rewrite Hm, Hc, Hint. apply scan_number_after_int, Hr.
Qed.

(** An integer, as written, is read back as itself. *)
Lemma scan_number_int (z : Z) (r : text) :
  delim r = true -> scan_number (int_text z ++ r) = Some (PInt z, r).
Proof.
  intros Hr. unfold int_text. destruct z as [| p | p].
  - apply (scan_number_uint false (Decimal.D0 Decimal.Nil) 48 [] r); auto.
  - destruct (pos_to_uint_head p) as [c [ds [Hd [Hc H48]]]].
    etransitivity;
      [apply (scan_number_uint false _ c ds r Hd Hc); [contradiction | exact Hr] |].
    cbn [signed]. change (N.of_uint (Pos.to_uint p)) with (Pos.of_uint (Pos.to_uint p)).
    rewrite DecimalPos.Unsigned.of_to. reflexivity.
  - destruct (pos_to_uint_head p) as [c [ds [Hd [Hc H48]]]].
    etransitivity;
      [apply (scan_number_uint true _ c ds r Hd Hc); [contradiction | exact Hr] |].
    cbn [signed]. change (N.of_uint (Pos.to_uint p)) with (Pos.of_uint (Pos.to_uint p)).
    rewrite DecimalPos.Unsigned.of_to. reflexivity.
Qed.

Lemma int_text_head (z : Z) :
  exists c t, int_text z = c :: t /\ (c = MINUS \/ is_digit c = true).
Proof.
  unfold int_text. destruct z as [| p | p].
  - exists 48, []. split; [reflexivity | right; reflexivity].
  - destruct (pos_to_uint_head p) as [c [ds [Hd [Hc _]]]].
    exists c, ds. split; [exact Hd | right; exact Hc].
  - exists MINUS, (uint_text (Pos.to_uint p)). split; [reflexivity | left; reflexivity].
Qed.

(** *** Values *)

(** Induction over a value and the values inside it. *)
Lemma jv_nested_ind (P : jv -> Prop) :
  P JNull -> (forall b, P (JBool b)) -> (forall z, P (JInt z)) -> (forall s, P (JStr s)) ->
  (forall l, Forall P l -> P (JArr l)) ->
  (forall d, Forall (fun kv => P (snd kv)) d -> P (JObj d)) ->
  forall j, P j.
Proof.
  intros Hn Hb Hi Hs Ha Ho. fix IH 1. intros [| b | z | s | l | d].
  - exact Hn.
  - apply Hb.
  - apply Hi.
  - apply Hs.
  - apply Ha. induction l as [| x l IHl]; constructor; [apply IH | exact IHl].
  - apply Ho. induction d as [| [k v] d IHd]; constructor; [apply IH | exact IHd].
Qed.

Lemma join_cons (sep x : text) (l : list text) :
  join sep (x :: l) = x ++ flat_map (fun y => sep ++ y) l.
Proof.
  revert x. induction l as [| y l IH]; intros x.
  - simpl. rewrite app_nil_r. reflexivity.
  - change (join sep (x :: y :: l)) with (x ++ sep ++ join sep (y :: l)).
    rewrite IH. cbn [flat_map]. rewrite <- app_assoc. reflexivity.
Qed.

Lemma dumps_head (j : jv) : exists c t, dumps j = c :: t /\ value_start c.
Proof.
  unfold value_start. destruct j as [| [|] | z | s | l | d]; cbn [dumps].
  - exists 110, [117; 108; 108]. split; [reflexivity | tauto].
  - exists 116, [114; 117; 101]. split; [reflexivity | tauto].
  - exists 102, [97; 108; 115; 101]. split; [reflexivity | tauto].
  - destruct (int_text_head z) as [c [t [E H]]]. exists c, t. split; [exact E | tauto].
  - eexists _, _. split; [reflexivity | tauto].
  - eexists _, _. split; [reflexivity | tauto].
  - eexists _, _. split; [reflexivity | tauto].
Qed.

Lemma value_start_not_ws (c : N) : value_start c -> is_json_ws c = false.
Proof.
  unfold value_start, is_digit, is_json_ws.
  intros [-> | [-> | [-> | [-> | [-> | [-> | [-> | H]]]]]]]; try reflexivity.
  apply andb_true_iff in H as [H _]. apply N.leb_le in H.
  repeat (apply orb_false_iff; split); apply N.eqb_neq; lia.
Qed.

Lemma skip_ws_dumps (j : jv) (r : text) : skip_ws (dumps j ++ r) = dumps j ++ r.
Proof.
  destruct (dumps_head j) as [c [t [E H]]]. rewrite E. cbn [app skip_ws].
  rewrite (value_start_not_ws _ H). reflexivity.
Qed.

Lemma skip_ws_space_dumps (j : jv) (r : text) :
  skip_ws (32 :: dumps j ++ r) = dumps j ++ r.
Proof. cbn [skip_ws]. change (is_json_ws 32) with true. cbv iota. apply skip_ws_dumps. Qed.

(** *** Dictionaries with distinct keys *)

Lemma text_eqb_sym (a b : text) : text_eqb a b = text_eqb b a.
Proof.
  destruct (text_eqb a b) eqn:E1, (text_eqb b a) eqn:E2; try reflexivity.
  - apply text_eqb_eq in E1. subst. rewrite text_eqb_refl in E2. discriminate.
  - apply text_eqb_eq in E2. subst. rewrite text_eqb_refl in E1. discriminate.
Qed.

Lemma dict_set_fresh (acc : list (text * pyval)) (k : text) (v : pyval) :
  existsb (text_eqb k) (map fst acc) = false -> dict_set acc k v = acc ++ [(k, v)].
Proof.
  induction acc as [| [k' v'] acc IH]; intros H; simpl; [reflexivity |].
  simpl in H. apply orb_false_iff in H as [H1 H2].
  rewrite text_eqb_sym, H1. f_equal. apply IH, H2.
Qed.

Lemma existsb_app_false {A : Type} (p : A -> bool) (a b : list A) :
  existsb p (a ++ b) = false <-> existsb p a = false /\ existsb p b = false.
Proof. rewrite existsb_app. apply orb_false_iff. Qed.

Lemma fold_dict_set_distinct (ps acc : list (text * pyval)) :
  distinct (map fst ps) = true ->
  (forall k, In k (map fst ps) -> existsb (text_eqb k) (map fst acc) = false) ->
  fold_left (fun d kv => dict_set d (fst kv) (snd kv)) ps acc = acc ++ ps.
Proof.
  revert acc. induction ps as [| [k v] ps IH]; intros acc Hd Hacc.
  - simpl. rewrite app_nil_r. reflexivity.
  - cbn [fold_left fst snd]. cbn [map fst distinct] in Hd.
    apply andb_true_iff in Hd as [Hk Hd]. apply negb_true_iff in Hk.
    rewrite dict_set_fresh by (apply Hacc; left; reflexivity).
    rewrite IH.
    + rewrite <- app_assoc. reflexivity.
    + exact Hd.
    + intros k' Hk'. rewrite map_app. apply existsb_app_false. split.
      * apply Hacc. right. exact Hk'.
      * cbn [map fst existsb]. rewrite orb_false_r.
        destruct (text_eqb k' k) eqn:E; [| reflexivity].
        apply text_eqb_eq in E. subst k'.
        exfalso. assert (existsb (text_eqb k) (map fst ps) = true) as Hx.
        { apply existsb_exists. exists k. split; [exact Hk' | apply text_eqb_refl]. }
        congruence.
Qed.

Lemma dict_of_pairs_distinct (ps : list (text * pyval)) :
  distinct (map fst ps) = true -> dict_of_pairs ps = ps.
Proof.
  intros H. unfold dict_of_pairs. rewrite fold_dict_set_distinct; [reflexivity | exact H |].
  intros k _. reflexivity.
Qed.

(** *** One value *)

Lemma value_start_dispatch (c : N) :
  c = MINUS \/ is_digit c = true ->
  (c =? QUOTE) = false /\ (c =? LBRACE) = false /\ (c =? LBRACKET) = false /\
  (110 =? c) = false /\ (116 =? c) = false /\ (102 =? c) = false.
Proof.
  intros [-> | H]; [repeat split; reflexivity |].
  unfold is_digit in H. apply andb_true_iff in H as [H1 H2].
  apply N.leb_le in H1, H2. unfold QUOTE, LBRACE, LBRACKET.
  repeat split; apply N.eqb_neq; lia.
Qed.

Lemma parse_value_int (f : nat) (z : Z) (r : text) :
  delim r = true -> parse_value (S f) (int_text z ++ r) = Parsed (PInt z) r.
Proof.
  intros Hr. rewrite parse_value_S.
  pose proof (scan_number_int z r Hr) as Hscan.
  destruct (int_text_head z) as [c [t [E H]]]. rewrite E in *. cbn [app] in *.
  destruct (value_start_dispatch c H) as (H1 & H2 & H3 & H4 & H5 & H6).
  rewrite H1, H2, H3. cbn [startswith NULL TRUE FALSE]. rewrite H4, H5, H6.
  cbn [andb]. rewrite Hscan. reflexivity.
Qed.

Lemma parse_value_str (f : nat) (s r : text) :
  valid_text s = true -> parse_value (S f) (quote s ++ r) = Parsed (PStr s) r.
Proof.
  intros Hs. rewrite parse_value_S. unfold quote. cbn [app].
  rewrite N.eqb_refl. rewrite <- app_assoc. cbn [app].
  rewrite scanstring_quote by exact Hs. reflexivity.
Qed.

Lemma join_item_sep (x : text) (l : list text) :
  join ITEM_SEP (x :: l) = x ++ flat_map after_sep l.
Proof. apply join_cons. Qed.

Lemma flat_map_after_sep (y : text) (l : list text) (r : text) :
  flat_map after_sep (y :: l) ++ r = COMMA :: 32 :: y ++ flat_map after_sep l ++ r.
Proof. cbn [flat_map]. unfold after_sep at 1. rewrite <- !app_assoc. reflexivity. Qed.

Lemma parse_elements_dumps (l : list jv) :
  Forall reads_back l -> forallb wf l = true ->
  forall x f r, reads_back x -> wf x = true ->
  (S (jsize x) + elements_size l <= f)%nat ->
  parse_elements f (dumps x ++ flat_map after_sep (map dumps l) ++ RBRACKET :: r)
    = Parsed (to_py x :: map to_py l) r.
Proof.
  induction l as [| y l IH]; intros HP Hwf x f r Hx Hwx Hf;
    (destruct f as [| f]; [simpl in Hf; lia |]); rewrite parse_elements_S.
  - cbn [map flat_map app].
    rewrite (Hx Hwx f (RBRACKET :: r)) by (reflexivity || (simpl in Hf; lia)).
    reflexivity.
  - rewrite map_cons, flat_map_after_sep.
    rewrite (Hx Hwx f) by (reflexivity || (simpl in Hf; lia)).
    cbn [skip_ws]. change (is_json_ws COMMA) with false. cbv iota.
    change (COMMA =? RBRACKET) with false. change (COMMA =? COMMA) with true. cbv iota.
    rewrite skip_ws_space_dumps.
    inversion HP as [| ? ? Hy HP']; subst.
    cbn [forallb] in Hwf. apply andb_true_iff in Hwf as [Hwy Hwl].
    rewrite (IH HP' Hwl y f r Hy Hwy) by (simpl in Hf |- *; lia).
    reflexivity.
Qed.

Lemma member_text_cons (k : text) (v : jv) (r : text) :
  member_text (k, v) ++ r
  = QUOTE :: flat_map escape_char k ++ QUOTE :: COLON :: 32 :: dumps v ++ r.
Proof.
  unfold member_text, quote, KEY_SEP. cbn [app]. rewrite <- !app_assoc. reflexivity.
Qed.

Lemma parse_members_dumps (d : list (text * jv)) :
  Forall (fun kv => reads_back (snd kv)) d ->
  forallb (fun kv => match kv with (k, v) => valid_text k && wf v end) d = true ->
  forall k v f r, reads_back v -> valid_text k = true -> wf v = true ->
  (S (jsize v) + members_size d <= f)%nat ->
  parse_members f (flat_map escape_char k ++ QUOTE :: COLON :: 32 :: dumps v
                   ++ flat_map after_sep (map member_text d) ++ RBRACE :: r)
    = Parsed ((k, to_py v) :: map member_py d) r.
Proof.
  induction d as [| [k' v'] d IH]; intros HP Hwf k v f r Hv Hk Hwv Hf;
    (destruct f as [| f]; [simpl in Hf; lia |]); rewrite parse_members_S;
    rewrite scanstring_quote by exact Hk;
    cbn [skip_ws]; change (is_json_ws COLON) with false; cbv iota;
    change (COLON =? COLON) with true; cbv iota;
    rewrite skip_ws_space_dumps.
  - cbn [map flat_map app].
    rewrite (Hv Hwv f (RBRACE :: r)) by (reflexivity || (simpl in Hf; lia)).
    reflexivity.
  - rewrite map_cons, flat_map_after_sep, member_text_cons.
    rewrite (Hv Hwv f) by (reflexivity || (simpl in Hf; lia)).
    cbn [skip_ws]. change (is_json_ws COMMA) with false. cbv iota.
    change (COMMA =? RBRACE) with false. change (COMMA =? COMMA) with true. cbv iota.
    cbn [skip_ws]. change (is_json_ws 32) with true. cbv iota.
    change (is_json_ws QUOTE) with false. cbv iota.
    change (QUOTE =? QUOTE) with true. cbv iota.
    inversion HP as [| ? ? Hv' HP']; subst. cbn [snd] in Hv'.
    cbn [forallb] in Hwf. apply andb_true_iff in Hwf as [Hkv Hwd].
    apply andb_true_iff in Hkv as [Hk' Hwv'].
    rewrite (IH HP' Hwd k' v' f r Hv' Hk' Hwv') by (simpl in Hf |- *; lia).
    reflexivity.
Qed.

Lemma value_start_not_closing (c : N) : value_start c -> (c =? RBRACKET) = false.
Proof.
  unfold value_start, is_digit. intros Hc. apply N.eqb_neq. unfold RBRACKET.
  destruct Hc as [-> | [-> | [-> | [-> | [-> | [-> | [-> | H]]]]]]]; try discriminate.
  apply andb_true_iff in H as [_ H]. apply N.leb_le in H. lia.
Qed.

(** The decoder reads a written value back, whatever follows it that does
    not continue a number. *)
Lemma parse_dumps (j : jv) : reads_back j.
Proof.
  induction j as [| b | z | s | l IHl | d IHd] using jv_nested_ind;
    intros Hwf f r Hf Hr; (destruct f as [| f]; [simpl in Hf; lia |]).
  - reflexivity.
  - destruct b; reflexivity.
  - apply parse_value_int, Hr.
  - apply parse_value_str, Hwf.
  - cbn [dumps to_py]. destruct l as [| x l].
    + reflexivity.
    + rewrite map_cons, join_item_sep. rewrite parse_value_S.
      cbn [app]. change (LBRACKET =? QUOTE) with false.
      change (LBRACKET =? LBRACE) with false. change (LBRACKET =? LBRACKET) with true.
      cbv iota. rewrite <- !app_assoc. rewrite skip_ws_dumps.
      inversion IHl as [| ? ? Hx Hl]; subst.
      cbn [wf forallb] in Hwf. apply andb_true_iff in Hwf as [Hwx Hwl].
      pose proof (parse_elements_dumps l Hl Hwl x f r Hx Hwx) as E.
      cbn [app] in E.
      destruct (dumps_head x) as [c [t [Ec Hc]]].
      rewrite Ec in *. cbn [app] in *.
      rewrite (value_start_not_closing c Hc).
      rewrite E by (cbn [jsize fold_right] in Hf; unfold elements_size; lia).
      reflexivity.
  - cbn [dumps to_py]. destruct d as [| [k v] d].
    + reflexivity.
    + change (fun kv : text * jv => let (k0, v0) := kv in quote k0 ++ KEY_SEP ++ dumps v0)
        with member_text.
      change (fun kv : text * jv => let (k0, v0) := kv in (k0, to_py v0)) with member_py.
      rewrite map_cons, join_item_sep. rewrite parse_value_S.
      cbn [app]. change (LBRACE =? QUOTE) with false.
      change (LBRACE =? LBRACE) with true. cbv iota.
      rewrite <- !app_assoc. rewrite member_text_cons. cbn [skip_ws].
      change (is_json_ws QUOTE) with false. cbv iota.
      change (QUOTE =? RBRACE) with false. change (QUOTE =? QUOTE) with true. cbv iota.
      inversion IHd as [| ? ? Hv Hd]; subst. cbn [snd] in Hv.
      cbn [wf forallb map fst] in Hwf.
      apply andb_true_iff in Hwf as [Hwf Hdist].
      apply andb_true_iff in Hwf as [Hkv Hwd].
      apply andb_true_iff in Hkv as [Hk Hwv].
      cbn [app].
      assert (E : parse_members f
                    (flat_map escape_char k ++ QUOTE :: COLON :: 32 :: dumps v
                     ++ flat_map after_sep (map member_text d) ++ RBRACE :: r)
                  = Parsed ((k, to_py v) :: map member_py d) r).
      { apply (parse_members_dumps d Hd Hwd k v f r Hv Hk Hwv).
        cbn [jsize fold_right] in Hf. unfold members_size. lia. }
      refine (eq_trans (f_equal _ E) _).
      cbn [lift_parsed]. f_equal. f_equal.
      change ((k, to_py v) :: map member_py d) with (map member_py ((k, v) :: d)).
      rewrite dict_of_pairs_distinct.
      * reflexivity.
      * rewrite map_map.
        replace (map (fun x => fst (member_py x)) ((k, v) :: d))
          with (map fst ((k, v) :: d)); [exact Hdist |].
        apply map_ext. intros [k0 v0]. reflexivity.
Qed.

(** *** The budget of [loads] covers what [dumps] wrote *)

Lemma after_sep_length (y : text) : length (after_sep y) = (2 + length y)%nat.
Proof. reflexivity. Qed.

Lemma elements_size_le (l : list jv) :
  Forall (fun x => (jsize x <= length (dumps x))%nat) l ->
  (elements_size l <= length (flat_map after_sep (map dumps l)))%nat.
Proof.
  induction 1 as [| x l Hx _ IH]; [simpl; lia |].
  change (elements_size (x :: l)) with (S (jsize x) + elements_size l)%nat.
  rewrite map_cons. cbn [flat_map]. rewrite length_app, after_sep_length. lia.
Qed.

Lemma members_size_le (d : list (text * jv)) :
  Forall (fun kv => (jsize (snd kv) <= length (dumps (snd kv)))%nat) d ->
  (members_size d <= length (flat_map after_sep (map member_text d)))%nat.
Proof.
  induction 1 as [| [k v] d Hv _ IH]; [simpl; lia |].
  cbn [snd] in Hv.
  change (members_size ((k, v) :: d)) with (S (jsize v) + members_size d)%nat.
  rewrite map_cons. cbn [flat_map].
  rewrite length_app, after_sep_length. unfold member_text at 1.
  rewrite !length_app. lia.
Qed.

Lemma jsize_le_length (j : jv) : (jsize j <= length (dumps j))%nat.
Proof.
  induction j as [| b | z | s | l IHl | d IHd] using jv_nested_ind.
  - simpl. lia.
  - destruct b; simpl; lia.
  - cbn [jsize dumps]. destruct (int_text_head z) as [c [t [E _]]]. rewrite E. simpl. lia.
  - cbn [jsize dumps]. unfold quote. simpl. lia.
  - cbn [jsize dumps]. fold (elements_size l). destruct l as [| x l]; [simpl; lia |].
    rewrite map_cons, join_item_sep. inversion IHl as [| ? ? Hx Hl]; subst.
    pose proof (elements_size_le l Hl) as H.
    change (elements_size (x :: l)) with (S (jsize x) + elements_size l)%nat.
    cbn [length]. rewrite !length_app. cbn [length]. lia.
  - cbn [jsize dumps].
    change (fun kv : text * jv => let (k0, v0) := kv in quote k0 ++ KEY_SEP ++ dumps v0)
      with member_text.
    fold (members_size d). destruct d as [| [k v] d]; [simpl; lia |].
    rewrite map_cons, join_item_sep. inversion IHd as [| ? ? Hv Hd]; subst.
    pose proof (members_size_le d Hd) as H. cbn [snd] in Hv.
    change (members_size ((k, v) :: d)) with (S (jsize v) + members_size d)%nat.
    cbn [length]. rewrite !length_app. cbn [length].
    unfold member_text at 1. rewrite !length_app. unfold text in *. lia.
Qed.

(** [json.loads(json.dumps(v)) == v] *)
Lemma loads_dumps (j : jv) : wf j = true -> loads (dumps j) = Some (to_py j).
Proof.
  intros Hwf. unfold loads.
  pose proof (skip_ws_dumps j []) as Hs. rewrite app_nil_r in Hs. rewrite Hs.
  pose proof (parse_dumps j Hwf (fuel_for (dumps j)) []) as H.
  rewrite app_nil_r in H. rewrite H.
  - reflexivity.
  - unfold fuel_for. pose proof (jsize_le_length j). lia.
  - reflexivity.
Qed.

End RoundTrip.

(** ** The parser on serialized findings *)

Section Findings.
Import PyStr Re Json Exn AiExtractor Wire Inv.
Local Open Scope N_scope.

Lemma finding_json_wf (f : finding) : valid_finding f = true -> wf (finding_json f) = true.
Proof.
  unfold valid_finding. rewrite !andb_true_iff.
  intros [[[[[H1 H2] H3] H4] H5] H6].
  unfold finding_json. cbn [wf forallb map fst].
  rewrite H1, H2, H3, H4, H5, H6.
  destruct (f_box_2d f) as [[[[a b] c] d] |], (f_image_index f); reflexivity.
Qed.

Lemma findings_wf (findings : list finding) :
  forallb valid_finding findings = true ->
  wf (JArr (map finding_json findings)) = true.
Proof.
  intros H. cbn [wf]. rewrite forallb_forall in *. intros j Hj.
  apply in_map_iff in Hj as [f [<- Hf]]. apply finding_json_wf, H, Hf.
Qed.

Lemma loads_serialize (findings : list finding) :
  forallb valid_finding findings = true ->
  loads (serialize findings) = Some (PList (map finding_py findings)).
Proof.
  intros H. unfold serialize. rewrite (loads_dumps _ (findings_wf _ H)).
  cbn [to_py]. rewrite map_map. reflexivity.
Qed.

(** C9, as the code has it.
    For every sequence of findings with the documented fields
    whose strings are valid Unicode text, and whose serialization holds no
    fence marker and no comma followed, after optional whitespace, by a
    closing bracket, parsing the serialization returns the sequence. *)
Theorem parse_serialize_roundtrip (findings : list finding) :
  forallb valid_finding findings = true ->
  contains (serialize findings) FENCE = false ->
  search m_comma_bracket (serialize findings) = false ->
  _parse_issues_json (serialize findings) = Ok (map finding_py findings).
Proof.
  intros Hv Hf Hc. pose proof (loads_serialize findings Hv) as Hl.
  unfold serialize in *. cbn [dumps] in *.
  apply parse_array_text; assumption.
Qed.

(** C9, witness: one finding with a box and an index. *)
Lemma parse_serialize_roundtrip_witness :
  _parse_issues_json
    (serialize [Finding [99; 97; 116] [101; 114; 114; 111; 114] [105] [28155; 10] [34]
                  [109; 115; 103] (Some (80, 200, 130, 450)%Z) (Some 0%Z)])
  = Ok (map finding_py
          [Finding [99; 97; 116] [101; 114; 114; 111; 114] [105] [28155; 10] [34]
             [109; 115; 103] (Some (80, 200, 130, 450)%Z) (Some 0%Z)]).
Proof.
  apply (parse_serialize_roundtrip
           [Finding [99; 97; 116] [101; 114; 114; 111; 114] [105] [28155; 10] [34]
              [109; 115; 103] (Some (80, 200, 130, 450)%Z) (Some 0%Z)]);
    vm_compute; reflexivity.
Defined.

(** C9, counterexample: a finding whose message is the three backquotes of
    a fence comes back with an empty message; one whose message is [a,]]
    comes back with the message [a]]; one whose message is a high surrogate
    followed by a low one comes back with the single character they encode. *)
Lemma parse_serialize_counterexample :
  (_parse_issues_json (serialize [Finding [] [] [] [] [] [96; 96; 96] None None])
     = Ok [finding_py (Finding [] [] [] [] [] [] None None)]
   /\ finding_py (Finding [] [] [] [] [] [] None None)
      <> finding_py (Finding [] [] [] [] [] [96; 96; 96] None None))
  /\ (_parse_issues_json (serialize [Finding [] [] [] [] [] [97; 44; 93] None None])
        = Ok [finding_py (Finding [] [] [] [] [] [97; 93] None None)]
      /\ finding_py (Finding [] [] [] [] [] [97; 93] None None)
         <> finding_py (Finding [] [] [] [] [] [97; 44; 93] None None))
  /\ (_parse_issues_json (serialize [Finding [] [] [] [] [] [55357; 56832] None None])
        = Ok [finding_py (Finding [] [] [] [] [] [128512] None None)]
      /\ finding_py (Finding [] [] [] [] [] [128512] None None)
         <> finding_py (Finding [] [] [] [] [] [55357; 56832] None None)).
Proof.
  repeat split; try (vm_compute; reflexivity); vm_compute; discriminate.
Qed.

(** *** Truncation *)

Lemma join_app (sep : text) (l1 l2 : list text) :
  l1 <> [] -> l2 <> [] -> join sep (l1 ++ l2) = join sep l1 ++ sep ++ join sep l2.
Proof.
  intros H1 H2. destruct l1 as [| x l1]; [contradiction |]. clear H1.
  revert x. induction l1 as [| y l1 IH]; intros x.
  - destruct l2 as [| z l2]; [contradiction |]. reflexivity.
  - change (join sep ((x :: y :: l1) ++ l2)) with (x ++ sep ++ join sep ((y :: l1) ++ l2)).
    rewrite IH. change (join sep (x :: y :: l1)) with (x ++ sep ++ join sep (y :: l1)).
    rewrite <- !app_assoc. reflexivity.
Qed.

(** The objects of a non-empty list, joined, end with a closing brace. *)
Lemma join_findings_last (fl : list finding) :
  fl <> [] ->
  exists x, join ITEM_SEP (map dumps (map finding_json fl)) = x ++ [RBRACE].
Proof.
  intros H. destruct fl as [| f fl]; [contradiction |]. clear H.
  revert f. induction fl as [| g fl IH]; intros f.
  - cbn [map join finding_json dumps]. eexists.
    rewrite app_comm_cons. reflexivity.
  - destruct (IH g) as [x Hx].
    change (join ITEM_SEP (map dumps (map finding_json (f :: g :: fl))))
      with (dumps (finding_json f) ++ ITEM_SEP
            ++ join ITEM_SEP (map dumps (map finding_json (g :: fl)))).
    rewrite Hx. exists (dumps (finding_json f) ++ ITEM_SEP ++ x).
    rewrite <- !app_assoc. reflexivity.
Qed.

(** A match of [\s*c] cannot run over a character that is neither
    whitespace nor [c]. *)
Lemma spaces_then_blocked (c x : N) (a b : text) (n : nat) :
  x <> c -> is_space x = false ->
  spaces_then c (a ++ x :: b) = Some n -> (n <= length a)%nat.
Proof.
  intros Hx Hsp. revert n. induction a as [| d a IH]; intros n H; cbn [app spaces_then] in H.
  - apply N.eqb_neq in Hx. rewrite Hx, Hsp in H. discriminate.
  - destruct (d =? c).
    + injection H as <-. simpl. lia.
    + destruct (is_space d); [| discriminate].
      destruct (spaces_then c (a ++ x :: b)) as [k |] eqn:E; [| discriminate].
      injection H as <-. specialize (IH k eq_refl). simpl. lia.
Qed.

(** Cutting a text after a closing brace and closing the array there brings
    in no comma before a closing bracket. *)
Lemma search_comma_bracket_cut (p y : text) :
  search m_comma_bracket (p ++ RBRACE :: y) = false ->
  search m_comma_bracket (p ++ [RBRACE; RBRACKET]) = false.
Proof.
  induction p as [| c p IH]; intros H; [reflexivity |].
  cbn [app search] in H |- *.
  destruct (m_comma_bracket (c :: p ++ RBRACE :: y)) eqn:E; [discriminate |].
  destruct (m_comma_bracket (c :: p ++ [RBRACE; RBRACKET])) as [n |] eqn:E';
    [| apply IH, H].
  exfalso. cbn [m_comma_bracket] in E, E'.
  destruct (c =? COMMA); [| discriminate].
  destruct (spaces_then RBRACKET (p ++ [RBRACE; RBRACKET])) as [k |] eqn:Ek;
    [| discriminate].
  assert (Hk : (k <= length p)%nat).
  { eapply (spaces_then_blocked RBRACKET RBRACE p [RBRACKET]);
      [discriminate | reflexivity | exact Ek]. }
  rewrite (spaces_then_local RBRACKET p [RBRACE; RBRACKET] (RBRACE :: y) k Ek Hk) in E.
  discriminate.
Qed.

Lemma forallb_firstn {A : Type} (p : A -> bool) (k : nat) (l : list A) :
  forallb p l = true -> forallb p (firstn k l) = true.
Proof.
  revert l. induction k as [| k IH]; intros [| x l] H; try reflexivity.
  cbn [firstn forallb] in *. apply andb_true_iff in H as [Hx Hl].
  rewrite Hx. apply IH, Hl.
Qed.

(** The cut is a cut of the serialization, right after a closed object. *)
Lemma truncate_after_shape (k : nat) (findings : list finding) :
  (1 <= k < length findings)%nat ->
  exists x y,
    truncate_after k findings = LBRACKET :: x ++ [RBRACE; COMMA] /\
    serialize (firstn k findings) = LBRACKET :: x ++ [RBRACE; RBRACKET] /\
    serialize findings = (LBRACKET :: x) ++ RBRACE :: COMMA :: y.
Proof.
  intros Hk.
  assert (H1 : firstn k findings <> []).
  { destruct findings as [| f fs]; [simpl in Hk; lia |].
    destruct k; [lia | discriminate]. }
  assert (H2 : skipn k findings <> []).
  { intros E. apply (f_equal (@length finding)) in E. rewrite length_skipn in E.
    simpl in E. lia. }
  destruct (join_findings_last (firstn k findings) H1) as [x Hx].
  exists x, (32 :: join ITEM_SEP (map dumps (map finding_json (skipn k findings)))
             ++ [RBRACKET]).
  split; [| split].
  - unfold truncate_after. rewrite Hx, <- app_assoc. reflexivity.
  - unfold serialize. cbn [dumps]. rewrite Hx, <- app_assoc. reflexivity.
  - unfold serialize. cbn [dumps].
    rewrite <- (firstn_skipn k findings) at 1. rewrite !map_app.
    rewrite join_app.
    + rewrite Hx. cbn [ITEM_SEP app]. rewrite <- !app_assoc. reflexivity.
    + intros E. apply map_eq_nil in E. apply map_eq_nil in E. contradiction.
    + intros E. apply map_eq_nil in E. apply map_eq_nil in E. contradiction.
Qed.

(** C1, as the code has it.
    For every sequence of findings with the documented fields
    whose strings are valid Unicode text and whose serialization holds no
    fence marker and no comma followed, after optional whitespace, by a
    closing bracket: the serialization cut right after the comma that
    follows the [k]-th object, for [k] from 1 below the length, is parsed,
    with no error, to the list of the first [k] findings. *)
Theorem parse_truncated_recovers (findings : list finding) (k : nat) :
  (1 <= k < length findings)%nat ->
  forallb valid_finding findings = true ->
  contains (serialize findings) FENCE = false ->
  search m_comma_bracket (serialize findings) = false ->
  (exists rest, serialize findings = truncate_after k findings ++ rest) /\
  endswith (truncate_after k findings) BRACE_COMMA = true /\
  _parse_issues_json (truncate_after k findings)
    = Ok (map finding_py (firstn k findings)).
Proof.
  intros Hk Hv Hf Hc.
  destruct (truncate_after_shape k findings Hk) as [x [y [Ht [Hs Hfull]]]].
  assert (Hpre : serialize findings = truncate_after k findings ++ y).
  { rewrite Hfull, Ht. cbn [app]. rewrite <- app_assoc. reflexivity. }
  split; [exists y; exact Hpre |]. split.
  - rewrite Ht. unfold endswith.
    change (LBRACKET :: x ++ [RBRACE; COMMA]) with ((LBRACKET :: x) ++ [RBRACE; COMMA]).
    rewrite rev_app_distr. reflexivity.
  - rewrite Ht. apply parse_truncated_text.
    + rewrite <- Ht. rewrite Hpre in Hf. eapply contains_false_app_l, Hf.
    + rewrite Hfull in Hc.
      apply (search_comma_bracket_cut (LBRACKET :: x) (COMMA :: y)), Hc.
    + rewrite <- Hs. apply loads_serialize, forallb_firstn, Hv.
Qed.

(** C1, witness: three findings, cut after the second. *)
Lemma parse_truncated_witness :
  (exists rest,
     serialize [Finding [97] [98] [99] [100] [101] [102] (Some (1, 2, 3, 4)%Z) (Some 0%Z);
                Finding [28155] [] [10] [] [34] [] None None;
                Finding [103] [] [] [] [] [] None (Some 5%Z)]
     = truncate_after 2
         [Finding [97] [98] [99] [100] [101] [102] (Some (1, 2, 3, 4)%Z) (Some 0%Z);
          Finding [28155] [] [10] [] [34] [] None None;
          Finding [103] [] [] [] [] [] None (Some 5%Z)] ++ rest) /\
  endswith
    (truncate_after 2
       [Finding [97] [98] [99] [100] [101] [102] (Some (1, 2, 3, 4)%Z) (Some 0%Z);
        Finding [28155] [] [10] [] [34] [] None None;
        Finding [103] [] [] [] [] [] None (Some 5%Z)]) BRACE_COMMA = true /\
  _parse_issues_json
    (truncate_after 2
       [Finding [97] [98] [99] [100] [101] [102] (Some (1, 2, 3, 4)%Z) (Some 0%Z);
        Finding [28155] [] [10] [] [34] [] None None;
        Finding [103] [] [] [] [] [] None (Some 5%Z)])
  = Ok (map finding_py
          (firstn 2
             [Finding [97] [98] [99] [100] [101] [102] (Some (1, 2, 3, 4)%Z) (Some 0%Z);
              Finding [28155] [] [10] [] [34] [] None None;
              Finding [103] [] [] [] [] [] None (Some 5%Z)])).
Proof.
  apply (parse_truncated_recovers
           [Finding [97] [98] [99] [100] [101] [102] (Some (1, 2, 3, 4)%Z) (Some 0%Z);
            Finding [28155] [] [10] [] [34] [] None None;
            Finding [103] [] [] [] [] [] None (Some 5%Z)] 2);
    [simpl; lia | vm_compute; reflexivity | vm_compute; reflexivity
     | vm_compute; reflexivity].
Defined.

(** C1, counterexample: of two findings, the first with the three
    backquotes of a fence as its message, the serialization cut after the
    first object is parsed to a finding with an empty message; with the
    message [a, ]] it is parsed to one with the message [a]]. *)
Lemma parse_truncated_counterexample :
  (_parse_issues_json
     (truncate_after 1 [Finding [] [] [] [] [] [96; 96; 96] None None;
                        Finding [] [] [] [] [] [] None None])
     = Ok [finding_py (Finding [] [] [] [] [] [] None None)]
   /\ [finding_py (Finding [] [] [] [] [] [] None None)]
      <> map finding_py
           (firstn 1 [Finding [] [] [] [] [] [96; 96; 96] None None;
                      Finding [] [] [] [] [] [] None None]))
  /\ (_parse_issues_json
        (truncate_after 1 [Finding [] [] [] [] [] [97; 44; 32; 93] None None;
                           Finding [] [] [] [] [] [] None None])
        = Ok [finding_py (Finding [] [] [] [] [] [97; 93] None None)]
      /\ [finding_py (Finding [] [] [] [] [] [97; 93] None None)]
         <> map finding_py
              (firstn 1 [Finding [] [] [] [] [] [97; 44; 32; 93] None None;
                         Finding [] [] [] [] [] [] None None])).
Proof.
  repeat split; try (vm_compute; reflexivity); vm_compute; discriminate.
Qed.

End Findings.

(** ** The two stages and the merge *)

Section MergeFacts.
Import PyStr Json Exn AiExtractor Wire Inv.
Local Open Scope N_scope.

(** *** Loops whose body can raise *)

Lemma filter_m_pure {A : Type} (f : A -> result bool) (p : A -> bool) (l : list A) :
  (forall x, In x l -> f x = Ok (p x)) -> filter_m f l = Ok (filter p l).
Proof.
  induction l as [| x l IH]; intros H; [reflexivity |].
  cbn [filter_m filter]. rewrite (H x (or_introl eq_refl)). cbn [bind].
  rewrite IH by (intros y Hy; apply H; right; exact Hy). cbn [bind].
  destruct (p x); reflexivity.
Qed.

Lemma map_m_in {A B : Type} (f : A -> result B) (l : list A) (l' : list B) (x : A) :
  map_m f l = Ok l' -> In x l -> exists y, f x = Ok y /\ In y l'.
Proof.
  revert l'. induction l as [| a l IH]; intros l' H Hx; [destruct Hx |].
  cbn [map_m] in H. destruct (f a) as [b | e] eqn:Ea; [| discriminate].
  cbn [bind] in H. destruct (map_m f l) as [ys | e] eqn:El; [| discriminate].
  cbn [bind] in H. injection H as <-. destruct Hx as [-> | Hx].
  - exists b. split; [exact Ea | left; reflexivity].
  - destruct (IH ys eq_refl Hx) as [y [Hy Hin]]. exists y. split; [exact Hy | right; exact Hin].
Qed.

Lemma map_m_total {A B : Type} (f : A -> result B) (g : A -> B) (l : list A) :
  (forall x, In x l -> f x = Ok (g x)) -> map_m f l = Ok (map g l).
Proof.
  induction l as [| a l IH]; intros H; [reflexivity |].
  cbn [map_m map]. rewrite (H a (or_introl eq_refl)). cbn [bind].
  rewrite IH by (intros y Hy; apply H; right; exact Hy). reflexivity.
Qed.

(** *** The category test *)

Lemma is_gating_dict (i : pyval) : is_dict i = true -> is_gating i = Ok (gating i).
Proof.
  destruct i as [| | | | | | d]; try discriminate. intros _.
  unfold is_gating, gating, py_get. cbn [bind].
  destruct (dict_get d CATEGORY) as [[] |]; reflexivity.
Qed.

Lemma not_gating_dict (i : pyval) :
  is_dict i = true ->
  bind (is_gating i) (fun g => Ok (negb g)) = Ok (negb (gating i)).
Proof. intros H. rewrite (is_gating_dict i H). reflexivity. Qed.

(** *** Dictionaries *)

Lemma dict_get_set (d : list (text * pyval)) (k : text) (v : pyval) :
  dict_get (dict_set d k v) k = Some v.
Proof.
  induction d as [| [k' v'] d IH]; cbn [dict_set dict_get].
  - assert (E : text_eqb k k = true) by (apply text_eqb_eq; reflexivity).
    rewrite E. reflexivity.
  - destruct (text_eqb k' k) eqn:E; cbn [dict_get]; rewrite E; [reflexivity | exact IH].
Qed.

Lemma py_int_integer (q : Q) (i : Z) : (q == inject_Z i)%Q -> PyNum.py_int q = i.
Proof.
  destruct q as [n d]. unfold Qeq, PyNum.py_int. cbn [Qnum Qden inject_Z].
  intros H. rewrite Z.mul_1_r in H. rewrite H. apply Z.quot_mul. lia.
Qed.

(** *** What the cross-reference stage does with the form issues *)

Lemma merge_issues_shape (issues : list pyval) :
  (exists e, forall form_issues, merge_issues issues form_issues = Raise e) \/
  (exists a b, forall form_issues, merge_issues issues form_issues = Ok (a ++ form_issues ++ b)).
Proof.
  unfold merge_issues. destruct (filter_m is_gating issues) as [a | e]; cbn [bind].
  - destruct (filter_m _ issues) as [b | e]; cbn [bind].
    + right. exists a, b. reflexivity.
    + left. exists e. reflexivity.
  - left. exists e. reflexivity.
Qed.

(** C2. Lines 892-894 put the findings of the cross-reference pass whose
    category is one of the two gating names first, then all the findings of
    the form check, then the other findings of the cross-reference pass,
    each group in the order it came in; so for the cross-reference findings
    [A, attachment gap] and the form finding [B] the output is
    [attachment gap, B, A]. *)
Theorem merge_ordering (issues form_issues : list pyval) :
  forallb is_dict issues = true ->
  merge_issues issues form_issues
  = Ok (filter gating issues ++ form_issues ++ filter (fun i => negb (gating i)) issues).
Proof.
  intros H. rewrite forallb_forall in H. unfold merge_issues.
  rewrite (filter_m_pure is_gating gating issues)
    by (intros x Hx; apply is_gating_dict, H, Hx).
  cbn [bind].
  rewrite (filter_m_pure _ (fun i => negb (gating i)) issues)
    by (intros x Hx; apply not_gating_dict, H, Hx).
  reflexivity.
Qed.

(** C2, witness: the example of the specification. *)
Lemma merge_ordering_witness :
  merge_issues
    [finding_py (Finding [65] [] [] [] [] [] None None);
     finding_py (Finding GATING_1 [] [] [] [] [] None None)]
    [finding_py (Finding FORM_CHECK [] [66] [] [] [] None None)]
  = Ok [finding_py (Finding GATING_1 [] [] [] [] [] None None);
        finding_py (Finding FORM_CHECK [] [66] [] [] [] None None);
        finding_py (Finding [65] [] [] [] [] [] None None)].
Proof.
  exact (merge_ordering
           [finding_py (Finding [65] [] [] [] [] [] None None);
            finding_py (Finding GATING_1 [] [] [] [] [] None None)]
           [finding_py (Finding FORM_CHECK [] [66] [] [] [] None None)]
           eq_refl).
Defined.

End MergeFacts.

(** ** [app.py]: the box normalizer *)

Section NormalizeFacts.
Import PyStr Json Exn App Inv.
Local Open Scope N_scope.

Variable float_of_str : text -> option pyfloat.

Lemma map_m_length {A B : Type} (f : A -> result B) (l : list A) (l' : list B) :
  map_m f l = Ok l' -> length l' = length l.
Proof.
  revert l'. induction l as [| a l IH]; intros l' H.
  - injection H as <-. reflexivity.
  - cbn [map_m] in H. destruct (f a) as [b | e]; [| discriminate]. cbn [bind] in H.
    destruct (map_m f l) as [ys | e]; [| discriminate]. cbn [bind] in H.
    injection H as <-. cbn [length]. f_equal. apply IH. reflexivity.
Qed.

Lemma map_m_raise {A B : Type} (f : A -> result B) (l : list A) (e : exn) :
  map_m f l = Raise e -> exists x, In x l /\ f x = Raise e.
Proof.
  induction l as [| a l IH]; intros H; [discriminate |].
  cbn [map_m] in H. destruct (f a) as [b | e'] eqn:Ea; cbn [bind] in H.
  - destruct (map_m f l) as [ys | e'] eqn:El; cbn [bind] in H; [discriminate |].
    injection H as ->. destruct (IH eq_refl) as [x [Hx Hf]].
    exists x. split; [right; exact Hx | exact Hf].
  - injection H as ->. exists a. split; [left; reflexivity | exact Ea].
Qed.

(** What the function returns is [None] or four floats. *)
Lemma normalize_box_four (box_2d : pyval) (floats : list pyfloat) :
  _normalize_box_2d float_of_str box_2d = Ok (Some floats) -> length floats = 4%nat.
Proof.
  unfold _normalize_box_2d. intros H.
  assert (G : forall decoded : option pyval,
             match decoded with
             | None => Ok None
             | Some (PList l) =>
                 if Nat.eqb (length l) 4 then
                   match map_m (py_float float_of_str) l with
                   | Ok floats => Ok (Some floats)
                   | Raise TypeError => Ok None
                   | Raise ValueError => Ok None
                   | Raise e => Raise e
                   end
                 else Ok None
             | Some _ => Ok None
             end = Ok (Some floats) -> length floats = 4%nat).
  { intros [[| | | | | l |] |]; try discriminate.
    destruct (Nat.eqb (length l) 4) eqn:E; [| discriminate].
    destruct (map_m (py_float float_of_str) l) as [fs | e] eqn:Em.
    - intros H'. injection H' as <-. rewrite (map_m_length _ _ _ Em).
      apply Nat.eqb_eq, E.
    - destruct e; discriminate. }
  destruct box_2d as [| b | z | f | s | l | d]; try discriminate;
    [exact (G (loads (strip s)) H) | exact (G (Some (PList l)) H)].
Qed.

(** The only exception that leaves the function is the [OverflowError] of
    [float] on an [int]. *)
Lemma normalize_box_raises (box_2d : pyval) (e : exn) :
  _normalize_box_2d float_of_str box_2d = Raise e -> e = OverflowError.
Proof.
  unfold _normalize_box_2d. intros H.
  assert (G : forall decoded : option pyval,
             match decoded with
             | None => Ok None
             | Some (PList l) =>
                 if Nat.eqb (length l) 4 then
                   match map_m (py_float float_of_str) l with
                   | Ok floats => Ok (Some floats)
                   | Raise TypeError => Ok None
                   | Raise ValueError => Ok None
                   | Raise e => Raise e
                   end
                 else Ok None
             | Some _ => Ok None
             end = Raise e -> e = OverflowError).
  { intros [[| | | | | l |] |]; try discriminate.
    destruct (Nat.eqb (length l) 4); [| discriminate].
    destruct (map_m (py_float float_of_str) l) as [fs | e'] eqn:Em; [discriminate |].
    apply map_m_raise in Em as [x [_ Hx]].
    assert (He' : e' = TypeError \/ e' = ValueError \/ e' = OverflowError).
    { destruct x as [| b | z | f | s | l' | d]; cbn [py_float] in Hx.
      - injection Hx as <-. auto.
      - discriminate.
      - destruct (Z.abs z <? FLOAT_INT_LIMIT)%Z; [discriminate |]. injection Hx as <-. auto.
      - discriminate.
      - destruct (float_of_str s); [discriminate |]. injection Hx as <-. auto.
      - injection Hx as <-. auto.
      - injection Hx as <-. auto. }
    destruct He' as [-> | [-> | ->]]; try discriminate. intros H'. injection H' as <-.
    reflexivity. }
  destruct box_2d as [| b | z | f | s | l | d]; try discriminate;
    [exact (G (loads (strip s)) H) | exact (G (Some (PList l)) H)].
Qed.

(** A string that [json.loads] reads as a list gives what the list gives. *)
Lemma normalize_box_string (s : text) (l : list pyval) :
  loads (strip s) = Some (PList l) ->
  _normalize_box_2d float_of_str (PStr s) = _normalize_box_2d float_of_str (PList l).
Proof. intros H. unfold _normalize_box_2d. rewrite H. reflexivity. Qed.


(** C10. The function is not total: on a list of four integers whose first
    is [10 ** 400], and on the JSON text of that list, [float] raises
    [OverflowError], which neither [except] clause catches. *)
Theorem normalize_box_overflow :
  _normalize_box_2d float_of_str (PList [PInt (10 ^ 400); PInt 0; PInt 0; PInt 0])
    = Raise OverflowError /\
  _normalize_box_2d float_of_str
    (PStr (LBRACKET :: 49 :: repeat 48 400 ++ [COMMA; 48; COMMA; 48; COMMA; 48; RBRACKET]))
    = Raise OverflowError.
Proof.
  assert (H : _normalize_box_2d float_of_str
                (PList [PInt (10 ^ 400); PInt 0; PInt 0; PInt 0]) = Raise OverflowError).
  { unfold _normalize_box_2d. cbn [length Nat.eqb map_m py_float].
    replace (Z.abs (10 ^ 400) <? FLOAT_INT_LIMIT)%Z with false
      by (vm_compute; reflexivity).
    reflexivity. }
  split; [exact H |].
  rewrite (normalize_box_string _ [PInt (10 ^ 400); PInt 0; PInt 0; PInt 0]); [exact H |].
  vm_compute. reflexivity.
Qed.

End NormalizeFacts.

(** ** More on the two stages *)

Section StageFacts.
Import PyStr Re Json Exn AiExtractor Wire Inv.
Local Open Scope N_scope.

(** *** The merge keeps every finding once *)

Lemma filter_m_split {A : Type} (f : A -> result bool) (l a b : list A) :
  filter_m f l = Ok a ->
  filter_m (fun i => bind (f i) (fun g => Ok (negb g))) l = Ok b ->
  Permutation (a ++ b) l.
Proof.
  revert a b. induction l as [| x l IH]; intros a b Ha Hb.
  - injection Ha as <-. injection Hb as <-. constructor.
  - cbn [filter_m] in Ha, Hb. destruct (f x) as [g | e]; [| discriminate].
    cbn [bind] in Ha, Hb.
    destruct (filter_m f l) as [a' | e]; [| discriminate].
    destruct (filter_m _ l) as [b' | e]; [| discriminate].
    cbn [bind] in Ha, Hb. injection Ha as <-. injection Hb as <-.
    specialize (IH a' b' eq_refl eq_refl).
    destruct g; cbn [negb].
    + cbn [app]. constructor. exact IH.
    + apply Permutation_sym, Permutation_cons_app, Permutation_sym, IH.
Qed.

(** Lines 892-894 lose no finding and repeat none: what is returned is a
    rearrangement of the findings of the two passes. *)
Theorem merge_conserves (issues form_issues out : list pyval) :
  merge_issues issues form_issues = Ok out ->
  Permutation out (issues ++ form_issues) /\
  length out = (length issues + length form_issues)%nat.
Proof.
  intros H.
  assert (P : Permutation out (issues ++ form_issues)).
  { unfold merge_issues in H.
    destruct (filter_m is_gating issues) as [a | e] eqn:Ea; [| discriminate].
    cbn [bind] in H.
    match type of H with
    | bind ?x _ = _ => destruct x as [b | e] eqn:Eb; [| discriminate]
    end.
    cbn [bind] in H. injection H as <-.
    pose proof (filter_m_split _ _ _ _ Ea Eb) as P.
    eapply Permutation_trans; [| apply Permutation_app_tail, P].
    rewrite <- app_assoc. apply Permutation_app_head, Permutation_app_comm. }
  split; [exact P |]. rewrite (Permutation_length P). apply length_app.
Qed.

Lemma merge_conserves_witness :
  Permutation
    [finding_py (Finding GATING_1 [] [] [] [] [] None None);
     finding_py (Finding FORM_CHECK [] [66] [] [] [] None None);
     finding_py (Finding [65] [] [] [] [] [] None None)]
    ([finding_py (Finding [65] [] [] [] [] [] None None);
      finding_py (Finding GATING_1 [] [] [] [] [] None None)]
     ++ [finding_py (Finding FORM_CHECK [] [66] [] [] [] None None)]) /\
  length
    [finding_py (Finding GATING_1 [] [] [] [] [] None None);
     finding_py (Finding FORM_CHECK [] [66] [] [] [] None None);
     finding_py (Finding [65] [] [] [] [] [] None None)]
  = Nat.add
      (length [finding_py (Finding [65] [] [] [] [] [] None None);
               finding_py (Finding GATING_1 [] [] [] [] [] None None)])
      (length [finding_py (Finding FORM_CHECK [] [66] [] [] [] None None)]).
Proof.
  apply (merge_conserves
           [finding_py (Finding [65] [] [] [] [] [] None None);
            finding_py (Finding GATING_1 [] [] [] [] [] None None)]
           [finding_py (Finding FORM_CHECK [] [66] [] [] [] None None)]).
  reflexivity.
Defined.

(** *** An element that is no object *)

Lemma filter_m_is_gating_raise (issues : list pyval) :
  forallb is_dict issues = false -> filter_m is_gating issues = Raise AttributeError.
Proof.
  induction issues as [| i l IH]; [discriminate |].
  cbn [forallb filter_m]. destruct i; cbn [is_dict andb is_gating py_get bind];
    try reflexivity.
  intros H. rewrite (IH H). reflexivity.
Qed.

Lemma merge_issues_dicts (issues form_issues : list pyval) :
  forallb is_dict issues = true ->
  merge_issues issues form_issues
  = Ok (filter gating issues ++ form_issues ++ filter (fun i => negb (gating i)) issues).
Proof.
  intros H. rewrite forallb_forall in H. unfold merge_issues.
  rewrite (filter_m_pure is_gating gating issues)
    by (intros x Hx; apply is_gating_dict, H, Hx).
  cbn [bind].
  rewrite (filter_m_pure _ (fun i => negb (gating i)) issues)
    by (intros x Hx; apply not_gating_dict, H, Hx).
  reflexivity.
Qed.

(** The merge raises exactly when the cross-reference array holds an
    element that is not an object, and what it raises then is the
    [AttributeError] of [.get]. *)
Theorem merge_raises_iff (issues form_issues : list pyval) (e : exn) :
  merge_issues issues form_issues = Raise e <->
  e = AttributeError /\ forallb is_dict issues = false.
Proof.
  split.
  - intros H. destruct (forallb is_dict issues) eqn:E.
    + rewrite (merge_issues_dicts issues form_issues E) in H. discriminate.
    + unfold merge_issues in H. rewrite (filter_m_is_gating_raise issues E) in H.
      cbn [bind] in H. injection H as <-. split; reflexivity.
  - intros [-> E]. unfold merge_issues. rewrite (filter_m_is_gating_raise issues E).
    reflexivity.
Qed.

Lemma merge_raises_helper (issues form_issues : list pyval) (e : exn) :
  merge_issues issues form_issues = Raise e -> e = AttributeError.
Proof.
  intros H. destruct (forallb is_dict issues) eqn:E.
  - rewrite (merge_issues_dicts issues form_issues E) in H. discriminate.
  - unfold merge_issues in H. rewrite (filter_m_is_gating_raise issues E) in H.
    cbn [bind] in H. injection H as <-. reflexivity.
Qed.

(** *** What the shift can raise *)

Lemma shift_image_index_raises (n : Z) (issue : pyval) (e : exn) :
  shift_image_index n issue = Raise e ->
  e = AttributeError \/ e = ValueError \/ e = OverflowError.
Proof.
  unfold shift_image_index. destruct issue as [| | | | | | d]; try (intros H; injection H as <-; auto).
  destruct (dict_get d IMAGE_INDEX) as [[| b | z | [| s | q] | s | l | d'] |];
    intros H; try discriminate; injection H as <-; auto.
Qed.

(** *** The shift writes one field *)

Lemma dict_get_set_other (d : list (text * pyval)) (k k' : text) (v : pyval) :
  k' <> k -> dict_get (dict_set d k v) k' = dict_get d k'.
Proof.
  intros Hne.
  assert (Hk : text_eqb k k' = false).
  { destruct (text_eqb k k') eqn:E; [| reflexivity].
    apply text_eqb_eq in E. congruence. }
  induction d as [| [k0 v0] d IH]; cbn [dict_set dict_get].
  - rewrite Hk. reflexivity.
  - destruct (text_eqb k0 k) eqn:E; cbn [dict_get].
    + apply text_eqb_eq in E. subst k0. rewrite Hk. reflexivity.
    + rewrite IH. reflexivity.
Qed.

Lemma shift_same_but_index (n : Z) (issue shifted : pyval) :
  shift_image_index n issue = Ok shifted -> same_but_index issue shifted.
Proof.
  unfold shift_image_index, same_but_index.
  destruct issue as [| | | | | | d]; try discriminate.
  assert (Hother : forall v k, k <> IMAGE_INDEX ->
            py_get (PDict (dict_set d IMAGE_INDEX v)) k = py_get (PDict d) k).
  { intros v k Hk. unfold py_get. rewrite (dict_get_set_other d IMAGE_INDEX k v Hk).
    reflexivity. }
  unfold py_get at 3.
  destruct (dict_get d IMAGE_INDEX) as [[| b | z | [| s | q] | s | l | d'] |];
    intros H; try discriminate; injection H as <-;
    (split; [intros k Hk; first [apply Hother, Hk | reflexivity]
            | intros Hn; first [discriminate | reflexivity]]).
Qed.

Lemma map_m_forall2 {A B : Type} (f : A -> result B) (R : A -> B -> Prop)
    (l : list A) (l' : list B) :
  (forall x y, f x = Ok y -> R x y) -> map_m f l = Ok l' -> Forall2 R l l'.
Proof.
  intros HR. revert l'. induction l as [| a l IH]; intros l' H.
  - injection H as <-. constructor.
  - cbn [map_m] in H. destruct (f a) as [b | e] eqn:Ea; [| discriminate].
    cbn [bind] in H. destruct (map_m f l) as [ys | e]; [| discriminate].
    cbn [bind] in H. injection H as <-. constructor; [apply HR, Ea | apply IH; reflexivity].
Qed.

(** The loop of lines 748-751 keeps the findings of the form check in
    their number and order, and writes no field but [image_index]: a
    finding whose index is null or absent is left as it is. *)
Theorem form_stage_fields (n : Z) (form_response : response)
    (form_issues shifted : list pyval) :
  _run_form_check form_response = Ok form_issues ->
  form_stage n form_response = Ok shifted ->
  Forall2 same_but_index form_issues shifted /\ length shifted = length form_issues.
Proof.
  intros Hrun H. unfold form_stage in H. rewrite Hrun in H.
  assert (F : Forall2 same_but_index form_issues shifted).
  { apply (map_m_forall2 (shift_image_index n)); [apply shift_same_but_index | exact H]. }
  split; [exact F |]. symmetry. apply (Forall2_length F).
Qed.

Lemma form_stage_fields_witness :
  Forall2 same_but_index
    [finding_py (Finding FORM_CHECK WARNING [] [] [] [] None (Some 0%Z));
     finding_py (Finding FORM_CHECK WARNING [66] [] [] [] None None)]
    [finding_py (Finding FORM_CHECK WARNING [] [] [] [] None (Some 3%Z));
     finding_py (Finding FORM_CHECK WARNING [66] [] [] [] None None)] /\
  length [finding_py (Finding FORM_CHECK WARNING [] [] [] [] None (Some 3%Z));
          finding_py (Finding FORM_CHECK WARNING [66] [] [] [] None None)]
  = length [finding_py (Finding FORM_CHECK WARNING [] [] [] [] None (Some 0%Z));
            finding_py (Finding FORM_CHECK WARNING [66] [] [] [] None None)].
Proof.
  apply (form_stage_fields 3
           (Response [Some STOP]
              (serialize [Finding FORM_CHECK WARNING [] [] [] [] None (Some 0%Z);
                          Finding FORM_CHECK WARNING [66] [] [] [] None None])));
    vm_compute; reflexivity.
Defined.

(** *** The two parsers *)

(** The parser of the cross-reference response, lines 826-889, returns
    what [_parse_issues_json] returns wherever that one succeeds; the one
    difference is a response that is JSON but no array, for which
    [_parse_issues_json] gives the empty list and the cross-reference stage
    returns the form findings at once. *)
Theorem parsers_agree (response_text : text) (issues : list pyval) :
  _parse_issues_json response_text = Ok issues ->
  cross_issues (strip response_text) = Ok (Some issues) \/
  (issues = [] /\ cross_issues (strip response_text) = Ok None).
Proof.
  unfold _parse_issues_json, cross_issues.
  set (b := from_first_bracket (remove_fences (strip response_text))).
  destruct (loads (repaired_text b)) as [v |].
  - destruct v; intros H; injection H as <-;
      first [left; reflexivity | right; split; reflexivity].
  - destruct (needs_rescue b); [| discriminate].
    destruct (_rescue_incomplete_json_array b) as [repaired |]; [| discriminate].
    destruct (is_empty repaired); [discriminate |].
    destruct (loads repaired) as [[] |]; try discriminate.
    intros H. injection H as <-. left. reflexivity.
Qed.

Lemma parsers_agree_witness :
  cross_issues (strip (32 :: truncate_after 1
                  [Finding [65] [] [] [] [] [] None None;
                   Finding [66] [] [] [] [] [] None None]))
  = Ok (Some [finding_py (Finding [65] [] [] [] [] [] None None)]) \/
  ([finding_py (Finding [65] [] [] [] [] [] None None)] = [] /\
   cross_issues (strip (32 :: truncate_after 1
                   [Finding [65] [] [] [] [] [] None None;
                    Finding [66] [] [] [] [] [] None None])) = Ok None).
Proof.
  apply (parsers_agree
           (32 :: truncate_after 1
              [Finding [65] [] [] [] [] [] None None;
               Finding [66] [] [] [] [] [] None None])).
  vm_compute. reflexivity.
Defined.

(** *** What the function returns *)

Lemma forallb_filter {A : Type} (p q : A -> bool) (l : list A) :
  forallb p l = true -> forallb p (filter q l) = true.
Proof.
  rewrite !forallb_forall. intros H x Hx. apply filter_In in Hx as [Hx _]. apply H, Hx.
Qed.

Lemma shift_gives_dict (n : Z) (issue shifted : pyval) :
  shift_image_index n issue = Ok shifted -> is_dict shifted = true.
Proof.
  unfold shift_image_index. destruct issue as [| | | | | | d]; try discriminate.
  destruct (dict_get d IMAGE_INDEX) as [[| b | z | [| s | q] | s | l | d'] |];
    intros H; try discriminate; injection H as <-; reflexivity.
Qed.

Lemma map_m_forallb {A B : Type} (f : A -> result B) (p : B -> bool)
    (l : list A) (l' : list B) :
  (forall x y, f x = Ok y -> p y = true) -> map_m f l = Ok l' -> forallb p l' = true.
Proof.
  intros Hp. revert l'. induction l as [| a l IH]; intros l' H.
  - injection H as <-. reflexivity.
  - cbn [map_m] in H. destruct (f a) as [b | e] eqn:Ea; [| discriminate].
    cbn [bind] in H. destruct (map_m f l) as [ys | e]; [| discriminate].
    cbn [bind] in H. injection H as <-. cbn [forallb].
    rewrite (Hp a b Ea), (IH ys eq_refl). reflexivity.
Qed.

Lemma form_stage_dicts (n : Z) (form_response : response) (form_issues : list pyval) :
  form_stage n form_response = Ok form_issues -> forallb is_dict form_issues = true.
Proof.
  unfold form_stage. destruct (_run_form_check form_response) as [fs | e].
  - apply map_m_forallb. apply shift_gives_dict.
  - destruct e; try discriminate; intros H; injection H as <-; reflexivity.
Qed.

Lemma cross_stage_dicts (form_issues : list pyval) (cross_response : response)
    (out : list pyval) :
  forallb is_dict form_issues = true ->
  cross_stage form_issues cross_response = Ok out -> forallb is_dict out = true.
Proof.
  intros Hf. unfold cross_stage. destruct (candidates cross_response) as [| c0 cs];
    [discriminate |].
  destruct (negb (reason_ok c0)); [discriminate |].
  destruct (is_empty _); [intros H; injection H as <-; exact Hf |].
  destruct (cross_issues _) as [[issues |] | e]; cbn [bind].
  - destruct (forallb is_dict issues) eqn:Ei.
    + rewrite (merge_issues_dicts issues form_issues Ei). intros H. injection H as <-.
      rewrite !forallb_app, Hf, !forallb_filter by exact Ei. reflexivity.
    + intros H. unfold merge_issues in H. rewrite (filter_m_is_gating_raise issues Ei) in H.
      discriminate.
  - intros H. injection H as <-. exact Hf.
  - discriminate.
Qed.

(** Every finding the function returns is an object: one that is not
    makes the function raise [AttributeError] instead, so the [.get] calls
    of the caller are safe on what it is given. *)
Theorem verify_returns_dicts (api_key : text)
    (reference_images target_images : list Utils.image)
    (form_response cross_response : response) (out : list pyval) :
  verify_disclosure_against_evidence api_key reference_images target_images
    form_response cross_response = Ok out ->
  forallb is_dict out = true.
Proof.
  unfold verify_disclosure_against_evidence.
  destruct (is_empty (strip api_key)); [discriminate |].
  destruct (is_empty reference_images); [discriminate |].
  destruct (is_empty target_images); [discriminate |].
  destruct (form_stage _ form_response) as [fs | e] eqn:E; cbn [bind]; [| discriminate].
  apply cross_stage_dicts. apply (form_stage_dicts _ _ _ E).
Qed.

Lemma verify_returns_dicts_witness :
  forallb is_dict
    [finding_py (Finding GATING_2 [] [] [] [] [] None None);
     form_failed_issue;
     finding_py (Finding [65] [] [] [] [] [] None None)] = true.
Proof.
  apply (verify_returns_dicts [107] [Utils.Image 10 10] [Utils.Image 10 10]
           (Response [] [])
           (Response [Some STOP]
              (serialize [Finding [65] [] [] [] [] [] None None;
                          Finding GATING_2 [] [] [] [] [] None None]))).
  vm_compute. reflexivity.
Defined.

End StageFacts.

(** ** More on the rescue and the parser *)

Section RescueFacts.
Import PyStr Re Json Exn AiExtractor Wire Inv.
Local Open Scope N_scope.

(** *** [find], [rstrip] and [re.sub] at the head of a text *)

Lemma find_char (s : text) (c : N) :
  contains s [c] = true ->
  exists a r, find s [c] = Some (length a) /\ s = a ++ c :: r /\ ~ In c a.
Proof.
  induction s as [| d s IH]; [discriminate |].
  cbn [contains find startswith]. rewrite andb_true_r.
  destruct (N.eqb_spec c d) as [-> | Hne].
  - intros _. exists [], s. repeat split. intros [].
  - cbn [orb]. intros H. destruct (IH H) as [a [r [Hf [Hs Hn]]]].
    exists (d :: a), r. rewrite Hf. repeat split.
    + rewrite Hs. reflexivity.
    + intros [E | E]; [congruence | contradiction].
Qed.

Lemma find_first (a r : text) (c : N) :
  ~ In c a -> find (a ++ c :: r) [c] = Some (length a).
Proof.
  induction a as [| d a IH]; intros Hn; cbn [app find startswith].
  - rewrite N.eqb_refl. reflexivity.
  - rewrite andb_true_r. destruct (N.eqb_spec c d) as [-> | Hne].
    + exfalso. apply Hn. left. reflexivity.
    + rewrite IH by (intros E; apply Hn; right; exact E). reflexivity.
Qed.

Lemma lstrip_last (a : text) (c : N) :
  is_space c = false -> lstrip (a ++ [c]) = lstrip a ++ [c].
Proof.
  intros Hc. induction a as [| d a IH]; cbn [app lstrip].
  - rewrite Hc. reflexivity.
  - destruct (is_space d); [exact IH | reflexivity].
Qed.

Lemma rstrip_head (c : N) (r : text) :
  is_space c = false -> rstrip (c :: r) = c :: rstrip r.
Proof.
  intros Hc. unfold rstrip. cbn [rev]. rewrite (lstrip_last _ _ Hc).
  rewrite rev_app_distr. reflexivity.
Qed.

Lemma rstrip_last_nonspace (s u : text) (c : N) :
  rstrip s = u ++ [c] -> is_space c = false.
Proof.
  unfold rstrip. intros H. apply (f_equal (@rev N)) in H.
  rewrite rev_involutive, rev_app_distr in H. cbn [rev app] in H.
  destruct (is_space c) eqn:E; [| reflexivity]. exfalso.
  clear - H E. induction (rev s) as [| d t IH]; cbn [lstrip] in H; [discriminate |].
  destruct (is_space d) eqn:Ed; [exact (IH H) |].
  injection H as -> _. congruence.
Qed.

Lemma rstrip_idem (s : text) : rstrip (rstrip s) = rstrip s.
Proof.
  destruct (rstrip s) as [| c t] eqn:E using rev_ind; [reflexivity |].
  apply rstrip_tight. apply (rstrip_last_nonspace s t c E).
Qed.

Lemma sub_head (m : text -> option nat) (repl : text) (c : N) (r : text) :
  m (c :: r) = None -> sub m repl (c :: r) = c :: sub m repl r.
Proof. intros H. unfold sub. cbn [sub_from]. rewrite H. reflexivity. Qed.

Lemma starts_ends (s : text) :
  startswith s [LBRACKET] = true -> endswith s [RBRACKET] = true ->
  exists u, s = LBRACKET :: u ++ [RBRACKET].
Proof.
  intros Hs He. apply endswith_char in He as [v ->].
  destruct v as [| c v]; [discriminate |].
  cbn [app startswith] in Hs. rewrite andb_true_r in Hs. apply N.eqb_eq in Hs. subst c.
  exists v. reflexivity.
Qed.

Lemma first_candidate_some (t : text) (starts : list nat) (candidate : text) :
  first_candidate t starts = Some candidate ->
  (exists m_start, In m_start starts /\
     candidate = sub_comma_bracket (firstn (m_start + 1) t ++ [RBRACKET])) /\
  exists l, loads candidate = Some (PList l).
Proof.
  induction starts as [| m ms IH]; [discriminate |].
  cbn [first_candidate].
  destruct (loads (sub_comma_bracket (firstn (m + 1) t ++ [RBRACKET]))) as [[] |] eqn:E;
    cbn [is_list];
    try (intros H; destruct (IH H) as [[m' [Hin Hc]] Hl];
         split; [exists m'; split; [right; exact Hin | exact Hc] | exact Hl]).
  intros H. injection H as <-. split.
  - exists m. split; [left; reflexivity | reflexivity].
  - eexists. exact E.
Qed.

(** *** What the rescue returns *)

(** The text the rescue works on, lines 42-46. *)
Lemma rescue_unfold (text : PyStr.text) (a r : PyStr.text) :
  text = a ++ LBRACKET :: r -> ~ In LBRACKET a ->
  exists t,
    sub_comma_bracket_end (rstrip (LBRACKET :: r)) = LBRACKET :: t /\
    _rescue_incomplete_json_array text
    = if endswith (LBRACKET :: t) [RBRACKET] then Some (LBRACKET :: t)
      else
        match first_candidate (LBRACKET :: t)
                (rev (finditer m_brace_comma (LBRACKET :: t))) with
        | Some candidate => Some candidate
        | None =>
            if search_array_of_object (LBRACKET :: t) then
              if is_list (loads (sub_comma_end (LBRACKET :: t) ++ [RBRACKET]))
              then Some (sub_comma_end (LBRACKET :: t) ++ [RBRACKET])
              else None
            else None
        end.
Proof.
  intros Ht Ha. subst text. unfold _rescue_incomplete_json_array.
  assert (Hc : contains (a ++ LBRACKET :: r) [LBRACKET] = true).
  { apply contains_char. apply in_or_app. right. left. reflexivity. }
  assert (He : is_empty (a ++ LBRACKET :: r) = false) by (destruct a; reflexivity).
  rewrite Hc, He. cbn [negb orb].
  rewrite (find_first a r LBRACKET Ha).
  rewrite skipn_app, Nat.sub_diag, skipn_all. cbn [skipn app].
  rewrite (rstrip_head LBRACKET r eq_refl).
  unfold sub_comma_bracket_end.
  rewrite (sub_head m_comma_bracket_end [RBRACKET] LBRACKET (rstrip r) eq_refl).
  exists (sub m_comma_bracket_end [RBRACKET] (rstrip r)).
  split; reflexivity.
Qed.

(** Whatever the rescue returns begins with the opening bracket and ends
    with the closing one. *)
Theorem rescue_brackets (text repaired : PyStr.text) :
  _rescue_incomplete_json_array text = Some repaired ->
  exists u, repaired = LBRACKET :: u ++ [RBRACKET].
Proof.
  intros H.
  destruct (contains text [LBRACKET]) eqn:Hc.
  2: { unfold _rescue_incomplete_json_array in H. rewrite Hc in H.
       rewrite orb_true_r in H. discriminate. }
  destruct (find_char text LBRACKET Hc) as [a [r [_ [Ht Ha]]]].
  destruct (rescue_unfold text a r Ht Ha) as [t [_ Hr]]. rewrite Hr in H. clear Hr.
  destruct (endswith (LBRACKET :: t) [RBRACKET]) eqn:He.
  - injection H as <-. apply starts_ends; [reflexivity | exact He].
  - destruct (first_candidate _ _) as [candidate |] eqn:Ec.
    + injection H as <-. apply first_candidate_some in Ec as [[m [_ ->]] _].
      apply starts_ends.
      * replace (m + 1)%nat with (S m) by lia.
        change (firstn (S m) (LBRACKET :: t) ++ [RBRACKET])
          with (LBRACKET :: (firstn m t ++ [RBRACKET])).
        unfold sub_comma_bracket.
        rewrite (sub_head m_comma_bracket [RBRACKET] LBRACKET
                   (firstn m t ++ [RBRACKET]) eq_refl).
        reflexivity.
      * destruct (sub_comma_bracket_keeps_last (firstn (m + 1) (LBRACKET :: t))) as [v ->].
        apply endswith_char. exists v. reflexivity.
    + destruct (search_array_of_object _); [| discriminate].
      destruct (is_list _); [| discriminate]. injection H as <-.
      apply starts_ends.
      * reflexivity.
      * apply endswith_char. exists (LBRACKET :: sub_from m_comma_end [] 0 t). reflexivity.
Qed.

Lemma rescue_brackets_witness :
  exists u,
    [LBRACKET; LBRACE; RBRACE; RBRACKET] = LBRACKET :: u ++ [RBRACKET].
Proof.
  apply (rescue_brackets [120; LBRACKET; LBRACE; RBRACE; COMMA; LBRACE; 32]).
  vm_compute. reflexivity.
Defined.

(** *** The rescue of a text that does not end with the closing bracket *)

Lemma lstrip_app (x y : text) : lstrip x <> [] -> lstrip (x ++ y) = lstrip x ++ y.
Proof.
  induction x as [| c x IH]; cbn [lstrip app]; intros H; [contradiction |].
  destruct (is_space c); [apply IH, H | reflexivity].
Qed.

Lemma rstrip_app (a b : text) : rstrip b <> [] -> rstrip (a ++ b) = a ++ rstrip b.
Proof.
  unfold rstrip. intros H. rewrite rev_app_distr, lstrip_app.
  - rewrite rev_app_distr, rev_involutive. reflexivity.
  - intros E. apply H. rewrite E. reflexivity.
Qed.

Lemma endswith_app (a b : text) (c : N) :
  b <> [] -> endswith (a ++ b) [c] = endswith b [c].
Proof.
  intros Hb. destruct b as [| d b] using rev_ind; [contradiction |].
  unfold endswith. rewrite app_assoc, !rev_app_distr. reflexivity.
Qed.

(** A text whose last character is neither the closing bracket nor a
    newline has no match of [,\s*]$]. *)
Lemma search_comma_bracket_end_other (u : text) (c : N) :
  c <> RBRACKET -> c <> NEWLINE -> search m_comma_bracket_end (u ++ [c]) = false.
Proof.
  intros H1 H2. induction u as [| d u IH]; cbn [app search].
  - destruct (m_comma_bracket_end [c]) as [n |] eqn:E; [| reflexivity].
    apply m_comma_bracket_end_last in E as [v [x [Hv Hx]]].
    apply (last_char_unique [] v) in Hv. subst x. destruct Hx; contradiction.
  - destruct (m_comma_bracket_end (d :: u ++ [c])) as [n |] eqn:E; [| exact IH].
    apply m_comma_bracket_end_last in E as [v [x [Hv Hx]]].
    change (d :: u ++ [c]) with ((d :: u) ++ [c]) in Hv.
    apply last_char_unique in Hv. subst x. destruct Hx; contradiction.
Qed.

(** A rescue asked for a text that does not end with the closing bracket,
    trailing whitespace apart, which is how [_parse_issues_json] asks,
    returns only what [json.loads] reads as a list. *)
Theorem rescue_sound (text repaired : PyStr.text) :
  endswith (rstrip text) [RBRACKET] = false ->
  _rescue_incomplete_json_array text = Some repaired ->
  exists issues, loads repaired = Some (PList issues).
Proof.
  intros Hend H.
  destruct (contains text [LBRACKET]) eqn:Hc.
  2: { unfold _rescue_incomplete_json_array in H. rewrite Hc in H.
       rewrite orb_true_r in H. discriminate. }
  destruct (find_char text LBRACKET Hc) as [a [r [_ [Ht Ha]]]].
  destruct (rescue_unfold text a r Ht Ha) as [t [Hsub Hr]]. rewrite Hr in H. clear Hr.
  assert (Hne : rstrip (LBRACKET :: r) <> [])
    by (rewrite (rstrip_head LBRACKET r eq_refl); discriminate).
  assert (He : endswith (rstrip (LBRACKET :: r)) [RBRACKET] = false).
  { rewrite Ht, (rstrip_app a _ Hne), (endswith_app a _ RBRACKET Hne) in Hend. exact Hend. }
  assert (Hsame : LBRACKET :: t = rstrip (LBRACKET :: r)).
  { rewrite <- Hsub. unfold sub_comma_bracket_end. apply sub_absent.
    destruct (rstrip (LBRACKET :: r)) as [| c v] eqn:Ev using rev_ind; [contradiction |].
    apply search_comma_bracket_end_other.
    - intros ->. rewrite (proj2 (endswith_char (v ++ [RBRACKET]) RBRACKET)) in He;
        [discriminate | exists v; reflexivity].
    - intros ->. pose proof (rstrip_last_nonspace _ _ _ Ev). discriminate. }
  rewrite Hsame, He in H. rewrite <- Hsame in H.
  destruct (first_candidate _ _) as [candidate |] eqn:Ec.
  - injection H as <-. apply first_candidate_some in Ec as [_ Hl]. exact Hl.
  - destruct (search_array_of_object _); [| discriminate].
    destruct (loads (sub_comma_end (LBRACKET :: t) ++ [RBRACKET])) as [[] |] eqn:El;
      cbn [is_list] in H; try discriminate.
    injection H as <-. eexists. exact El.
Qed.

Lemma rescue_sound_witness :
  exists issues,
    loads (serialize [Finding [65] [] [] [] [] [] None None]) = Some (PList issues).
Proof.
  apply (rescue_sound
           (truncate_after 1 [Finding [65] [] [] [] [] [] None None;
                              Finding [66] [] [] [] [] [] None None] ++ [32; LBRACE; QUOTE])).
  - vm_compute. reflexivity.
  - vm_compute. reflexivity.
Defined.

(** *** The fence markers *)

Lemma lstrip_head (s : text) (c : N) (r : text) : lstrip s = c :: r -> is_space c = false.
Proof.
  induction s as [| d s IH]; cbn [lstrip]; [discriminate |].
  destruct (is_space d) eqn:E; [exact IH |]. intros H. injection H as <- _. exact E.
Qed.

Lemma strip_idem (s : text) : strip (strip s) = strip s.
Proof.
  unfold strip. destruct (lstrip s) as [| c r] eqn:E; [reflexivity |].
  pose proof (lstrip_head s c r E) as Hc.
  rewrite (rstrip_head c r Hc), (lstrip_nonspace c _ Hc), <- (rstrip_head c r Hc).
  apply rstrip_idem.
Qed.

Lemma replace_cons (c : N) (r old new : text) :
  startswith (c :: r) old = false -> replace (c :: r) old new = c :: replace r old new.
Proof. intros H. unfold replace. cbn [replace_from]. rewrite H. reflexivity. Qed.

Lemma replace_from_skip (old new x r : text) :
  replace_from old new (length x) (x ++ r) = replace_from old new 0 r.
Proof.
  induction x as [| c x IH]; cbn [length app].
  - reflexivity.
  - cbn [replace_from]. exact IH.
Qed.

Lemma replace_match (c : N) (old new r : text) :
  replace ((c :: old) ++ r) (c :: old) new = new ++ replace r (c :: old) new.
Proof.
  unfold replace. cbn [app replace_from].
  change (c :: old ++ r) with ((c :: old) ++ r). rewrite startswith_app.
  replace (length (c :: old) - 1)%nat with (length old) by (cbn [length]; lia).
  rewrite replace_from_skip. reflexivity.
Qed.

(** Characters other than the first of [old] pass as they are. *)
Lemma replace_free (x r : text) (c : N) (old new : text) :
  ~ In c x -> replace (x ++ r) (c :: old) new = x ++ replace r (c :: old) new.
Proof.
  induction x as [| d x IH]; intros Hn; [reflexivity |].
  cbn [app]. rewrite replace_cons.
  - rewrite IH by (intros E; apply Hn; right; exact E). reflexivity.
  - cbn [startswith]. destruct (N.eqb_spec c d) as [-> | Hne]; [| reflexivity].
    exfalso. apply Hn. left. reflexivity.
Qed.

(** After [replace("```", "")] no three backquotes stand together. *)
Lemma replace_fence_free (s : text) : contains (replace s FENCE []) FENCE = false.
Proof.
  assert (G : forall n s, (length s <= n)%nat -> contains (replace s FENCE []) FENCE = false).
  { clear s. induction n as [| n IH]; intros s Hn.
    { destruct s; [reflexivity | simpl in Hn; lia]. }
    destruct s as [| c r]; [reflexivity |].
    destruct (N.eqb_spec c 96) as [-> | Hc].
    2: { rewrite replace_cons
           by (cbn [FENCE startswith]; destruct (N.eqb_spec 96 c); [congruence | reflexivity]).
         cbn [contains]. rewrite (IH r) by (simpl in Hn; lia). rewrite orb_false_r.
         cbn [FENCE startswith]. destruct (N.eqb_spec 96 c); [congruence | reflexivity]. }
    destruct r as [| d r1]; [reflexivity |].
    destruct (N.eqb_spec d 96) as [-> | Hd].
    2: { assert (Hd' : (96 =? d) = false) by (apply N.eqb_neq; congruence).
         rewrite replace_cons by (cbn [FENCE startswith]; rewrite Hd'; reflexivity).
         rewrite replace_cons by (cbn [FENCE startswith]; rewrite Hd'; reflexivity).
         cbn [contains]. rewrite (IH r1) by (simpl in Hn; lia).
         cbn [FENCE startswith]. rewrite Hd'. reflexivity. }
    destruct r1 as [| e r2]; [reflexivity |].
    destruct (N.eqb_spec e 96) as [-> | He].
    - pose proof (replace_match 96 [96; 96] [] r2) as Hm.
      change (replace (96 :: 96 :: 96 :: r2) FENCE [] = replace r2 FENCE []) in Hm.
      rewrite Hm. apply IH. simpl in Hn. lia.
    - assert (He' : (96 =? e) = false) by (apply N.eqb_neq; congruence).
      rewrite replace_cons by (cbn [FENCE startswith]; rewrite He'; reflexivity).
      rewrite replace_cons by (cbn [FENCE startswith]; rewrite He'; reflexivity).
      rewrite replace_cons by (cbn [FENCE startswith]; rewrite He'; reflexivity).
      cbn [contains]. rewrite (IH r2) by (simpl in Hn; lia).
      cbn [FENCE startswith]. rewrite He'. reflexivity. }
  apply (G (length s)). lia.
Qed.

(** What the cleaning of lines 620-624 comes to. *)
Lemma remove_fences_replace (cleaned_text : text) :
  remove_fences cleaned_text
  = strip (replace (replace cleaned_text FENCE_JSON []) FENCE []) /\
  contains (remove_fences cleaned_text) FENCE = false.
Proof.
  unfold remove_fences.
  set (x := replace (replace cleaned_text FENCE_JSON []) FENCE []).
  assert (Hx : contains (strip x) FENCE = false)
    by (apply strip_contains, replace_fence_free).
  rewrite filter_all.
  - rewrite join_split, strip_idem. split; [reflexivity | exact Hx].
  - intros line Hl. rewrite (no_fence_line _ _ Hx Hl). reflexivity.
Qed.

(** The filter of lines 622-623 never removes a line: once the two
    [replace] calls are done no line can be a fence marker, so the cleaning
    is the two [replace] calls and a [strip], and what it returns holds no
    fence marker. *)
Theorem fence_filter_keeps_all (cleaned_text : text) :
  remove_fences cleaned_text
  = strip (replace (replace cleaned_text FENCE_JSON []) FENCE []) /\
  contains (remove_fences cleaned_text) FENCE = false /\
  filter (fun line => negb (is_fence_line (strip line)))
    (split (strip (replace (replace cleaned_text FENCE_JSON []) FENCE [])) NEWLINE)
  = split (strip (replace (replace cleaned_text FENCE_JSON []) FENCE [])) NEWLINE.
Proof.
  destruct (remove_fences_replace cleaned_text) as [H1 H2].
  split; [exact H1 |]. split; [exact H2 |].
  apply filter_all. intros line Hl.
  rewrite (no_fence_line _ _ (strip_contains _ _ (replace_fence_free _)) Hl). reflexivity.
Qed.

(** *** Texts around the array *)

Lemma parse_cleaned (response_text u : text) (l : list pyval) :
  from_first_bracket (remove_fences (strip response_text)) = LBRACKET :: u ++ [RBRACKET] ->
  search m_comma_bracket (LBRACKET :: u ++ [RBRACKET]) = false ->
  loads (LBRACKET :: u ++ [RBRACKET]) = Some (PList l) ->
  _parse_issues_json response_text = Ok l.
Proof.
  intros Hb Hc Hl. unfold _parse_issues_json. rewrite Hb.
  unfold repaired_text, needs_rescue.
  assert (He : endswith (LBRACKET :: u ++ [RBRACKET]) [RBRACKET] = true).
  { apply endswith_char. exists (LBRACKET :: u). reflexivity. }
  rewrite He. cbn [negb]. rewrite andb_false_r.
  unfold sub_comma_bracket. rewrite (sub_absent _ _ _ Hc). rewrite Hl. reflexivity.
Qed.

Lemma serialize_brackets (findings : list finding) :
  exists u, serialize findings = LBRACKET :: u ++ [RBRACKET].
Proof. unfold serialize. cbn [dumps]. eexists. reflexivity. Qed.

Lemma lstrip_spaces (w r : text) : forallb is_space w = true -> lstrip (w ++ r) = lstrip r.
Proof.
  induction w as [| c w IH]; cbn [forallb app lstrip]; intros H; [reflexivity |].
  apply andb_true_iff in H as [Hc Hw]. rewrite Hc. apply IH, Hw.
Qed.

Lemma rstrip_spaces (r w : text) : forallb is_space w = true -> rstrip (r ++ w) = rstrip r.
Proof.
  intros H. unfold rstrip. rewrite rev_app_distr, lstrip_spaces; [reflexivity |].
  rewrite forallb_forall in *. intros x Hx. apply H. apply in_rev. exact Hx.
Qed.

(** What [lstrip] leaves of a text before a character that is no
    whitespace: a tail of it. *)
Lemma lstrip_before (pre : text) (c : N) (r : text) :
  is_space c = false ->
  exists q p, pre = q ++ p /\ lstrip (pre ++ c :: r) = p ++ c :: r.
Proof.
  intros Hc. induction pre as [| d pre IH]; cbn [app lstrip].
  - exists [], []. rewrite Hc. split; reflexivity.
  - destruct (is_space d).
    + destruct IH as [q [p [-> E]]]. exists (d :: q), p. split; [reflexivity | exact E].
    + exists [], (d :: pre). split; reflexivity.
Qed.

(** The standard serialization with a text before it that holds no opening
    bracket, as a sentence that introduces the array, and whitespace after
    it, is read as the serialization alone is. *)
Theorem parse_ignores_preamble (findings : list finding) (preamble trailing : text) :
  forallb valid_finding findings = true ->
  ~ In LBRACKET preamble ->
  forallb is_space trailing = true ->
  contains (preamble ++ serialize findings) FENCE = false ->
  search m_comma_bracket (serialize findings) = false ->
  _parse_issues_json (preamble ++ serialize findings ++ trailing)
  = Ok (map finding_py findings).
Proof.
  intros Hv Hpre Hws Hf Hc.
  pose proof (loads_serialize findings Hv) as Hl.
  destruct (serialize_brackets findings) as [u Hu]. rewrite Hu in *.
  apply (parse_cleaned _ u); [| exact Hc | exact Hl].
  destruct (lstrip_before preamble LBRACKET (u ++ [RBRACKET] ++ trailing) eq_refl)
    as [q [p [Hq Hp]]].
  assert (Hp_in : ~ In LBRACKET p).
  { intros E. apply Hpre. rewrite Hq. apply in_or_app. right. exact E. }
  assert (Hstrip : strip (preamble ++ (LBRACKET :: u ++ [RBRACKET]) ++ trailing)
                   = p ++ LBRACKET :: u ++ [RBRACKET]).
  { unfold strip. cbn [app]. rewrite <- app_assoc. rewrite Hp.
    change (p ++ LBRACKET :: u ++ [RBRACKET] ++ trailing)
      with (p ++ (LBRACKET :: u ++ [RBRACKET] ++ trailing)).
    assert (Hr : rstrip (LBRACKET :: u ++ [RBRACKET] ++ trailing)
                 = LBRACKET :: u ++ [RBRACKET]).
    { change (LBRACKET :: u ++ [RBRACKET] ++ trailing)
        with ((LBRACKET :: u) ++ [RBRACKET] ++ trailing).
      rewrite app_assoc, (rstrip_spaces _ _ Hws).
      apply (rstrip_tight (LBRACKET :: u) RBRACKET eq_refl). }
    rewrite rstrip_app by (rewrite Hr; discriminate). rewrite Hr. reflexivity. }
  rewrite Hstrip.
  assert (Hfp : contains (p ++ LBRACKET :: u ++ [RBRACKET]) FENCE = false).
  { rewrite Hq, <- app_assoc in Hf. apply (contains_false_app_r q _ _ Hf). }
  assert (Hclean : remove_fences (p ++ LBRACKET :: u ++ [RBRACKET])
                   = p ++ LBRACKET :: u ++ [RBRACKET]).
  { destruct p as [| c p'].
    - apply (remove_fences_id LBRACKET RBRACKET u eq_refl eq_refl Hfp).
    - assert (Hc0 : is_space c = false).
      { apply (lstrip_head (preamble ++ LBRACKET :: u ++ [RBRACKET] ++ trailing) c
                 (p' ++ LBRACKET :: u ++ [RBRACKET] ++ trailing)). exact Hp. }
      change ((c :: p') ++ LBRACKET :: u ++ [RBRACKET])
        with (c :: (p' ++ LBRACKET :: u ++ [RBRACKET])) in *.
      replace (p' ++ LBRACKET :: u ++ [RBRACKET])
        with ((p' ++ LBRACKET :: u) ++ [RBRACKET]) in * by (rewrite <- app_assoc; reflexivity).
      apply (remove_fences_id c RBRACKET _ Hc0 eq_refl Hfp). }
  rewrite Hclean. unfold from_first_bracket, sub_to_first_bracket.
  assert (Hin : contains (p ++ LBRACKET :: u ++ [RBRACKET]) [LBRACKET] = true).
  { apply contains_char. apply in_or_app. right. left. reflexivity. }
  rewrite Hin, (find_first p (u ++ [RBRACKET]) LBRACKET Hp_in).
  rewrite skipn_app, Nat.sub_diag, skipn_all. cbn [skipn app].
  apply (rstrip_tight (LBRACKET :: u) RBRACKET eq_refl).
Qed.

Lemma parse_ignores_preamble_witness :
  _parse_issues_json
    ([32; 72; 101; 114; 101; 58; 10]
     ++ serialize [Finding [65] [101] [] [] [] [] (Some (1, 2, 3, 4)%Z) (Some 0%Z)]
     ++ [10; 32])
  = Ok (map finding_py [Finding [65] [101] [] [] [] [] (Some (1, 2, 3, 4)%Z) (Some 0%Z)]).
Proof.
  apply (parse_ignores_preamble
           [Finding [65] [101] [] [] [] [] (Some (1, 2, 3, 4)%Z) (Some 0%Z)]
           [32; 72; 101; 114; 101; 58; 10] [10; 32]).
  - reflexivity.
  - vm_compute. intuition discriminate.
  - reflexivity.
  - vm_compute. reflexivity.
  - vm_compute. reflexivity.
Defined.

(** *** A fenced array *)

Lemma strip_between_newlines (c d : N) (u : text) :
  is_space c = false -> is_space d = false ->
  strip (NEWLINE :: (c :: u ++ [d]) ++ [NEWLINE]) = c :: u ++ [d].
Proof.
  intros Hc Hd. unfold strip.
  change (lstrip (NEWLINE :: (c :: u ++ [d]) ++ [NEWLINE]))
    with (lstrip ((c :: u ++ [d]) ++ [NEWLINE])).
  cbn [app]. rewrite (lstrip_nonspace c _ Hc).
  change (c :: (u ++ [d]) ++ [NEWLINE]) with ((c :: u ++ [d]) ++ [NEWLINE]).
  rewrite (rstrip_spaces _ [NEWLINE] eq_refl).
  apply (rstrip_tight (c :: u) d Hd).
Qed.

Lemma replace_closing_fence (x : text) :
  ~ In 96 x -> replace (x ++ FENCE) FENCE [] = x.
Proof.
  intros Hx. change FENCE with (96 :: [96; 96]) at 2.
  rewrite (replace_free x FENCE 96 [96; 96] [] Hx).
  change (replace FENCE (96 :: [96; 96]) []) with (@nil N). apply app_nil_r.
Qed.

Lemma clean_json_fence (x : text) :
  ~ In 96 x -> replace (replace (FENCE_JSON ++ x ++ FENCE) FENCE_JSON []) FENCE [] = x.
Proof.
  intros Hx.
  pose proof (replace_match 96 [96; 96; 106; 115; 111; 110] [] (x ++ FENCE)) as Hm.
  change (replace (FENCE_JSON ++ x ++ FENCE) FENCE_JSON []
          = replace (x ++ FENCE) FENCE_JSON []) in Hm.
  rewrite Hm. change FENCE_JSON with (96 :: [96; 96; 106; 115; 111; 110]).
  rewrite (replace_free x FENCE 96 _ [] Hx).
  change (replace FENCE (96 :: [96; 96; 106; 115; 111; 110]) []) with FENCE.
  apply replace_closing_fence, Hx.
Qed.

Lemma clean_plain_fence (y : text) :
  ~ In 96 y ->
  replace (replace (FENCE ++ (NEWLINE :: y) ++ FENCE) FENCE_JSON []) FENCE [] = NEWLINE :: y.
Proof.
  intros Hy.
  assert (Hx : ~ In 96 (NEWLINE :: y)) by (intros [E | E]; [discriminate | contradiction]).
  assert (H1 : replace (FENCE ++ (NEWLINE :: y) ++ FENCE) FENCE_JSON []
               = FENCE ++ replace ((NEWLINE :: y) ++ FENCE) FENCE_JSON []) by reflexivity.
  rewrite H1. change FENCE_JSON with (96 :: [96; 96; 106; 115; 111; 110]).
  rewrite (replace_free (NEWLINE :: y) FENCE 96 _ [] Hx).
  change (replace FENCE (96 :: [96; 96; 106; 115; 111; 110]) []) with FENCE.
  pose proof (replace_match 96 [96; 96] [] ((NEWLINE :: y) ++ FENCE)) as Hm.
  change (replace (FENCE ++ (NEWLINE :: y) ++ FENCE) FENCE []
          = replace ((NEWLINE :: y) ++ FENCE) FENCE []) in Hm.
  rewrite Hm. apply replace_closing_fence, Hx.
Qed.

Lemma strip_fenced (opening x : text) :
  startswith opening [96] = true -> strip (opening ++ x ++ FENCE) = opening ++ x ++ FENCE.
Proof.
  destruct opening as [| c o]; [discriminate |].
  cbn [startswith]. rewrite andb_true_r. intros H. apply N.eqb_eq in H. subst c.
  assert (E : (96 :: o) ++ x ++ FENCE = 96 :: (o ++ x ++ [96; 96]) ++ [96]).
  { cbn [app FENCE]. rewrite <- !app_assoc. reflexivity. }
  rewrite E. apply (strip_tight 96 96 _ eq_refl eq_refl).
Qed.

(** The standard serialization between an opening fence, with or without
    the word [json], and a closing fence, each on a line of its own, is read
    as the serialization alone is, when it holds no backquote. *)
Theorem parse_fenced (findings : list finding) (opening : text) :
  forallb valid_finding findings = true ->
  opening = FENCE_JSON \/ opening = FENCE ->
  ~ In 96 (serialize findings) ->
  search m_comma_bracket (serialize findings) = false ->
  _parse_issues_json (opening ++ NEWLINE :: serialize findings ++ NEWLINE :: FENCE)
  = Ok (map finding_py findings).
Proof.
  intros Hv Ho Hq Hc.
  pose proof (loads_serialize findings Hv) as Hl.
  destruct (serialize_brackets findings) as [u Hu]. rewrite Hu in *.
  apply (parse_cleaned _ u); [| exact Hc | exact Hl].
  set (ser := LBRACKET :: u ++ [RBRACKET]) in *.
  assert (Hy : ~ In 96 (ser ++ [NEWLINE])).
  { intros E. apply in_app_or in E as [E | [E | []]]; [contradiction | discriminate]. }
  assert (Ht : opening ++ NEWLINE :: ser ++ NEWLINE :: FENCE
               = opening ++ (NEWLINE :: ser ++ [NEWLINE]) ++ FENCE).
  { cbn [app]. rewrite <- app_assoc. reflexivity. }
  rewrite Ht.
  assert (Hs : strip (opening ++ (NEWLINE :: ser ++ [NEWLINE]) ++ FENCE)
               = opening ++ (NEWLINE :: ser ++ [NEWLINE]) ++ FENCE).
  { apply strip_fenced. destruct Ho as [-> | ->]; reflexivity. }
  rewrite Hs. rewrite (proj1 (remove_fences_replace _)).
  assert (Hr : replace (replace (opening ++ (NEWLINE :: ser ++ [NEWLINE]) ++ FENCE)
                          FENCE_JSON []) FENCE []
               = NEWLINE :: ser ++ [NEWLINE]).
  { destruct Ho as [-> | ->].
    - apply clean_json_fence. intros [E | E]; [discriminate | contradiction].
    - apply (clean_plain_fence (ser ++ [NEWLINE]) Hy). }
  rewrite Hr. unfold ser.
  rewrite (strip_between_newlines LBRACKET RBRACKET u eq_refl eq_refl).
  apply (from_first_bracket_id u RBRACKET eq_refl).
Qed.

Lemma parse_fenced_witness :
  _parse_issues_json
    (FENCE_JSON ++ NEWLINE
       :: serialize [Finding [65] [101] [] [] [] [] (Some (1, 2, 3, 4)%Z) (Some 0%Z)]
       ++ NEWLINE :: FENCE)
  = Ok (map finding_py [Finding [65] [101] [] [] [] [] (Some (1, 2, 3, 4)%Z) (Some 0%Z)]).
Proof.
  apply (parse_fenced [Finding [65] [101] [] [] [] [] (Some (1, 2, 3, 4)%Z) (Some 0%Z)]
           FENCE_JSON).
  - reflexivity.
  - left. reflexivity.
  - vm_compute. intuition discriminate.
  - vm_compute. reflexivity.
Defined.

(** *** A response cut inside an object *)

Lemma finditer_from_none (tail : text) (skip pos : nat) :
  ~ In RBRACE tail -> finditer_from m_brace_comma skip pos tail = [].
Proof.
  revert skip pos. induction tail as [| c r IH]; intros skip pos Hn; [reflexivity |].
  assert (Hr : ~ In RBRACE r) by (intros E; apply Hn; right; exact E).
  cbn [finditer_from]. destruct skip as [| k]; [| apply IH, Hr].
  cbn [m_brace_comma]. destruct (N.eqb_spec c RBRACE) as [-> | Hc].
  - exfalso. apply Hn. left. reflexivity.
  - apply IH, Hr.
Qed.

Lemma spaces_then_comma_stop (a b : text) (n : nat) :
  spaces_then COMMA (a ++ RBRACE :: b) = Some n -> (n <= length a)%nat.
Proof. apply spaces_then_comma_before_brace. Qed.

(** The last match of [}\s*,] in a text with no closing brace after a
    ["},"] is that one. *)
Lemma finditer_from_last_tail (x tail : text) (skip pos : nat) :
  (skip <= length x)%nat -> ~ In RBRACE tail ->
  exists l, finditer_from m_brace_comma skip pos (x ++ RBRACE :: COMMA :: tail)
            = l ++ [(pos + length x)%nat].
Proof.
  intros Hs Ht. revert skip pos Hs. induction x as [| c x IH]; intros skip pos Hs.
  - simpl in Hs. assert (skip = 0)%nat by lia. subst.
    exists []. cbn [app finditer_from m_brace_comma spaces_then].
    rewrite !N.eqb_refl. cbn [option_map finditer_from].
    rewrite (finditer_from_none tail 0 (S (S pos)) Ht), Nat.add_0_r. reflexivity.
  - replace (pos + length (c :: x))%nat with (S pos + length x)%nat by (simpl; lia).
    cbn [app finditer_from]. destruct skip as [| k].
    + destruct (m_brace_comma (c :: x ++ RBRACE :: COMMA :: tail)) as [[| n] |] eqn:E.
      * destruct (IH 0%nat (S pos) ltac:(lia)) as [l ->].
        exists l. reflexivity.
      * assert (Hn : (n <= length x)%nat).
        { cbn [m_brace_comma] in E. destruct (c =? RBRACE); [| discriminate].
          destruct (spaces_then COMMA (x ++ RBRACE :: COMMA :: tail)) as [k |] eqn:E2;
            [| discriminate].
          injection E as <-.
          apply (spaces_then_comma_stop x (COMMA :: tail) k E2). }
        destruct (IH n (S pos) Hn) as [l ->].
        exists (pos :: l). reflexivity.
      * destruct (IH 0%nat (S pos) ltac:(lia)) as [l ->].
        exists l. reflexivity.
    + simpl in Hs. destruct (IH k (S pos) ltac:(lia)) as [l ->].
      exists l. reflexivity.
Qed.

(** The rescue of a text that goes on after a ["},"] with no closing
    brace, and ends with a character that is neither whitespace nor the
    closing bracket: the text up to that brace, closed. *)
Lemma rescue_cut (x tl u : text) (d : N) (l : list pyval) :
  COMMA :: tl = u ++ [d] -> is_space d = false -> d <> RBRACKET -> ~ In RBRACE tl ->
  search m_comma_bracket (LBRACKET :: x ++ [RBRACE; RBRACKET]) = false ->
  loads (LBRACKET :: x ++ [RBRACE; RBRACKET]) = Some (PList l) ->
  _rescue_incomplete_json_array ((LBRACKET :: x) ++ RBRACE :: COMMA :: tl)
    = Some (LBRACKET :: x ++ [RBRACE; RBRACKET]).
Proof.
  intros Hu Hd Hdb Hv Hc Hl. unfold _rescue_incomplete_json_array.
  set (t := (LBRACKET :: x) ++ RBRACE :: COMMA :: tl).
  change (is_empty t) with false. change (contains t [LBRACKET]) with true.
  cbv iota. cbn [orb negb]. cbv iota.
  change (find t [LBRACKET]) with (Some 0%nat). cbv iota.
  change (skipn 0 t) with t.
  assert (Ht : t = ((LBRACKET :: x) ++ RBRACE :: u) ++ [d]).
  { unfold t. rewrite Hu, <- app_assoc. reflexivity. }
  assert (Hr : rstrip t = t) by (rewrite Ht; apply rstrip_tight; exact Hd).
  rewrite Hr.
  assert (Hs : sub_comma_bracket_end t = t).
  { unfold sub_comma_bracket_end. apply sub_absent. rewrite Ht.
    apply search_comma_bracket_end_other; [exact Hdb |].
    intros ->. discriminate. }
  rewrite Hs.
  assert (He : endswith t [RBRACKET] = false) by (rewrite Ht; apply endswith_other; exact Hdb).
  rewrite He.
  destruct (finditer_from_last_tail (LBRACKET :: x) tl 0 0 ltac:(lia) Hv) as [ms Hms].
  change ((LBRACKET :: x) ++ RBRACE :: COMMA :: tl) with t in Hms.
  unfold finditer. rewrite Hms, rev_app_distr.
  cbn [rev app first_candidate Nat.add].
  assert (Hcand : firstn (length (LBRACKET :: x) + 1) t ++ [RBRACKET]
                  = LBRACKET :: x ++ [RBRACE; RBRACKET]).
  { replace (length (LBRACKET :: x) + 1)%nat with (length ((LBRACKET :: x) ++ [RBRACE]))
      by (rewrite length_app; reflexivity).
    assert (Ht2 : t = ((LBRACKET :: x) ++ [RBRACE]) ++ COMMA :: tl).
    { unfold t. rewrite <- app_assoc. reflexivity. }
    rewrite Ht2, firstn_length_app. cbn [app]. rewrite <- app_assoc. reflexivity. }
  rewrite Hcand.
  assert (Hsc : sub_comma_bracket (LBRACKET :: x ++ [RBRACE; RBRACKET])
                = LBRACKET :: x ++ [RBRACE; RBRACKET]) by (apply sub_absent, Hc).
  rewrite Hsc, Hl. reflexivity.
Qed.

Lemma parse_cut_text (x tl u : text) (d : N) (l : list pyval) :
  COMMA :: tl = u ++ [d] -> is_space d = false -> d <> RBRACKET -> ~ In RBRACE tl ->
  contains ((LBRACKET :: x) ++ RBRACE :: COMMA :: tl) FENCE = false ->
  search m_comma_bracket (LBRACKET :: x ++ [RBRACE; RBRACKET]) = false ->
  loads (LBRACKET :: x ++ [RBRACE; RBRACKET]) = Some (PList l) ->
  forall w, forallb is_space w = true ->
  _parse_issues_json (((LBRACKET :: x) ++ RBRACE :: COMMA :: tl) ++ w) = Ok l.
Proof.
  intros Hu Hd Hdb Hv Hf Hc Hl w Hw. unfold _parse_issues_json.
  set (t := (LBRACKET :: x) ++ RBRACE :: COMMA :: tl) in *.
  assert (Ht : t = LBRACKET :: (x ++ RBRACE :: u) ++ [d]).
  { unfold t. rewrite Hu. cbn [app]. rewrite <- app_assoc. reflexivity. }
  assert (Hstrip : strip (t ++ w) = t).
  { assert (Hl0 : lstrip (t ++ w) = t ++ w)
      by (rewrite Ht; apply (lstrip_nonspace LBRACKET _ eq_refl)).
    unfold strip. rewrite Hl0, (rstrip_spaces t w Hw). rewrite Ht.
    apply (rstrip_tight (LBRACKET :: x ++ RBRACE :: u) d Hd). }
  rewrite Hstrip.
  assert (Hclean : remove_fences t = t).
  { rewrite Ht. apply remove_fences_id; [reflexivity | exact Hd |]. rewrite <- Ht. exact Hf. }
  rewrite Hclean.
  assert (Hfirst : from_first_bracket t = t).
  { rewrite Ht. apply from_first_bracket_id, Hd. }
  rewrite Hfirst.
  unfold repaired_text, needs_rescue.
  assert (Hne : is_empty t = false) by (rewrite Ht; reflexivity).
  assert (He : endswith t [RBRACKET] = false).
  { rewrite Ht. change (LBRACKET :: (x ++ RBRACE :: u) ++ [d])
      with ((LBRACKET :: x ++ RBRACE :: u) ++ [d]).
    apply endswith_other, Hdb. }
  rewrite Hne, He. cbn [negb andb].
  unfold t. rewrite (rescue_cut x tl u d l Hu Hd Hdb Hv Hc Hl).
  unfold sub_comma_bracket. rewrite (sub_absent _ _ _ Hc). rewrite Hl. reflexivity.
Qed.

Lemma truncate_after_closed (k : nat) (findings : list finding) :
  (1 <= k)%nat -> findings <> [] ->
  exists x,
    truncate_after k findings = (LBRACKET :: x) ++ [RBRACE; COMMA] /\
    serialize (firstn k findings) = LBRACKET :: x ++ [RBRACE; RBRACKET].
Proof.
  intros Hk Hne.
  assert (H1 : firstn k findings <> []).
  { destruct findings as [| f fs]; [contradiction |].
    destruct k; [lia | discriminate]. }
  destruct (join_findings_last (firstn k findings) H1) as [x Hx].
  exists x. split.
  - unfold truncate_after. rewrite Hx. cbn [app]. rewrite <- app_assoc. reflexivity.
  - unfold serialize. cbn [dumps]. rewrite Hx, <- app_assoc. reflexivity.
Qed.

(** What [rstrip] leaves after a comma ends with a character that is no
    whitespace. *)
Lemma rstrip_after_comma (partial : text) :
  exists tl w u d,
    partial = tl ++ w /\ forallb is_space w = true /\ tl = rstrip partial /\
    COMMA :: tl = u ++ [d] /\ is_space d = false /\
    (d = RBRACKET -> endswith (rstrip partial) [RBRACKET] = true).
Proof.
  destruct (rstrip_prefix partial) as [w Hw].
  assert (Hws : forallb is_space w = true).
  { destruct (forallb is_space w) eqn:E; [reflexivity | exfalso].
    assert (Hex : exists a c b, w = a ++ c :: b /\ is_space c = false
                                /\ forallb is_space b = true).
    { clear - E. induction w as [| c w IH]; [discriminate |].
      cbn [forallb] in E. destruct (forallb is_space w) eqn:Ew.
      - rewrite andb_true_r in E. exists [], c, w. repeat split; assumption.
      - destruct (IH eq_refl) as [a [c' [b [-> [H1 H2]]]]].
        exists (c :: a), c', b. repeat split; assumption. }
    destruct Hex as [a [c [b [Hab [Hc Hb]]]]].
    assert (Hr : rstrip partial = (rstrip partial ++ a) ++ [c]).
    { rewrite Hw at 1. rewrite Hab.
      replace (rstrip partial ++ a ++ c :: b) with (((rstrip partial ++ a) ++ [c]) ++ b)
        by (rewrite <- !app_assoc; reflexivity).
      rewrite (rstrip_spaces _ b Hb). apply rstrip_tight, Hc. }
    apply (f_equal (@length N)) in Hr. rewrite !length_app in Hr. simpl in Hr. lia. }
  destruct (rstrip partial) as [| c t] eqn:Er using rev_ind.
  - exists [], w, [], COMMA. repeat split; try assumption. discriminate.
  - clear IHt. exists (t ++ [c]), w, (COMMA :: t), c. repeat split; try assumption.
    + apply (rstrip_last_nonspace partial t c Er).
    + intros ->. apply endswith_char. exists t. reflexivity.
Qed.

(** A response cut anywhere after the comma that follows the [k]-th object
    is read as the first [k] findings, whatever stands after that comma, as
    long as it holds no closing brace and does not end, trailing whitespace
    apart, with a closing bracket. *)
Theorem parse_cut_inside_object (findings : list finding) (k : nat) (partial : text) :
  (1 <= k <= length findings)%nat ->
  forallb valid_finding findings = true ->
  ~ In RBRACE partial ->
  endswith (rstrip partial) [RBRACKET] = false ->
  contains (truncate_after k findings ++ partial) FENCE = false ->
  search m_comma_bracket (serialize (firstn k findings)) = false ->
  _parse_issues_json (truncate_after k findings ++ partial)
  = Ok (map finding_py (firstn k findings)).
Proof.
  intros Hk Hv Hb He Hf Hc.
  assert (Hne : findings <> []) by (destruct findings; [simpl in Hk; lia | discriminate]).
  destruct (truncate_after_closed k findings (proj1 Hk) Hne) as [x [Ht Hs]].
  pose proof (loads_serialize (firstn k findings) (forallb_firstn _ k _ Hv)) as Hl.
  rewrite Hs in Hc, Hl.
  destruct (rstrip_after_comma partial) as [tl [w [u [d [Hp [Hw [Htl [Hu [Hd Hdb]]]]]]]]].
  assert (Hd' : d <> RBRACKET) by (intros E; rewrite (Hdb E) in He; discriminate).
  assert (Htl_in : ~ In RBRACE tl).
  { intros E. apply Hb. rewrite Hp. apply in_or_app. left. exact E. }
  assert (Htext : truncate_after k findings ++ partial
                  = ((LBRACKET :: x) ++ RBRACE :: COMMA :: tl) ++ w).
  { rewrite Ht, Hp. rewrite <- !app_assoc. reflexivity. }
  rewrite Htext in *.
  apply (parse_cut_text x tl u d _ Hu Hd Hd' Htl_in); try assumption.
  apply (contains_false_app_l _ w _ Hf).
Qed.

Lemma parse_cut_inside_object_witness :
  _parse_issues_json
    (truncate_after 1 [Finding [65] [] [] [] [] [] None None;
                       Finding [66] [] [] [] [] [] None None]
     ++ [32; LBRACE; QUOTE; 99; 97; 116; 10])
  = Ok (map finding_py (firstn 1 [Finding [65] [] [] [] [] [] None None;
                                  Finding [66] [] [] [] [] [] None None])).
Proof.
  apply (parse_cut_inside_object
           [Finding [65] [] [] [] [] [] None None; Finding [66] [] [] [] [] [] None None] 1
           [32; LBRACE; QUOTE; 99; 97; 116; 10]).
  - simpl. lia.
  - reflexivity.
  - vm_compute. intuition discriminate.
  - vm_compute. reflexivity.
  - vm_compute. reflexivity.
  - vm_compute. reflexivity.
Defined.

End RescueFacts.

(** ** More on the box normalizer *)

Section NormalizeMore.
Import PyStr Json Exn App Wire Inv.
Local Open Scope N_scope.

Variable float_of_str : text -> option pyfloat.

(** *** The box as a string *)



End NormalizeMore.

Section NormalizeExamples.
Import PyStr Json Exn App Wire Inv.
Local Open Scope N_scope.


End NormalizeExamples.

(** ** More on the region cropper *)

Section CropMore.
Import PyNum Utils.
Local Open Scope Q_scope.





(** A box of another length than four gives the image back; a box of four
    numbers is always cropped, whatever the padding ratios, negative ones
    too, to a rectangle inside the image that is at least one pixel wide
    and high. *)
Theorem crop_with_any_ratio (img : image) (box_2d : list Q)
    (padding_ratio_y padding_ratio_x : Q) :
  (1 <= img_w img)%Z -> (1 <= img_h img)%Z ->
  match crop_evidence_region_with img box_2d padding_ratio_y padding_ratio_x with
  | Original => length box_2d <> 4%nat
  | Cropped r =>
      length box_2d = 4%nat /\
      (0 <= r_left r /\ r_left r + 1 <= r_right r /\ r_right r <= img_w img)%Z /\
      (0 <= r_upper r /\ r_upper r + 1 <= r_lower r /\ r_lower r <= img_h img)%Z
  end.
Proof.
  intros Hw Hh.
  destruct box_2d as [| a [| b [| c [| d [| e l]]]]];
    cbn [crop_evidence_region_with length]; try (intros E; discriminate E).
  split; [reflexivity |].
  pose proof (clamp_pixels_inside img
    (to_pixels img (clamp_normalized
       (expand_box padding_ratio_y padding_ratio_x (Box a b c d)))) Hw Hh) as Hin.
  cbv zeta in Hin. unfold crop_rect. lia.
Qed.



End CropMore.

Lemma crop_with_any_ratio_witness :
  match Utils.crop_evidence_region_with (Utils.Image 640 480) [200; 100; 300; 400]
          (- (1 # 4)) 2 with
  | Utils.Original => length [200; 100; 300; 400]%Q <> 4%nat
  | Utils.Cropped r =>
      length [200; 100; 300; 400]%Q = 4%nat /\
      (0 <= Utils.r_left r /\ Utils.r_left r + 1 <= Utils.r_right r
       /\ Utils.r_right r <= 640)%Z /\
      (0 <= Utils.r_upper r /\ Utils.r_upper r + 1 <= Utils.r_lower r
       /\ Utils.r_lower r <= 480)%Z
  end.
Proof.
  apply (crop_with_any_ratio (Utils.Image 640 480) [200; 100; 300; 400]%Q (- (1 # 4))%Q 2%Q);
    simpl; lia.
Defined.



(** ** The image a finding is shown with *)

Section ViewFacts.
Import PyStr Json Exn AiExtractor App AppView Wire Inv.
Local Open Scope Z_scope.

Variable float_of_str : text -> option pyfloat.

Lemma py_getitem_in_range {A : Type} (l : list A) (i : Z) :
  0 <= i < Z.of_nat (length l) ->
  exists a, nth_error l (Z.to_nat i) = Some a /\ py_getitem l i = Returns a.
Proof.
  intros Hi. unfold py_getitem.
  destruct (Z.ltb_spec i 0) as [Hneg | _]; [lia |].
  destruct (Z.leb_spec 0 i) as [_ | H0]; [| lia].
  destruct (Z.ltb_spec i (Z.of_nat (length l))) as [_ | Hn]; [| lia].
  cbn [andb]. destruct (nth_error l (Z.to_nat i)) as [a |] eqn:E.
  - exists a. split; reflexivity.
  - apply nth_error_None in E. lia.
Qed.

(** The guard of line 238 keeps the lookup of line 248 inside the list:
    for no finding and no list of images does the loop raise [IndexError],
    and a negative index is never read from the end of the list. *)
Theorem issue_view_guarded (issue : pyval) (all_images : list Utils.image) :
  issue_view float_of_str issue all_images <> RaisesIndexError /\
  forall d i,
    issue = PDict d -> dict_get d IMAGE_INDEX = Some (PInt i) -> i < 0 ->
    issue_view float_of_str issue all_images = Returns NoImage \/
    exists e, issue_view float_of_str issue all_images = Raises e.
Proof.
  assert (Hstep : forall image_index box_2d,
            and_then (of_result (index_missing image_index (length all_images)))
              (fun missing =>
               if missing then Returns NoImage
               else
                 match image_index with
                 | PInt i =>
                     and_then (py_getitem all_images i) (fun source_img =>
                     Returns (SourceImage source_img box_2d))
                 | PBool b =>
                     and_then (py_getitem all_images (if b then 1 else 0))
                       (fun source_img => Returns (SourceImage source_img box_2d))
                 | _ => Raises TypeError
                 end) <> RaisesIndexError).
  { intros image_index box_2d.
    destruct image_index as [| b | i | [| neg | q] | s | l | d];
      cbn [index_missing of_result and_then]; try discriminate.
    - destruct (Z.ltb_spec (if b then 1 else 0) (Z.of_nat (length all_images)))
        as [Hb | Hb]; cbn [negb]; [| discriminate].
      destruct (py_getitem_in_range all_images (if b then 1 else 0)) as [a [_ ->]];
        [destruct b; lia | discriminate].
    - destruct (Z.leb_spec 0 i) as [H0 | H0]; cbn [andb negb]; [| discriminate].
      destruct (Z.ltb_spec i (Z.of_nat (length all_images))) as [Hn | Hn];
        cbn [negb]; [| discriminate].
      destruct (py_getitem_in_range all_images i) as [a [_ ->]]; [lia | discriminate].
    - destruct (negb _); discriminate. }
  split.
  - unfold issue_view.
    destruct (py_get issue CATEGORY) as [c | e]; cbn [of_result and_then]; [| discriminate].
    destruct (py_get issue BOX_2D) as [raw | e]; cbn [of_result and_then]; [| discriminate].
    destruct (_normalize_box_2d float_of_str raw) as [box | e];
      cbn [of_result and_then]; [| discriminate].
    destruct (py_get issue IMAGE_INDEX) as [idx | e]; cbn [of_result and_then];
      [| discriminate].
    destruct (int_of_index idx) as [idx' | e]; cbn [of_result and_then]; [| discriminate].
    apply Hstep.
  - intros d i -> Hd Hi. unfold issue_view. cbn [py_get of_result and_then].
    destruct (_normalize_box_2d float_of_str _) as [box | e];
      cbn [of_result and_then]; [| right; eexists; reflexivity].
    rewrite Hd. cbn [int_of_index index_missing of_result and_then].
    destruct (Z.leb_spec 0 i) as [H0 | H0]; [lia |]. cbn [andb negb].
    left. reflexivity.
Qed.




End ViewFacts.

Section ViewExamples.
Import PyStr Json Exn AiExtractor App AppView Wire Inv.
Local Open Scope N_scope.



End ViewExamples.

(** ** The counters of the result page *)

Section CounterFacts.
Import PyStr Json Exn AiExtractor AppView Wire Inv.
Local Open Scope nat_scope.

(** One finding: what it adds to the two counters and the icon it gets. *)
Lemma finding_counted (d : list (text * pyval)) :
  status_in [ERROR] (PDict d) = Ok (has_status ERROR (PDict d)) /\
  status_in [WARNING; SUGGESTION] (PDict d) = Ok (warns (PDict d)) /\
  issue_icon (PDict d) = Ok (shown_icon (PDict d)) /\
  (has_status ERROR (PDict d) = true -> warns (PDict d) = false).
Proof.
  unfold status_in, issue_icon, shown_icon, warns, has_status. cbn [py_get bind].
  destruct (dict_get d STATUS) as [[| b | z | f | s | l | d'] |];
    try (repeat split; intros; discriminate).
  cbn [existsb]. rewrite !orb_false_r.
  repeat split.
  destruct (text_eqb s ERROR) eqn:E1; [| discriminate].
  apply text_eqb_eq in E1. subst s. reflexivity.
Qed.

(** Of the findings the page lists, the error counter counts those
    whose status is [error], which are the ones shown with the red icon, and
    the other counter those whose status is [warning] or [suggestion]. A
    finding whose status is [suggestion] gets the blue icon and every other
    one the orange icon: also a finding whose status is missing or unknown,
    which neither counter counts. Every finding is counted once or not at
    all. *)
Theorem counters_and_icons (issues : list pyval) :
  forallb is_dict issues = true ->
  error_count issues = Ok (length (filter (has_status ERROR) issues)) /\
  warn_count issues = Ok (length (filter warns issues)) /\
  map_m issue_icon issues = Ok (map shown_icon issues) /\
  length (filter is_red (map shown_icon issues))
  = length (filter (has_status ERROR) issues) /\
  length (filter (has_status ERROR) issues) + length (filter warns issues)
  + length (filter uncounted issues) = length issues /\
  Forall (fun issue => uncounted issue = true -> shown_icon issue = Orange) issues.
Proof.
  unfold error_count, warn_count.
  induction issues as [| issue issues IH]; intros H.
  - repeat split; reflexivity || constructor.
  - cbn [forallb] in H. apply andb_true_iff in H as [Hd Hrest].
    destruct issue as [| | | | | | d]; try discriminate.
    destruct (IH Hrest) as [He [Hw [Hi [Hr [Hsum Hall]]]]].
    destruct (finding_counted d) as [Fe [Fw [Fi Fx]]].
    cbn [count_if map_m map filter]. rewrite Fe, Fw, Fi, He, Hw, Hi. cbn [bind].
    split; [destruct (has_status ERROR (PDict d)); reflexivity |].
    split; [destruct (warns (PDict d)); reflexivity |].
    split; [reflexivity |].
    split; [| split].
    + unfold shown_icon at 1.
      destruct (has_status ERROR (PDict d)); cbn [is_red length]; [congruence |].
      destruct (has_status SUGGESTION (PDict d)); cbn [is_red]; exact Hr.
    + unfold uncounted at 1.
      destruct (has_status ERROR (PDict d)) eqn:E.
      * rewrite (Fx eq_refl). cbn [negb andb length]. lia.
      * destruct (warns (PDict d)); cbn [negb andb length]; lia.
    + constructor; [| exact Hall].
      unfold uncounted, shown_icon, warns.
      destruct (has_status ERROR (PDict d)); [discriminate |].
      destruct (has_status SUGGESTION (PDict d)); [| reflexivity].
      rewrite orb_true_r. discriminate.
Qed.

End CounterFacts.

Section CounterExamples.
Import PyStr Json Exn AiExtractor AppView Wire Inv.
Local Open Scope N_scope.

(** An error, a status the page does not know, a suggestion, and a finding
    with no status at all. *)
Lemma counters_and_icons_witness :
  error_count [finding_py (Finding [65] ERROR [] [] [] [] None None);
               finding_py (Finding [66] [105; 110; 102; 111] [] [] [] [] None None);
               finding_py (Finding [67] SUGGESTION [] [] [] [] None None);
               PDict []] = Ok 1%nat /\
  warn_count [finding_py (Finding [65] ERROR [] [] [] [] None None);
              finding_py (Finding [66] [105; 110; 102; 111] [] [] [] [] None None);
              finding_py (Finding [67] SUGGESTION [] [] [] [] None None);
              PDict []] = Ok 1%nat /\
  map_m issue_icon
    [finding_py (Finding [65] ERROR [] [] [] [] None None);
     finding_py (Finding [66] [105; 110; 102; 111] [] [] [] [] None None);
     finding_py (Finding [67] SUGGESTION [] [] [] [] None None);
     PDict []] = Ok [Red; Orange; Blue; Orange].
Proof.
  pose proof (counters_and_icons
                [finding_py (Finding [65] ERROR [] [] [] [] None None);
                 finding_py (Finding [66] [105; 110; 102; 111] [] [] [] [] None None);
                 finding_py (Finding [67] SUGGESTION [] [] [] [] None None);
                 PDict []] eq_refl) as [He [Hw [Hi _]]].
  split; [exact He |]. split; [exact Hw | exact Hi].
Defined.

End CounterExamples.

(** ** The decoder under the limits of the interpreter *)

Section RuntimeFacts.
Import PyStr Re Json Exn AiExtractor Wire Inv.
Local Open Scope N_scope.

(** *** The limits aside, the two decoders agree *)

Lemma runtime_parse_value_S (f depth : nat) (s : text) :
  Runtime.parse_value (S f) depth s =
  match s with
  | [] => Runtime.BadSyntax
  | c :: r =>
      if c =? QUOTE then
        match scanstring r with
        | Some (str, rest) => Runtime.Read (PStr str) rest
        | None => Runtime.BadSyntax
        end
      else if c =? LBRACE then
        match depth with
        | O => Runtime.TooDeep
        | S inner =>
            match skip_ws r with
            | d :: r1 =>
                if d =? RBRACE then Runtime.Read (PDict []) r1
                else if d =? QUOTE
                then Runtime.lift_scanned (fun ps => PDict (dict_of_pairs ps))
                       (Runtime.parse_members f inner r1)
                else Runtime.BadSyntax
            | [] => Runtime.BadSyntax
            end
        end
      else if c =? LBRACKET then
        match depth with
        | O => Runtime.TooDeep
        | S inner =>
            match skip_ws r with
            | d :: r1 =>
                if d =? RBRACKET then Runtime.Read (PList []) r1
                else Runtime.lift_scanned PList (Runtime.parse_elements f inner (d :: r1))
            | [] => Runtime.BadSyntax
            end
        end
      else if startswith s NULL then Runtime.Read PNone (skipn 4 s)
      else if startswith s TRUE then Runtime.Read (PBool true) (skipn 4 s)
      else if startswith s FALSE then Runtime.Read (PBool false) (skipn 5 s)
      else
        match Runtime.scan_number s with
        | Some outcome => outcome
        | None =>
            if startswith s NAN then Runtime.Read (PFloat FNan) (skipn 3 s)
            else if startswith s INFINITY then Runtime.Read (PFloat (FInf false)) (skipn 8 s)
            else if startswith s NEG_INFINITY
            then Runtime.Read (PFloat (FInf true)) (skipn 9 s)
            else Runtime.BadSyntax
        end
  end.
Proof. reflexivity. Qed.

Lemma runtime_parse_elements_S (f depth : nat) (s : text) :
  Runtime.parse_elements (S f) depth s =
  match Runtime.parse_value f depth s with
  | Runtime.Read v r =>
      match skip_ws r with
      | d :: r1 =>
          if d =? RBRACKET then Runtime.Read [v] r1
          else if d =? COMMA
          then Runtime.lift_scanned (cons v) (Runtime.parse_elements f depth (skip_ws r1))
          else Runtime.BadSyntax
      | [] => Runtime.BadSyntax
      end
  | Runtime.BadSyntax => Runtime.BadSyntax
  | Runtime.TooManyDigits => Runtime.TooManyDigits
  | Runtime.TooDeep => Runtime.TooDeep
  | Runtime.NoFuel => Runtime.NoFuel
  end.
Proof. reflexivity. Qed.

Lemma runtime_parse_members_S (f depth : nat) (s : text) :
  Runtime.parse_members (S f) depth s =
  match scanstring s with
  | None => Runtime.BadSyntax
  | Some (key, r) =>
      match skip_ws r with
      | c :: r1 =>
          if c =? COLON then
            match Runtime.parse_value f depth (skip_ws r1) with
            | Runtime.Read v r2 =>
                match skip_ws r2 with
                | d :: r3 =>
                    if d =? RBRACE then Runtime.Read [(key, v)] r3
                    else if d =? COMMA then
                      match skip_ws r3 with
                      | q :: r4 =>
                          if q =? QUOTE
                          then Runtime.lift_scanned (cons (key, v))
                                 (Runtime.parse_members f depth r4)
                          else Runtime.BadSyntax
                      | [] => Runtime.BadSyntax
                      end
                    else Runtime.BadSyntax
                | [] => Runtime.BadSyntax
                end
            | Runtime.BadSyntax => Runtime.BadSyntax
            | Runtime.TooManyDigits => Runtime.TooManyDigits
            | Runtime.TooDeep => Runtime.TooDeep
            | Runtime.NoFuel => Runtime.NoFuel
            end
          else Runtime.BadSyntax
      | [] => Runtime.BadSyntax
      end
  end.
Proof. reflexivity. Qed.

Lemma lift_limits_aside {A B : Type} (g : A -> B) (p : Runtime.scanned A) (q : parsed A) :
  limits_aside p q -> limits_aside (Runtime.lift_scanned g p) (lift_parsed g q).
Proof. destruct p; simpl; intros H; try exact I; rewrite H; reflexivity. Qed.

Lemma scan_number_limits_aside (s : text) :
  match Runtime.scan_number s with
  | Some outcome =>
      exists v rest, Json.scan_number s = Some (v, rest) /\
                     limits_aside outcome (Parsed v rest)
  | None => Json.scan_number s = None
  end.
Proof.
  unfold Runtime.scan_number.
  destruct (Json.scan_number s) as [[v rest] |]; [| reflexivity].
  destruct v; try (eexists; eexists; split; reflexivity).
  destruct (Nat.ltb _ _); exists (PInt z), rest; split; solve [reflexivity | exact I].
Qed.

Lemma parse_limits_aside (f : nat) :
  forall (depth : nat) (s : text),
    limits_aside (Runtime.parse_value f depth s) (parse_value f s) /\
    limits_aside (Runtime.parse_elements f depth s) (parse_elements f s) /\
    limits_aside (Runtime.parse_members f depth s) (parse_members f s).
Proof.
  induction f as [| f IH]; intros depth s.
  - repeat split; reflexivity.
  - split; [| split].
    + rewrite runtime_parse_value_S, parse_value_S.
      destruct s as [| c r]; [reflexivity |].
      destruct (c =? QUOTE).
      { destruct (scanstring r) as [[str rest] |]; reflexivity. }
      destruct (c =? LBRACE).
      { destruct depth as [| inner]; [exact I |].
        destruct (skip_ws r) as [| d r1]; [reflexivity |].
        destruct (d =? RBRACE); [reflexivity |].
        destruct (d =? QUOTE); [| reflexivity].
        apply lift_limits_aside, IH. }
      destruct (c =? LBRACKET).
      { destruct depth as [| inner]; [exact I |].
        destruct (skip_ws r) as [| d r1]; [reflexivity |].
        destruct (d =? RBRACKET); [reflexivity |].
        apply lift_limits_aside, IH. }
      destruct (startswith (c :: r) NULL); [reflexivity |].
      destruct (startswith (c :: r) TRUE); [reflexivity |].
      destruct (startswith (c :: r) FALSE); [reflexivity |].
      pose proof (scan_number_limits_aside (c :: r)) as Hn.
      destruct (Runtime.scan_number (c :: r)) as [outcome |].
      { destruct Hn as (v & rest & -> & Hn). exact Hn. }
      rewrite Hn.
      destruct (startswith (c :: r) NAN); [reflexivity |].
      destruct (startswith (c :: r) INFINITY); [reflexivity |].
      destruct (startswith (c :: r) NEG_INFINITY); reflexivity.
    + rewrite runtime_parse_elements_S, parse_elements_S.
      destruct (IH depth s) as [Hv _].
      destruct (Runtime.parse_value f depth s) as [v r | | | |]; simpl in Hv;
        try rewrite Hv; try exact I; try reflexivity.
      destruct (skip_ws r) as [| d r1]; [reflexivity |].
      destruct (d =? RBRACKET); [reflexivity |].
      destruct (d =? COMMA); [| reflexivity].
      apply lift_limits_aside, IH.
    + rewrite runtime_parse_members_S, parse_members_S.
      destruct (scanstring s) as [[key r] |]; [| reflexivity].
      destruct (skip_ws r) as [| c r1]; [reflexivity |].
      destruct (c =? COLON); [| reflexivity].
      destruct (IH depth (skip_ws r1)) as [Hv _].
      destruct (Runtime.parse_value f depth (skip_ws r1)) as [v r2 | | | |]; simpl in Hv;
        try rewrite Hv; try exact I; try reflexivity.
      destruct (skip_ws r2) as [| d r3]; [reflexivity |].
      destruct (d =? RBRACE); [reflexivity |].
      destruct (d =? COMMA); [| reflexivity].
      destruct (skip_ws r3) as [| q r4]; [reflexivity |].
      destruct (q =? QUOTE); [| reflexivity].
      apply lift_limits_aside, IH.
Qed.

(** What [json.loads] raises. *)
Lemma runtime_loads_raises (depth : nat) (s : text) (e : exn) :
  Runtime.loads depth s = Raise e ->
  e = JSONDecodeError \/ e = ValueError \/ e = RecursionError.
Proof.
  unfold Runtime.loads.
  destruct (Runtime.parse_value _ _ _) as [v rest | | | |];
    try (intros H; injection H as <-; auto).
  destruct (skip_ws rest); intros H; [discriminate | injection H as <-; auto].
Qed.

Lemma runtime_loads_ok (depth : nat) (s : text) (v : pyval) :
  Runtime.loads depth s = Ok v -> loads s = Some v.
Proof.
  unfold Runtime.loads, loads.
  destruct (parse_limits_aside (fuel_for s) depth (skip_ws s)) as [H _].
  destruct (Runtime.parse_value _ _ _) as [v' rest | | | |]; try discriminate.
  simpl in H. rewrite H. destruct (skip_ws rest); [| discriminate].
  intros E. injection E as <-. reflexivity.
Qed.

Lemma runtime_loads_decode_error (depth : nat) (s : text) :
  Runtime.loads depth s = Raise JSONDecodeError -> loads s = None.
Proof.
  unfold Runtime.loads, loads.
  destruct (parse_limits_aside (fuel_for s) depth (skip_ws s)) as [H _].
  destruct (Runtime.parse_value _ _ _) as [v' rest | | | |]; try discriminate;
    simpl in H; rewrite H; [| reflexivity | reflexivity].
  destruct (skip_ws rest); [discriminate | reflexivity].
Qed.

(** *** What the callers of the decoder let through *)

Lemma runtime_first_candidate_raises (depth : nat) (t : text) (starts : list nat) (e : exn) :
  Runtime.first_candidate depth t starts = Raise e -> e = RecursionError.
Proof.
  induction starts as [| m_start rest IH]; cbn [Runtime.first_candidate]; [discriminate |].
  cbv zeta. destruct (Runtime.loads depth _) as [v | e'] eqn:E.
  - destruct v; try exact IH. discriminate.
  - destruct (runtime_loads_raises _ _ _ E) as [-> | [-> | ->]]; try exact IH.
    intros H. injection H as <-. reflexivity.
Qed.

Lemma runtime_rescue_raises (depth : nat) (t : text) (e : exn) :
  Runtime._rescue_incomplete_json_array depth t = Raise e -> e = RecursionError.
Proof.
  unfold Runtime._rescue_incomplete_json_array.
  destruct (_ || _); [discriminate |].
  destruct (endswith _ _); [discriminate |].
  destruct (Runtime.first_candidate _ _ _) as [[c |] | e'] eqn:E; cbn [bind].
  - discriminate.
  - destruct (search_array_of_object _); [| discriminate].
    destruct (Runtime.loads depth _) as [v | e''] eqn:El.
    + destruct v; discriminate.
    + destruct (runtime_loads_raises _ _ _ El) as [-> | [-> | ->]]; try discriminate.
      intros H. injection H as <-. reflexivity.
  - intros H. injection H as <-. apply runtime_first_candidate_raises in E. exact E.
Qed.

Lemma runtime_repaired_text_raises (depth : nat) (t : text) (e : exn) :
  Runtime.repaired_text depth t = Raise e -> e = RecursionError.
Proof.
  unfold Runtime.repaired_text. destruct (needs_rescue t); [| discriminate].
  destruct (Runtime._rescue_incomplete_json_array depth t) as [r | e'] eqn:E; cbn [bind];
    [discriminate |].
  intros H. injection H as <-. apply runtime_rescue_raises in E. exact E.
Qed.

Lemma runtime_parse_issues_raises (lim : Runtime.limits) (response_text : text) (e : exn) :
  Runtime._parse_issues_json lim response_text = Raise e ->
  e = JSONParseError response_text \/ e = ValueError \/ e = RecursionError.
Proof.
  unfold Runtime._parse_issues_json.
  destruct (Runtime.repaired_text _ _) as [cleaned | e'] eqn:Er; cbn [bind].
  2: { intros H. injection H as <-. apply runtime_repaired_text_raises in Er. auto. }
  destruct (Runtime.loads _ cleaned) as [v | e'] eqn:El.
  { destruct v; discriminate. }
  destruct (runtime_loads_raises _ _ _ El) as [-> | [-> | ->]];
    try (intros H; injection H as <-; auto).
  cbv zeta. destruct (needs_rescue _); [| intros H; injection H as <-; auto].
  destruct (Runtime._rescue_incomplete_json_array _ _) as [[repaired |] | e'] eqn:E;
    cbn [bind].
  - destruct (is_empty repaired); [intros H; injection H as <-; auto |].
    destruct (Runtime.loads _ repaired) as [v | e'] eqn:El2.
    + destruct v; try discriminate; intros H; injection H as <-; auto.
    + destruct (runtime_loads_raises _ _ _ El2) as [-> | [-> | ->]];
        intros H; injection H as <-; auto.
  - intros H. injection H as <-. auto.
  - intros H. injection H as <-. apply runtime_rescue_raises in E. auto.
Qed.

Lemma runtime_form_stage_raises (lim : Runtime.limits) (n : Z) (form_response : response)
    (e : exn) :
  Runtime.form_stage lim n form_response = Raise e ->
  e = AttributeError \/ e = ValueError \/ e = OverflowError \/ e = RecursionError.
Proof.
  unfold Runtime.form_stage.
  destruct (Runtime._run_form_check lim form_response) as [fs | e'] eqn:E.
  - intros H. apply map_m_raise in H as [x [_ Hx]].
    apply shift_image_index_raises in Hx as [-> | [-> | ->]]; auto.
  - unfold Runtime._run_form_check in E.
    destruct (candidates form_response) as [| c0 cs].
    { injection E as <-. discriminate. }
    destruct (negb (reason_ok c0)).
    { injection E as <-. discriminate. }
    destruct (is_empty _); [discriminate |].
    apply runtime_parse_issues_raises in E as [-> | [-> | ->]];
      [discriminate | |]; intros H; injection H as <-; auto.
Qed.

Lemma runtime_rfind_fallback_raises (depth : nat) (cleaned_text response_text : text)
    (e : exn) :
  Runtime.rfind_fallback depth cleaned_text response_text = Raise e ->
  e = JSONParseError response_text \/ e = RecursionError.
Proof.
  unfold Runtime.rfind_fallback. destruct (rfind cleaned_text BRACE_COMMA).
  - cbv zeta. destruct (Runtime.loads depth _) as [v | e'] eqn:E.
    + destruct v; discriminate.
    + destruct (runtime_loads_raises _ _ _ E) as [-> | [-> | ->]];
        intros H; injection H as <-; auto.
  - intros H. injection H as <-. auto.
Qed.

Lemma runtime_cross_issues_raises (lim : Runtime.limits) (response_text : text) (e : exn) :
  Runtime.cross_issues lim response_text = Raise e ->
  e = JSONParseError response_text \/ e = ValueError \/ e = RecursionError.
Proof.
  assert (Hf : forall cleaned,
             bind (Runtime.rfind_fallback (Runtime.own_depth lim) cleaned response_text)
               (fun issues => Ok (Some issues)) = Raise e ->
             e = JSONParseError response_text \/ e = ValueError \/ e = RecursionError).
  { intros cleaned. destruct (Runtime.rfind_fallback _ _ _) as [l | e'] eqn:E; cbn [bind];
      [discriminate |].
    intros H. injection H as <-.
    apply runtime_rfind_fallback_raises in E as [-> | ->]; auto. }
  unfold Runtime.cross_issues.
  destruct (Runtime.repaired_text _ _) as [cleaned | e'] eqn:Er; cbn [bind].
  2: { intros H. injection H as <-. apply runtime_repaired_text_raises in Er. auto. }
  destruct (Runtime.loads _ cleaned) as [v | e'] eqn:El.
  { destruct v; discriminate. }
  destruct (runtime_loads_raises _ _ _ El) as [-> | [-> | ->]];
    try (intros H; injection H as <-; auto).
  cbv zeta. destruct (needs_rescue _); [| apply Hf].
  destruct (Runtime._rescue_incomplete_json_array _ _) as [[repaired |] | e'] eqn:E;
    cbn [bind].
  - destruct (is_empty repaired); [apply Hf |].
    destruct (Runtime.loads _ repaired) as [v | e'] eqn:El2.
    + destruct v; discriminate.
    + destruct (runtime_loads_raises _ _ _ El2) as [-> | [-> | ->]]; try apply Hf.
      intros H. injection H as <-. auto.
  - apply Hf.
  - intros H. injection H as <-. apply runtime_rescue_raises in E. auto.
Qed.

Lemma runtime_cross_stage_raises (lim : Runtime.limits) (form_issues : list pyval)
    (cross_response : response) (e : exn) :
  Runtime.cross_stage lim form_issues cross_response = Raise e ->
  (e = SafetyBlockError /\ refused cross_response = true) \/
  e = JSONParseError (strip (resp_text cross_response)) \/
  e = AttributeError \/ e = ValueError \/ e = RecursionError.
Proof.
  unfold Runtime.cross_stage, refused. destruct (candidates cross_response) as [| c0 cs].
  { intros H. injection H as <-. left. split; reflexivity. }
  destruct (reason_ok c0); cbn [negb].
  2: { intros H. injection H as <-. left. split; reflexivity. }
  destruct (is_empty _); [discriminate |].
  destruct (Runtime.cross_issues _ _) as [[issues |] | e'] eqn:E; cbn [bind].
  - intros H. apply merge_raises_helper in H. auto.
  - discriminate.
  - intros H. injection H as <-.
    apply runtime_cross_issues_raises in E as [-> | [-> | ->]]; auto.
Qed.



(** What [verify_disclosure_against_evidence] raises is a
    [ValueError], an [AttributeError], an [OverflowError], a
    [RecursionError], the [SafetyBlockError] of a refused cross-reference
    response, or a [JSONParseError] that carries the stripped text of the
    cross-reference response: never the [SafetyBlockError] or the
    [JSONParseError] of the form check, which lines 752-763 take up. *)
Theorem verify_raises (form_limits cross_limits : Runtime.limits) (api_key : text)
    (reference_images target_images : list Utils.image)
    (form_response cross_response : response) (e : exn) :
  Runtime.verify_disclosure_against_evidence form_limits cross_limits
    api_key reference_images target_images form_response cross_response = Raise e ->
  e = ValueError \/ e = AttributeError \/ e = OverflowError \/ e = RecursionError \/
  (e = SafetyBlockError /\ refused cross_response = true) \/
  e = JSONParseError (strip (resp_text cross_response)).
Proof.
  unfold Runtime.verify_disclosure_against_evidence.
  destruct (is_empty (strip api_key)); [intros H; injection H as <-; auto |].
  destruct (is_empty reference_images); [intros H; injection H as <-; auto |].
  destruct (is_empty target_images); [intros H; injection H as <-; auto |].
  destruct (Runtime.form_stage _ _ form_response) as [fs | e'] eqn:E; cbn [bind].
  - intros H. apply runtime_cross_stage_raises in H as [H | [H | [H | [H | H]]]]; auto 7.
  - intros H. injection H as <-.
    apply runtime_form_stage_raises in E as [-> | [-> | [-> | ->]]]; auto 7.
Qed.

Lemma verify_raises_witness :
  JSONParseError [110; 111] = ValueError \/
  JSONParseError [110; 111] = AttributeError \/
  JSONParseError [110; 111] = OverflowError \/
  JSONParseError [110; 111] = RecursionError \/
  (JSONParseError [110; 111] = SafetyBlockError /\
   refused (Response [Some STOP] [32; 110; 111; 10]) = true) \/
  JSONParseError [110; 111]
  = JSONParseError (strip (resp_text (Response [Some STOP] [32; 110; 111; 10]))).
Proof.
  apply (verify_raises (Runtime.Limits 990 989) (Runtime.Limits 991 990)
           [107] [Utils.Image 10 10] [Utils.Image 10 10]
           (Response [Some STOP] [91; 93]) (Response [Some STOP] [32; 110; 111; 10])
           (JSONParseError [110; 111])).
  vm_compute. reflexivity.
Defined.

(** *** A text without an opening bracket *)

Lemma runtime_rescue_without_bracket (depth : nat) (s : text) :
  ~ In LBRACKET s -> Runtime._rescue_incomplete_json_array depth s = Ok None.
Proof.
  intros H. unfold Runtime._rescue_incomplete_json_array.
  apply contains_char_false in H. rewrite H. rewrite orb_true_r. reflexivity.
Qed.

Lemma runtime_repaired_text_without_bracket (depth : nat) (s : text) :
  ~ In LBRACKET s -> Runtime.repaired_text depth s = Ok (repaired_text s).
Proof.
  intros H. unfold Runtime.repaired_text, repaired_text.
  rewrite (runtime_rescue_without_bracket depth s H), (rescue_without_bracket s H).
  destruct (needs_rescue s); reflexivity.
Qed.

(** The parser never returns on a text with no opening bracket: it raises
    [JSONParseError] with the text as it was given, unless [json.loads]
    stops at one of its limits first. *)
Lemma runtime_parse_without_bracket (lim : Runtime.limits) (response_text : text) :
  contains response_text [LBRACKET] = false ->
  Runtime._parse_issues_json lim response_text = Raise (JSONParseError response_text) \/
  Runtime._parse_issues_json lim response_text = Raise ValueError \/
  Runtime._parse_issues_json lim response_text = Raise RecursionError.
Proof.
  intros H. apply contains_char_false in H.
  assert (H1 : ~ In LBRACKET (remove_fences (strip response_text))).
  { apply remove_fences_bracket. intros Hx. apply strip_incl in Hx. contradiction. }
  assert (H2 : ~ In LBRACKET (from_first_bracket (remove_fences (strip response_text)))).
  { unfold from_first_bracket. apply contains_char_false in H1. rewrite H1.
    apply contains_char_false in H1. intros Hx. apply rstrip_incl in Hx. contradiction. }
  unfold Runtime._parse_issues_json.
  rewrite (runtime_repaired_text_without_bracket _ _ H2). cbn [bind].
  rewrite (runtime_rescue_without_bracket _ _ H2). cbn [bind].
  pose proof (repaired_text_without_bracket _ H2) as Hl.
  destruct (Runtime.loads _ _) as [v | e] eqn:E.
  - apply runtime_loads_ok in E. rewrite Hl in E. discriminate.
  - destruct (runtime_loads_raises _ _ _ E) as [-> | [-> | ->]]; auto.
    left. destruct (needs_rescue _); reflexivity.
Qed.

(** C8. The text of 4301 digits [9] holds no opening bracket, and the
    parser does not raise [JSONParseError] on it: the [ValueError] of
    [json.loads], which line 637 does not catch, leaves the function. *)
Theorem parse_digit_limit_escapes (lim : Runtime.limits) :
  contains (repeat 57 4301) [LBRACKET] = false /\
  Runtime._parse_issues_json lim (repeat 57 4301) = Raise ValueError.
Proof. split; vm_compute; reflexivity. Qed.

(** With one digit less the text is within the limit, and the parser raises
    what its docstring says. *)
Lemma parse_digit_limit_kept (lim : Runtime.limits) :
  Runtime._parse_issues_json lim (repeat 57 4300)
  = Raise (JSONParseError (repeat 57 4300)).
Proof. vm_compute. reflexivity. Qed.

(** The other limit: objects nested deeper than the interpreter allows, in a
    text without an opening bracket. *)
Lemma parse_depth_limit_escapes (rescue_depth : nat) :
  contains (concat (repeat [LBRACE; QUOTE; 97; QUOTE; COLON] 1000)) [LBRACKET] = false /\
  Runtime._parse_issues_json (Runtime.Limits 999 rescue_depth)
    (concat (repeat [LBRACE; QUOTE; 97; QUOTE; COLON] 1000))
  = Raise RecursionError.
Proof. split; vm_compute; reflexivity. Qed.

(** *** The two stages *)

Lemma runtime_cross_stage_shape (lim : Runtime.limits) (cross_response : response) :
  (exists e, forall form_issues,
     Runtime.cross_stage lim form_issues cross_response = Raise e) \/
  (exists a b, forall form_issues,
     Runtime.cross_stage lim form_issues cross_response = Ok (a ++ form_issues ++ b)).
Proof.
  unfold Runtime.cross_stage. destruct (candidates cross_response) as [| c0 cs].
  { left. exists SafetyBlockError. reflexivity. }
  destruct (negb (reason_ok c0)).
  { left. exists SafetyBlockError. reflexivity. }
  destruct (is_empty (strip (resp_text cross_response))).
  { right. exists [], []. intros fs. rewrite app_nil_r. reflexivity. }
  destruct (Runtime.cross_issues lim (strip (resp_text cross_response)))
    as [[issues |] | e]; cbn [bind].
  - apply merge_issues_shape.
  - right. exists [], []. intros fs. rewrite app_nil_r. reflexivity.
  - left. exists e. reflexivity.
Qed.

(** The guards of lines 733-738 passed, the function is its two stages. *)
Lemma runtime_verify_stages (form_limits cross_limits : Runtime.limits) (api_key : text)
    (reference_images target_images : list Utils.image)
    (form_response cross_response : response) :
  is_empty (strip api_key) = false ->
  is_empty reference_images = false ->
  is_empty target_images = false ->
  Runtime.verify_disclosure_against_evidence form_limits cross_limits
    api_key reference_images target_images form_response cross_response
  = bind (Runtime.form_stage form_limits (Z.of_nat (length reference_images)) form_response)
      (fun form_issues => Runtime.cross_stage cross_limits form_issues cross_response).
Proof.
  intros H1 H2 H3. unfold Runtime.verify_disclosure_against_evidence.
  rewrite H1, H2, H3. reflexivity.
Qed.

Lemma runtime_verify_guards (form_limits cross_limits : Runtime.limits) (api_key : text)
    (reference_images target_images : list Utils.image)
    (form_response cross_response : response) (out : list pyval) :
  Runtime.verify_disclosure_against_evidence form_limits cross_limits
    api_key reference_images target_images form_response cross_response = Ok out ->
  is_empty (strip api_key) = false /\ is_empty reference_images = false /\
  is_empty target_images = false.
Proof.
  unfold Runtime.verify_disclosure_against_evidence.
  destruct (is_empty (strip api_key)); [discriminate |].
  destruct (is_empty reference_images); [discriminate |].
  destruct (is_empty target_images); [discriminate |].
  intros _. repeat split.
Qed.

(** *** A form check that fails *)

(** When the form check raises [SafetyBlockError] or [JSONParseError], the
    function goes on with the one finding of lines 754-763, whose status is
    [warning], in the place of the form findings. *)
Lemma form_failure_stand_in (form_limits cross_limits : Runtime.limits) (api_key : text)
    (reference_images target_images : list Utils.image)
    (form_response cross_response : response) :
  is_empty (strip api_key) = false ->
  is_empty reference_images = false ->
  is_empty target_images = false ->
  Runtime._run_form_check form_limits form_response = Raise SafetyBlockError \/
  (exists raw, Runtime._run_form_check form_limits form_response
               = Raise (JSONParseError raw)) ->
  Runtime.verify_disclosure_against_evidence form_limits cross_limits
    api_key reference_images target_images form_response cross_response
  = Runtime.cross_stage cross_limits [form_failed_issue] cross_response /\
  py_get form_failed_issue STATUS = Ok (PStr WARNING) /\
  (forall out,
     Runtime.cross_stage cross_limits [] cross_response = Ok out ->
     exists a b,
       out = a ++ b /\
       Runtime.verify_disclosure_against_evidence form_limits cross_limits
         api_key reference_images target_images form_response cross_response
       = Ok (a ++ [form_failed_issue] ++ b)).
Proof.
  intros G1 G2 G3 Hfail.
  assert (Hv : Runtime.verify_disclosure_against_evidence form_limits cross_limits
                 api_key reference_images target_images form_response cross_response
               = Runtime.cross_stage cross_limits [form_failed_issue] cross_response).
  { rewrite (runtime_verify_stages _ _ _ _ _ _ _ G1 G2 G3). unfold Runtime.form_stage.
    destruct Hfail as [-> | [raw ->]]; reflexivity. }
  split; [exact Hv |]. split; [reflexivity |].
  rewrite Hv.
  destruct (runtime_cross_stage_shape cross_limits cross_response)
    as [[e He] | [a [b Hab]]].
  - intros out Hout. rewrite He in Hout. discriminate.
  - intros out Hout. rewrite Hab in Hout. injection Hout as <-.
    exists a, b. split; [reflexivity | apply Hab].
Qed.

(** A form check with no candidate is a safety block: the gating finding,
    the stand-in, the other finding. *)
Lemma stand_in_between_groups :
  Runtime.verify_disclosure_against_evidence (Runtime.Limits 990 989) (Runtime.Limits 991 990)
    [107] [Utils.Image 10 10] [Utils.Image 10 10]
    (Response [] [])
    (Response [Some STOP]
       (serialize [Finding [65] [] [] [] [] [] None None;
                   Finding GATING_2 [] [] [] [] [] None None]))
  = Ok [finding_py (Finding GATING_2 [] [] [] [] [] None None);
        form_failed_issue;
        finding_py (Finding [65] [] [] [] [] [] None None)].
Proof. vm_compute. reflexivity. Qed.

(** A response the parser cannot read, within the limits of [json.loads],
    is the other failure the function recovers from. *)
Lemma unparseable_form_response (lim : Runtime.limits) :
  Runtime._run_form_check lim (Response [Some STOP] [110; 111])
  = Raise (JSONParseError [110; 111]).
Proof. vm_compute. reflexivity. Qed.

(** C7. A form check whose response cannot be read is not always taken up:
    when the response is 4301 digits [9], the form check fails with the
    [ValueError] of [json.loads], which line 752 does not catch, and the
    whole function raises it whatever the cross-reference response is; no
    stand-in finding is made and no result of the cross-reference pass is
    returned. *)
Theorem form_digit_limit_aborts (form_limits cross_limits : Runtime.limits)
    (api_key : text) (reference_images target_images : list Utils.image)
    (cross_response : response) :
  is_empty (strip api_key) = false ->
  is_empty reference_images = false ->
  is_empty target_images = false ->
  Runtime._run_form_check form_limits (Response [Some STOP] (repeat 57 4301))
  = Raise ValueError /\
  Runtime.verify_disclosure_against_evidence form_limits cross_limits
    api_key reference_images target_images
    (Response [Some STOP] (repeat 57 4301)) cross_response
  = Raise ValueError.
Proof.
  intros G1 G2 G3.
  assert (Hf : Runtime._run_form_check form_limits (Response [Some STOP] (repeat 57 4301))
               = Raise ValueError) by (vm_compute; reflexivity).
  split; [exact Hf |].
  rewrite (runtime_verify_stages _ _ _ _ _ _ _ G1 G2 G3).
  unfold Runtime.form_stage. rewrite Hf. reflexivity.
Qed.

(** C7, witness: one evidence image, one target image, and a
    cross-reference response that is a well-formed empty list. *)
Lemma form_digit_limit_witness :
  Runtime._run_form_check (Runtime.Limits 990 989) (Response [Some STOP] (repeat 57 4301))
  = Raise ValueError /\
  Runtime.verify_disclosure_against_evidence (Runtime.Limits 990 989) (Runtime.Limits 991 990)
    [107] [Utils.Image 10 10] [Utils.Image 10 10]
    (Response [Some STOP] (repeat 57 4301)) (Response [Some STOP] [91; 93])
  = Raise ValueError.
Proof.
  apply (form_digit_limit_aborts (Runtime.Limits 990 989) (Runtime.Limits 991 990)
           [107] [Utils.Image 10 10] [Utils.Image 10 10] (Response [Some STOP] [91; 93])).
  - reflexivity.
  - reflexivity.
  - reflexivity.
Defined.

(** *** The index shift *)

Lemma py_int_ceiling (x : Q) : (x <= 0)%Q -> PyNum.py_int x = Qceiling x.
Proof.
  destruct x as [n d]. unfold Qle, PyNum.py_int, Qceiling, Qfloor, Qopp.
  cbn [Qnum Qden]. intros H.
  replace n with (- - n)%Z at 1 by lia.
  rewrite Z.quot_opp_l by lia. rewrite Z.quot_div_nonneg by lia. reflexivity.
Qed.

Lemma py_int_nonneg (x : Q) : (0 <= x)%Q -> PyNum.py_int x = Qfloor x.
Proof.
  destruct x as [n d]. unfold Qle, PyNum.py_int, Qfloor. cbn [Qnum Qden]. intros H.
  apply Z.quot_div_nonneg; lia.
Qed.

Lemma map_m_raises_at {A B : Type} (f : A -> result B) (l : list A) (x : A) (e : exn) :
  In x l -> f x = Raise e -> forall l', map_m f l <> Ok l'.
Proof.
  intros Hin Hx l' H. destruct (map_m_in f l l' x H Hin) as [y [Hy _]].
  rewrite Hx in Hy. discriminate.
Qed.

(** C6. The loop of lines 748-751 writes [int(idx) + n] for every index
    that is an [int], a [bool] or a [float], with [n] the number of evidence
    images. An index that is the integer [i], as an [int] or as a [float]
    of that value, becomes [i + n]; any other finite [float] is first cut to
    its integer part, toward zero; [nan] and the infinities make [int]
    raise, and the function with it. Whenever the function returns a list,
    the shifted finding is in it. *)
Theorem index_shift_truncates (form_limits cross_limits : Runtime.limits) (api_key : text)
    (reference_images target_images : list Utils.image)
    (form_response cross_response : response) (form_issues : list pyval)
    (d : list (text * pyval)) :
  Runtime._run_form_check form_limits form_response = Ok form_issues ->
  In (PDict d) form_issues ->
  let n := Z.of_nat (length reference_images) in
  let shifted (i : Z) := PDict (dict_set d IMAGE_INDEX (PInt (i + n))) in
  let shifts_to (i : Z) :=
    shift_image_index n (PDict d) = Ok (shifted i) /\
    py_get (shifted i) IMAGE_INDEX = Ok (PInt (i + n)) /\
    forall out,
      Runtime.verify_disclosure_against_evidence form_limits cross_limits
        api_key reference_images target_images form_response cross_response = Ok out ->
      In (shifted i) out in
  let never_returns :=
    forall out,
      Runtime.verify_disclosure_against_evidence form_limits cross_limits
        api_key reference_images target_images form_response cross_response <> Ok out in
  (forall i, dict_get d IMAGE_INDEX = Some (PInt i) -> shifts_to i) /\
  (forall b, dict_get d IMAGE_INDEX = Some (PBool b) -> shifts_to (if b then 1 else 0)%Z) /\
  (forall q, dict_get d IMAGE_INDEX = Some (PFloat (FFin q)) ->
     shifts_to (PyNum.py_int q) /\
     (forall i, (q == inject_Z i)%Q -> PyNum.py_int q = i) /\
     ((0 <= q)%Q -> PyNum.py_int q = Qfloor q) /\
     ((q <= 0)%Q -> PyNum.py_int q = Qceiling q)) /\
  (dict_get d IMAGE_INDEX = Some (PFloat FNan) ->
     shift_image_index n (PDict d) = Raise ValueError /\ never_returns) /\
  (forall negative, dict_get d IMAGE_INDEX = Some (PFloat (FInf negative)) ->
     shift_image_index n (PDict d) = Raise OverflowError /\ never_returns).
Proof.
  intros Hform Hin n shifted shifts_to never_returns.
  assert (Hret : forall i,
             shift_image_index n (PDict d) = Ok (shifted i) -> shifts_to i).
  { intros i Hshift. split; [exact Hshift |]. split.
    { unfold shifted, py_get. rewrite dict_get_set. reflexivity. }
    intros out Hout.
    destruct (runtime_verify_guards _ _ _ _ _ _ _ _ Hout) as [G1 [G2 G3]].
    rewrite (runtime_verify_stages _ _ _ _ _ _ _ G1 G2 G3) in Hout.
    unfold Runtime.form_stage in Hout. rewrite Hform in Hout. fold n in Hout.
    destruct (map_m (shift_image_index n) form_issues) as [l | e] eqn:Em;
      [| discriminate].
    cbn [bind] in Hout.
    destruct (map_m_in _ _ _ _ Em Hin) as [y [Hy Hy_in]].
    rewrite Hshift in Hy. injection Hy as <-.
    destruct (runtime_cross_stage_shape cross_limits cross_response)
      as [[e He] | [a [b Hab]]].
    - rewrite He in Hout. discriminate.
    - rewrite Hab in Hout. injection Hout as <-.
      apply in_or_app. right. apply in_or_app. left. exact Hy_in. }
  assert (Hnever : forall e, shift_image_index n (PDict d) = Raise e -> never_returns).
  { intros e Hshift out Hout.
    destruct (runtime_verify_guards _ _ _ _ _ _ _ _ Hout) as [G1 [G2 G3]].
    rewrite (runtime_verify_stages _ _ _ _ _ _ _ G1 G2 G3) in Hout.
    unfold Runtime.form_stage in Hout. rewrite Hform in Hout. fold n in Hout.
    destruct (map_m (shift_image_index n) form_issues) as [l | e'] eqn:Em;
      [| discriminate].
    exact (map_m_raises_at _ _ _ _ Hin Hshift l Em). }
  split; [| split; [| split; [| split]]].
  - intros i H. apply Hret. unfold shift_image_index. rewrite H. reflexivity.
  - intros b H. apply Hret. unfold shift_image_index. rewrite H. reflexivity.
  - intros q H. split; [| split; [| split]].
    + apply Hret. unfold shift_image_index. rewrite H. reflexivity.
    + intros i Hq. apply py_int_integer. exact Hq.
    + apply py_int_nonneg.
    + apply py_int_ceiling.
  - intros H.
    assert (Hs : shift_image_index n (PDict d) = Raise ValueError)
      by (unfold shift_image_index; rewrite H; reflexivity).
    split; [exact Hs | exact (Hnever _ Hs)].
  - intros negative H.
    assert (Hs : shift_image_index n (PDict d) = Raise OverflowError)
      by (unfold shift_image_index; rewrite H; reflexivity).
    split; [exact Hs | exact (Hnever _ Hs)].
Qed.

(** C6, witness: the example of the specification, a form finding with
    index 0 and three evidence images. *)
Lemma index_shift_truncates_witness :
  shift_image_index 3
    (PDict [(CATEGORY, PStr FORM_CHECK); (STATUS, PStr WARNING); (ITEM, PStr []);
            (EVIDENCE, PStr []); (TARGET, PStr []); (MESSAGE, PStr []);
            (BOX_2D, PNone); (IMAGE_INDEX, PInt 0)])
    = Ok (PDict [(CATEGORY, PStr FORM_CHECK); (STATUS, PStr WARNING); (ITEM, PStr []);
                 (EVIDENCE, PStr []); (TARGET, PStr []); (MESSAGE, PStr []);
                 (BOX_2D, PNone); (IMAGE_INDEX, PInt 3)]) /\
  py_get
    (PDict [(CATEGORY, PStr FORM_CHECK); (STATUS, PStr WARNING); (ITEM, PStr []);
            (EVIDENCE, PStr []); (TARGET, PStr []); (MESSAGE, PStr []);
            (BOX_2D, PNone); (IMAGE_INDEX, PInt 3)]) IMAGE_INDEX = Ok (PInt 3) /\
  forall out,
    Runtime.verify_disclosure_against_evidence
      (Runtime.Limits 990 989) (Runtime.Limits 991 990) [107]
      [Utils.Image 10 10; Utils.Image 10 10; Utils.Image 10 10] [Utils.Image 10 10]
      (Response [Some STOP]
         (serialize [Finding FORM_CHECK WARNING [] [] [] [] None (Some 0%Z)]))
      (Response [Some STOP] (serialize [])) = Ok out ->
    In (PDict [(CATEGORY, PStr FORM_CHECK); (STATUS, PStr WARNING); (ITEM, PStr []);
               (EVIDENCE, PStr []); (TARGET, PStr []); (MESSAGE, PStr []);
               (BOX_2D, PNone); (IMAGE_INDEX, PInt 3)]) out.
Proof.
  apply (proj1 (index_shift_truncates
           (Runtime.Limits 990 989) (Runtime.Limits 991 990) [107]
           [Utils.Image 10 10; Utils.Image 10 10; Utils.Image 10 10] [Utils.Image 10 10]
           (Response [Some STOP]
              (serialize [Finding FORM_CHECK WARNING [] [] [] [] None (Some 0%Z)]))
           (Response [Some STOP] (serialize []))
           [PDict [(CATEGORY, PStr FORM_CHECK); (STATUS, PStr WARNING); (ITEM, PStr []);
                   (EVIDENCE, PStr []); (TARGET, PStr []); (MESSAGE, PStr []);
                   (BOX_2D, PNone); (IMAGE_INDEX, PInt 0)]]
           [(CATEGORY, PStr FORM_CHECK); (STATUS, PStr WARNING); (ITEM, PStr []);
            (EVIDENCE, PStr []); (TARGET, PStr []); (MESSAGE, PStr []);
            (BOX_2D, PNone); (IMAGE_INDEX, PInt 0)]
           ltac:(vm_compute; reflexivity) (or_introl eq_refl)) 0%Z eq_refl).
Defined.

(** The run of the witness does return: the shifted finding alone. *)
Lemma shifted_finding_returned :
  Runtime.verify_disclosure_against_evidence
    (Runtime.Limits 990 989) (Runtime.Limits 991 990) [107]
    [Utils.Image 10 10; Utils.Image 10 10; Utils.Image 10 10] [Utils.Image 10 10]
    (Response [Some STOP]
       (serialize [Finding FORM_CHECK WARNING [] [] [] [] None (Some 0%Z)]))
    (Response [Some STOP] (serialize []))
  = Ok [finding_py (Finding FORM_CHECK WARNING [] [] [] [] None (Some 3%Z))].
Proof. vm_compute. reflexivity. Qed.

(** C6, counterexample: a form finding whose index is the number 0.5,
    with three evidence images, is returned with the index 3, which is not
    0.5 + 3. The form response is [[{"image_index": 0.5}]], the
    cross-reference response an empty list. *)
Lemma index_shift_counterexample :
  Runtime._run_form_check (Runtime.Limits 990 989)
    (Response [Some STOP] 
       [91; 123; 34; 105; 109; 97; 103; 101; 95; 105; 110; 100; 101; 120; 34; 58; 32; 48; 46; 53; 125; 93])
  = Ok [PDict [(IMAGE_INDEX, PFloat (FFin (1 # 2)))]] /\
  Runtime.verify_disclosure_against_evidence
    (Runtime.Limits 990 989) (Runtime.Limits 991 990) [107]
    [Utils.Image 10 10; Utils.Image 10 10; Utils.Image 10 10] [Utils.Image 10 10]
    (Response [Some STOP] 
       [91; 123; 34; 105; 109; 97; 103; 101; 95; 105; 110; 100; 101; 120; 34; 58; 32; 48; 46; 53; 125; 93])
    (Response [Some STOP] [91; 93])
  = Ok [PDict [(IMAGE_INDEX, PInt 3)]] /\
  ~ (inject_Z 3 == (1 # 2) + inject_Z 3)%Q.
Proof.
  split; [vm_compute; reflexivity |]. split; [vm_compute; reflexivity |].
  intros H. vm_compute in H. discriminate.
Qed.

(** A float literal is read as the nearest float: an index written
    0.99999999999999999999 is the float 1.0, and becomes 4 with three
    evidence images. *)
Lemma index_literal_rounds :
  Runtime.verify_disclosure_against_evidence
    (Runtime.Limits 990 989) (Runtime.Limits 991 990) [107]
    [Utils.Image 10 10; Utils.Image 10 10; Utils.Image 10 10] [Utils.Image 10 10]
    (Response [Some STOP] 
       [91; 123; 34; 105; 109; 97; 103; 101; 95; 105; 110; 100; 101; 120; 34; 58; 32; 48; 46; 57; 57; 57; 57; 57; 57; 57; 57; 57; 57; 57; 57; 57; 57; 57; 57; 57; 57; 57; 57; 125; 93])
    (Response [Some STOP] [91; 93])
  = Ok [PDict [(IMAGE_INDEX, PInt 4)]].
Proof. vm_compute. reflexivity. Qed.

(** An index that is not a number at all, as [NaN] in the response, stops
    the function with the [ValueError] of [int]. *)
Lemma index_nan_raises :
  Runtime.verify_disclosure_against_evidence
    (Runtime.Limits 990 989) (Runtime.Limits 991 990) [107]
    [Utils.Image 10 10; Utils.Image 10 10; Utils.Image 10 10] [Utils.Image 10 10]
    (Response [Some STOP] 
       [91; 123; 34; 105; 109; 97; 103; 101; 95; 105; 110; 100; 101; 120; 34; 58; 32; 78; 97; 78; 125; 93])
    (Response [Some STOP] [91; 93])
  = Raise ValueError.
Proof. vm_compute. reflexivity. Qed.

End RuntimeFacts.

(** *** [_normalize_box_2d] *)

Section RuntimeNormalize.
Import PyStr Re Json Exn AiExtractor App Wire Inv.
Local Open Scope N_scope.

Variable float_of_str : text -> option pyfloat.

Lemma scale2_nonneg (n d e : Z) : (0 <= e)%Z -> PyNum.scale2 n d e = (n, (d * 2 ^ e)%Z).
Proof. intros H. unfold PyNum.scale2. destruct (Z.leb_spec 0 e); [reflexivity | lia]. Qed.

(** [float(n)] overflows exactly from [FLOAT_INT_LIMIT] on. *)
Lemma round_int_overflow (z : Z) :
  PyNum.round_to_double (inject_Z z) = None <-> (FLOAT_INT_LIMIT <= Z.abs z)%Z.
Proof.
  unfold PyNum.round_to_double. cbn [Qnum Qden inject_Z].
  set (n := Z.abs z). assert (Hn0 : (0 <= n)%Z) by apply Z.abs_nonneg.
  destruct (Z.eqb_spec n 0) as [E0 | E0].
  { split; [discriminate |]. rewrite E0. intros H. exfalso. revert H. apply Z.lt_nge.
    reflexivity. }
  change (Z.log2 1) with 0%Z. rewrite Z.sub_0_r.
  set (k := Z.log2 n).
  assert (Hk : (0 <= k)%Z) by apply Z.log2_nonneg.
  destruct (Z.log2_spec n ltac:(lia)) as [Hlo Hhi]. fold k in Hlo, Hhi.
  rewrite (scale2_nonneg n 1 k Hk). rewrite Z.mul_1_l.
  destruct (Z.ltb_spec n (2 ^ k)) as [Hlt | _]; [lia |].
  rewrite Z.max_l by lia.
  set (e := (k - 52)%Z).
  destruct (Z.ltb_spec 971 e) as [Hbig | Hsmall]; cbn [orb].
  - split; [intros _ | reflexivity].
    assert (2 ^ 1024 <= 2 ^ k)%Z by (apply Z.pow_le_mono_r; lia).
    assert (FLOAT_INT_LIMIT < 2 ^ 1024)%Z by reflexivity. lia.
  - destruct (Z.eqb_spec e 971) as [E | E]; cbn [andb].
    + assert (Ek : k = 1023%Z) by lia. rewrite E.
      rewrite (scale2_nonneg n 1 971 ltac:(lia)), Z.mul_1_l.
      rewrite Ek in Hlo, Hhi. change (Z.succ 1023) with 1024%Z in Hhi.
      unfold PyNum.div_nearest_even.
      set (b := (2 ^ 971)%Z) in *.
      assert (Hb : (0 < b)%Z) by reflexivity.
      pose proof (Z.div_mod n b ltac:(lia)) as Hdm.
      pose proof (Z.mod_pos_bound n b Hb) as Hr.
      set (q := (n / b)%Z) in *. set (r := (n mod b)%Z) in *.
      assert (Hb2 : b = (2 * 2 ^ 970)%Z) by reflexivity.
      assert (H1023 : (2 ^ 1023 = 2 ^ 52 * b)%Z) by reflexivity.
      assert (H1024 : (2 ^ 1024 = 2 ^ 53 * b)%Z) by reflexivity.
      assert (HL : FLOAT_INT_LIMIT = (2 ^ 53 * b - 2 ^ 970)%Z) by reflexivity.
      set (h := (2 ^ 970)%Z) in *.
      rewrite H1023 in Hlo. rewrite H1024 in Hhi. rewrite HL. clearbody b h.
      change (2 ^ 52)%Z with 4503599627370496%Z in *.
      change (2 ^ 53)%Z with 9007199254740992%Z in *.
      assert (Hq : (4503599627370496 <= q < 9007199254740992)%Z) by nia.
      destruct (Z.compare_spec (2 * r) b) as [Hc | Hc | Hc].
      * destruct (Z.even q) eqn:Ev.
        -- destruct (Z.leb_spec 9007199254740992 q) as [H | H]; [lia |].
           split; [discriminate |]. intros HH. exfalso.
           assert (Eq : q = 9007199254740991%Z) by nia. rewrite Eq in Ev. discriminate.
        -- destruct (Z.leb_spec 9007199254740992 (q + 1)) as [H | H].
           ++ split; [intros _ | reflexivity]. nia.
           ++ split; [discriminate |]. intros HH. nia.
      * destruct (Z.leb_spec 9007199254740992 q) as [H | H]; [lia |].
        split; [discriminate |]. intros HH. nia.
      * destruct (Z.leb_spec 9007199254740992 (q + 1)) as [H | H].
        -- split; [intros _ | reflexivity]. nia.
        -- split; [discriminate |]. intros HH. nia.
    + split.
      * cbv zeta. discriminate.
      * intros HH. exfalso.
        assert (2 ^ (Z.succ k) <= 2 ^ 1023)%Z by (apply Z.pow_le_mono_r; lia).
        assert (2 ^ 1023 < FLOAT_INT_LIMIT)%Z by reflexivity. lia.
Qed.

Lemma runtime_py_float_raises (x : pyval) (e : exn) :
  Runtime.py_float float_of_str x = Raise e ->
  e = TypeError \/ e = ValueError \/
  (e = OverflowError /\ exists z, x = PInt z /\ (FLOAT_INT_LIMIT <= Z.abs z)%Z).
Proof.
  destruct x as [| b | z | f | s | l | d]; cbn [Runtime.py_float]; intros H;
    try discriminate; try (injection H as <-; auto).
  - destruct (PyNum.round_to_double (inject_Z z)) eqn:E; [discriminate |].
    injection H as <-. right. right. split; [reflexivity |].
    exists z. split; [reflexivity | apply round_int_overflow, E].
  - destruct (float_of_str s); [discriminate |]. injection H as <-. auto.
Qed.

(** An exception leaves the function in two ways only. One is the
    [OverflowError] of [float] on an [int] of the list that is too large
    for a float: from [2 ** 1024 - 2 ** 970] on in absolute value. The
    other is what [json.loads] raises on a box given as a string besides a
    decoding error, which line 31 does not catch: the [ValueError] of the
    digit limit and [RecursionError]. *)
Theorem normalize_box_escapes (depth : nat) (box_2d : pyval) (e : exn) :
  Runtime._normalize_box_2d float_of_str depth box_2d = Raise e ->
  (e = OverflowError /\
   exists l z, decodes_under depth box_2d l /\ length l = 4%nat /\ In (PInt z) l /\
               (FLOAT_INT_LIMIT <= Z.abs z)%Z) \/
  (exists s, box_2d = PStr s /\ Runtime.loads depth (strip s) = Raise e /\
             (e = ValueError \/ e = RecursionError)).
Proof.
  assert (Hl : forall l,
             decodes_under depth box_2d l ->
             (if Nat.eqb (length l) 4 then
                match map_m (Runtime.py_float float_of_str) l with
                | Ok floats => Ok (Some floats)
                | Raise TypeError => Ok None
                | Raise ValueError => Ok None
                | Raise e => Raise e
                end
              else Ok None) = Raise e ->
             e = OverflowError /\
             exists l z, decodes_under depth box_2d l /\ length l = 4%nat /\
                         In (PInt z) l /\ (FLOAT_INT_LIMIT <= Z.abs z)%Z).
  { intros l Hd. destruct (Nat.eqb_spec (length l) 4) as [E4 | _]; [| discriminate].
    destruct (map_m (Runtime.py_float float_of_str) l) as [fs | e'] eqn:Em;
      [discriminate |].
    apply map_m_raise in Em as [x [Hx Hf]].
    destruct (runtime_py_float_raises x e' Hf) as [-> | [-> | [-> [z [-> Hz]]]]];
      try discriminate.
    intros H. injection H as <-. split; [reflexivity |].
    exists l, z. repeat split; assumption. }
  destruct box_2d as [| b | z | f | s | l | d]; cbn [Runtime._normalize_box_2d];
    try discriminate.
  - destruct (Runtime.loads depth (strip s)) as [v | e'] eqn:E.
    + destruct v as [| | | | | l |]; try discriminate.
      intros H. left. apply (Hl l); [| exact H].
      right. exists s. split; [reflexivity | exact E].
    + destruct (runtime_loads_raises _ _ _ E) as [-> | [-> | ->]]; [discriminate | |];
        intros H; injection H as <-; right; exists s; auto.
  - intros H. left. apply (Hl l); [left; reflexivity | exact H].
Qed.

End RuntimeNormalize.

Section RuntimeNormalizeExamples.
Import PyStr Re Json Exn AiExtractor App Wire Inv.
Local Open Scope N_scope.

Lemma normalize_box_escapes_witness :
  (OverflowError = OverflowError /\
   exists l z, decodes_under 990 (PList [PInt 0; PInt (- 2 ^ 1024); PNone; PInt 0]) l /\
               length l = 4%nat /\ In (PInt z) l /\ (FLOAT_INT_LIMIT <= Z.abs z)%Z) \/
  (exists s, PList [PInt 0; PInt (- 2 ^ 1024); PNone; PInt 0] = PStr s /\
             Runtime.loads 990 (strip s) = Raise OverflowError /\
             (OverflowError = ValueError \/ OverflowError = RecursionError)).
Proof.
  apply (normalize_box_escapes (fun _ => None) 990
           (PList [PInt 0; PInt (- 2 ^ 1024); PNone; PInt 0])).
  vm_compute. reflexivity.
Defined.

(** A box given as a string of 4301 digits: the [ValueError] of [json.loads]
    leaves the function. *)
Lemma normalize_box_digit_limit (depth : nat) :
  Runtime._normalize_box_2d (fun _ => None) depth (PStr (repeat 57 4301)) = Raise ValueError.
Proof. vm_compute. reflexivity. Qed.

(** A box given as a string of arrays nested deeper than [json.loads] has
    room for: [RecursionError] leaves the function. *)
Lemma normalize_box_depth_limit :
  Runtime._normalize_box_2d (fun _ => None) 999 (PStr (repeat LBRACKET 1000))
  = Raise RecursionError.
Proof. vm_compute. reflexivity. Qed.

(** A float literal beyond the largest float is read as an infinity, as
    [float] gives it. *)
Lemma normalize_box_infinity (depth : nat) :
  Runtime._normalize_box_2d (fun _ => None) (S depth)
    (PStr [91; 49; 101; 52; 48; 48; 44; 32; 48; 44; 32; 48; 44; 32; 48; 93])
  = Ok (Some [FInf false; FFin 0; FFin 0; FFin 0]).
Proof. vm_compute. reflexivity. Qed.

End RuntimeNormalizeExamples.

(** ** The cropper in binary64 *)

Section FloatFacts.
Import PyNum Json Exn.
Local Open Scope Z_scope.

(** *** Rounding keeps a bound that is a power of two *)






(** *** The clamp to the scale leaves a number *)



(** *** The conversion to pixels *)




End FloatFacts.

Section FloatExamples.
Import PyNum Json Exn.
Local Open Scope Z_scope.


(** The run of the witness. The upper edge is at [(290.0 / 1000.0) * 100],
    a float just below 29, and becomes the pixel 28; the exact product is
    29. *)
Lemma crop_rounds_each_operation :
  UtilsFloat.crop_evidence_region (Utils.Image 100 100)
    [FFin 340; FFin 100; FFin 440; FFin 200]
  = Ok (Utils.Cropped (Utils.Rect 7 28 23 49)) /\
  UtilsFloat.scaled (FFin 290) 100 = Ok (FFin (8162774324609023 # 281474976710656)) /\
  (8162774324609023 # 281474976710656 < 29)%Q /\
  (290 / 1000 * 100 == 29)%Q.
Proof. repeat split; vm_compute; reflexivity. Qed.


End FloatExamples.
